(** * Job-listing extraction pipeline of [index.js]

    A shallow embedding of the page-context functions and of the
    orchestration of [openChromeAndSearch], and the properties of the
    pipeline proved against it.

    - A string is the sequence of the bytes of its UTF-8 encoding
      ([string]); the string operations of the source ([length], [trim],
      [includes], [encodeURIComponent], ...) are written out on that
      encoding.
    - The content tree is a rose tree of elements; a node handle keeps
      the chain of its ancestors, which is what [closest],
      [parentElement] and selector matching need.
    - The browser is an environment that answers each call of the
      automation layer from the history of the calls made so far. *)

From Stdlib Require Import String Ascii List Bool Arith Lia.
From stdpp Require Import gmap strings list pretty.
Import ListNotations.

Local Open Scope string_scope.
Local Open Scope list_scope.

(** ** Strings *)

Module Js.

Definition code (c : ascii) : nat := nat_of_ascii c.

(** The code units a byte stands for in [s.length]: a code point takes
    one unit, or two when it lies outside the Basic Multilingual Plane,
    which is when its encoding has four bytes; the bytes that continue
    a sequence count for nothing. *)
Definition units (c : ascii) : nat :=
  let n := code c in
  if (n <? 128)%nat then 1
  else if (n <? 192)%nat then 0
  else if (n <? 240)%nat then 1
  else 2.

(** [s.length] *)
Fixpoint length (s : string) : nat :=
  match s with
  | String c s' => units c + length s'
  | EmptyString => 0
  end.

(** The white space and the line terminators, which
    [String.prototype.trim] removes and [\s] matches, by the bytes of
    their encoding.  One byte: U+0009 to U+000D and U+0020. *)
Definition white_space_1 (a : ascii) : bool :=
  let n := code a in ((9 <=? n) && (n <=? 13) || (n =? 32))%nat.

(** Two bytes: U+00A0. *)
Definition white_space_2 (a b : ascii) : bool :=
  ((code a =? 194) && (code b =? 160))%nat.

(** Three bytes: U+1680, U+2000 to U+200A, U+2028, U+2029, U+202F,
    U+205F, U+3000 and U+FEFF. *)
Definition white_space_3 (a b c : ascii) : bool :=
  let x := code a in
  let y := code b in
  let z := code c in
  ((x =? 225) && (y =? 154) && (z =? 128) ||
   (x =? 226) && (y =? 128) &&
     ((128 <=? z) && (z <=? 138) || (z =? 168) || (z =? 169) || (z =? 175)) ||
   (x =? 226) && (y =? 129) && (z =? 159) ||
   (x =? 227) && (y =? 128) && (z =? 128) ||
   (x =? 239) && (y =? 187) && (z =? 191))%nat.

(** What is left of [s] after the white-space character it starts
    with, when it starts with one. *)
Definition after_white_space (s : string) : option string :=
  match s with
  | String a s1 =>
      if white_space_1 a then Some s1
      else match s1 with
           | String b s2 =>
               if white_space_2 a b then Some s2
               else match s2 with
                    | String c s3 => if white_space_3 a b c then Some s3 else None
                    | EmptyString => None
                    end
           | EmptyString => None
           end
  | EmptyString => None
  end.

(** The line terminators, which [.] of a regular expression does not
    match: U+000A, U+000D, U+2028 and U+2029. *)
Definition starts_with_line_terminator (s : string) : bool :=
  match s with
  | String a s1 =>
      ((code a =? 10) || (code a =? 13))%nat ||
      match s1 with
      | String b (String c _) =>
          ((code a =? 226) && (code b =? 128) && ((code c =? 168) || (code c =? 169)))%nat
      | _ => false
      end
  | EmptyString => false
  end.

Definition is_digit (c : ascii) : bool :=
  let n := code c in ((48 <=? n) && (n <=? 57))%nat.

Definition is_upper (c : ascii) : bool :=
  let n := code c in ((65 <=? n) && (n <=? 90))%nat.

Definition is_lower (c : ascii) : bool :=
  let n := code c in ((97 <=? n) && (n <=? 122))%nat.

Fixpoint trimStart (s : string) : string :=
  match s with
  | String a s1 =>
      if white_space_1 a then trimStart s1
      else match s1 with
           | String b s2 =>
               if white_space_2 a b then trimStart s2
               else match s2 with
                    | String c s3 => if white_space_3 a b c then trimStart s3 else s
                    | EmptyString => s
                    end
           | EmptyString => s
           end
  | EmptyString => s
  end.

(** The string is empty or holds white space only. *)
Fixpoint all_white_space (s : string) : bool :=
  match s with
  | String a s1 =>
      if white_space_1 a then all_white_space s1
      else match s1 with
           | String b s2 =>
               if white_space_2 a b then all_white_space s2
               else match s2 with
                    | String c s3 => white_space_3 a b c && all_white_space s3
                    | EmptyString => false
                    end
           | EmptyString => false
           end
  | EmptyString => true
  end.

(** The string without the white space it ends with: it is cut where
    all that follows is white space. *)
Fixpoint trimEnd (s : string) : string :=
  match s with
  | String c s' => if all_white_space s then EmptyString else String c (trimEnd s')
  | EmptyString => EmptyString
  end.

Definition trim (s : string) : string := trimEnd (trimStart s).

(** [s.toLowerCase()], on the letters of ASCII, in which all the words
    are that the source compares against; other letters stay as they
    are. *)
Definition lower_char (c : ascii) : ascii :=
  if is_upper c then ascii_of_nat (code c + 32) else c.

Fixpoint toLowerCase (s : string) : string :=
  match s with
  | String c s' => String (lower_char c) (toLowerCase s')
  | EmptyString => EmptyString
  end.

Fixpoint startsWith (s p : string) : bool :=
  match p, s with
  | EmptyString, _ => true
  | String a p', String b s' => Ascii.eqb a b && startsWith s' p'
  | String _ _, EmptyString => false
  end.

Fixpoint includes (s sub : string) : bool :=
  startsWith s sub ||
  match s with
  | String _ s' => includes s' sub
  | EmptyString => false
  end.

Fixpoint endsWith (s suffix : string) : bool :=
  String.eqb s suffix ||
  match s with
  | String _ s' => endsWith s' suffix
  | EmptyString => false
  end.

(** [s.split(sep)] for a one-character separator. *)
Fixpoint split (sep : ascii) (s : string) : list string :=
  match s with
  | EmptyString => [EmptyString]
  | String c s' =>
      if Ascii.eqb c sep then EmptyString :: split sep s'
      else match split sep s' with
           | l :: ls => String c l :: ls
           | [] => [String c EmptyString]
           end
  end.

Definition LF : ascii := ascii_of_nat 10.

(** JavaScript truthiness of a string, and [a || b] on strings. *)
Definition truthy (s : string) : bool := negb (String.eqb s "").
Definition or_else (a b : string) : string := if truthy a then a else b.

(** [.*ago$] against the whole of [s]. *)
Fixpoint any_then_ago_end (s : string) : bool :=
  String.eqb s "ago" ||
  match s with
  | String c s' => negb (starts_with_line_terminator s) && any_then_ago_end s'
  | EmptyString => false
  end.

(** [s.match(/^\d+.*ago$/)] is not null.  After the first digit the
    remaining digits of [\d+] are also matched by [.], so the rest of
    the string only has to match [.*ago$]. *)
Definition matches_time_ago (s : string) : bool :=
  match s with
  | String c s' => is_digit c && any_then_ago_end s'
  | EmptyString => false
  end.

(** [\s*[A-Z]] at the start of [s]. *)
Definition skip_white_space_then_upper (s : string) : bool :=
  match trimStart s with
  | String c _ => is_upper c
  | EmptyString => false
  end.

(** [[a-z]*,\s*[A-Z]] at the start of [s]. *)
Fixpoint lowers_then_comma (s : string) : bool :=
  match s with
  | String c s' =>
      if is_lower c then lowers_then_comma s'
      else Ascii.eqb c "," && skip_white_space_then_upper s'
  | EmptyString => false
  end.

(** [s.match(/^[A-Z][a-z]+,\s*[A-Z]/)] is not null. *)
Definition matches_city_region (s : string) : bool :=
  match s with
  | String c (String d s') => is_upper c && is_lower d && lowers_then_comma s'
  | _ => false
  end.

End Js.

(** ** Strings by their code points *)

Module Unicode.

(** The UTF-8 encoding of a code point. *)
Definition utf8 (cp : N) : string :=
  if (cp <? 128)%N then String (ascii_of_N cp) EmptyString
  else if (cp <? 2048)%N then
    String (ascii_of_N (192 + cp / 64))
      (String (ascii_of_N (128 + cp mod 64)) EmptyString)
  else if (cp <? 65536)%N then
    String (ascii_of_N (224 + cp / 4096))
      (String (ascii_of_N (128 + (cp / 64) mod 64))
         (String (ascii_of_N (128 + cp mod 64)) EmptyString))
  else
    String (ascii_of_N (240 + cp / 262144))
      (String (ascii_of_N (128 + (cp / 4096) mod 64))
         (String (ascii_of_N (128 + (cp / 64) mod 64))
            (String (ascii_of_N (128 + cp mod 64)) EmptyString))).

(** The string of a sequence of code points. *)
Definition encode (cps : list N) : string :=
  fold_right (fun cp s => (utf8 cp ++ s)%string) EmptyString cps.

(** The code point of a sequence of three bytes. *)
Definition of_three (a b c : ascii) : N :=
  ((N_of_ascii a - 224) * 4096 + (N_of_ascii b - 128) * 64 + (N_of_ascii c - 128))%N.

(** The code units of a sequence of code points in UTF-16: one for a
    code point of the Basic Multilingual Plane, two for any other. *)
Definition code_units (cps : list N) : nat :=
  sum_list (map (fun cp => if (cp <? 65536)%N then 1 else 2) cps).

(** The code points below U+110000. *)
Definition code_point (cp : N) : Prop := (cp < 1114112)%N.

(** WhiteSpace and LineTerminator of the language: TAB, LF, VT, FF, CR,
    SP, NBSP, the space separators U+1680, U+2000 to U+200A, U+202F,
    U+205F and U+3000, the separators U+2028 and U+2029, and U+FEFF. *)
Definition white_space : list N :=
  [ 9; 10; 11; 12; 13; 32; 160; 5760;
    8192; 8193; 8194; 8195; 8196; 8197; 8198; 8199; 8200; 8201; 8202;
    8232; 8233; 8239; 8287; 12288; 65279 ]%N.

(** The string is made of white space only; the empty string is. *)
Definition white_space_only (s : string) : Prop :=
  exists cps, Forall (fun cp => cp ∈ white_space) cps /\ s = encode cps.

End Unicode.

(** ** URLs *)

Module Url.

(** The part of [s] before the first occurrence of [c], and the part
    after it when there is one. *)
Fixpoint cut (c : ascii) (s : string) : string * option string :=
  match s with
  | String a s' =>
      if Ascii.eqb a c then (EmptyString, Some s')
      else let '(before, after) := cut c s' in (String a before, after)
  | EmptyString => (EmptyString, None)
  end.

(** The query of a serialized URL: what lies between the first [?] and
    the fragment. *)
Definition query (url : string) : string :=
  default "" (snd (cut "?" (fst (cut "#" url)))).

Definition hex_value (c : ascii) : option nat :=
  let n := Js.code c in
  if Js.is_digit c then Some (n - 48)
  else if ((65 <=? n) && (n <=? 70))%nat then Some (n - 55)
  else if ((97 <=? n) && (n <=? 102))%nat then Some (n - 87)
  else None.

(** Percent-decoding; a [%] that is not followed by two hexadecimal
    digits stands for itself. *)
Fixpoint percent_decode (s : string) : string :=
  match s with
  | String "%" (String h (String l rest) as s') =>
      match hex_value h, hex_value l with
      | Some a, Some b => String (ascii_of_nat (16 * a + b)) (percent_decode rest)
      | _, _ => String "%" (percent_decode s')
      end
  | String c s' => String c (percent_decode s')
  | EmptyString => EmptyString
  end.

Fixpoint plus_to_space (s : string) : string :=
  match s with
  | String c s' => String (if Ascii.eqb c "+" then " "%char else c) (plus_to_space s')
  | EmptyString => EmptyString
  end.

(** The name-value pairs of a query, as [URLSearchParams] parses it. *)
Definition searchParams (url : string) : list (string * string) :=
  map (fun seq =>
         let '(name, value) := cut "=" seq in
         (percent_decode (plus_to_space name),
          percent_decode (plus_to_space (default "" value))))
      (filter (fun seq => Js.truthy seq) (Js.split "&" (query url))).

(** [new URL(url).searchParams.get(name)] *)
Definition searchParams_get (url name : string) : option string :=
  snd <$> find (fun p => String.eqb (fst p) name) (searchParams url).


Definition hex_digit (n : nat) : ascii :=
  default "0"%char (String.get n "0123456789ABCDEF").

Definition is_unreserved (c : ascii) : bool :=
  Js.is_upper c || Js.is_lower c || Js.is_digit c ||
  Js.includes "-_.!~*'()" (String c EmptyString).

Fixpoint encodeURIComponent (s : string) : string :=
  match s with
  | String c s' =>
      if is_unreserved c then String c (encodeURIComponent s')
      else String "%" (String (hex_digit (Js.code c / 16))
                         (String (hex_digit (Js.code c mod 16)) (encodeURIComponent s')))
  | EmptyString => EmptyString
  end.

End Url.

(** ** The content tree *)

Module Dom.

(** An element of the rendered page.  [tagName] is the lower-case
    local name.  [resolved] is the value of the [href] property of an
    anchor (anchors are HTML anchors, whose [href] is a string): the URL
    the browser resolves its [href] attribute to against the address of
    the document, empty without the attribute; the attribute itself is
    among [attributes].  [innerText] is what the
    browser computes for the element and is [None] where the property
    is undefined: on the elements that are not HTML elements, which
    have no [click] method either. *)
Inductive element : Type :=
  Element {
    tagName : string;
    classList : list string;
    attributes : list (string * string);
    resolved : string;
    innerText : option string;
    textContent : string;
    children : list element
  }.

(** A handle on an element of a document: the element and its
    ancestors, nearest first. *)
Record node : Type := Node { self : element; ancestors : list element }.

Definition parentElement (n : node) : option node :=
  match ancestors n with
  | p :: rest => Some (Node p rest)
  | [] => None
  end.

Fixpoint getAttr (name : string) (attrs : list (string * string)) : option string :=
  match attrs with
  | (k, v) :: rest => if String.eqb k name then Some v else getAttr name rest
  | [] => None
  end.

Definition getAttribute (n : node) (name : string) : option string :=
  getAttr name (attributes (self n)).

(** The [href] property: defined on anchors only. *)
Definition href (n : node) : option string :=
  if String.eqb (tagName (self n)) "a"
  then Some (resolved (self n))
  else None.

(** The element is an HTML element: it has [innerText] and [click]. *)
Definition is_html (n : node) : bool :=
  match innerText (self n) with
  | Some _ => true
  | None => false
  end.

(** Proper descendants in document order. *)
Fixpoint descendants (ancs : list element) (e : element) : list node :=
  flat_map (fun c => Node c (e :: ancs) :: descendants (e :: ancs) c) (children e).

(** *** Selectors *)

Inductive attr_sel : Type :=
| AttrPresent (name : string)              (* [name] *)
| AttrIs (name value : string)             (* [name="value"] *)
| AttrHas (name value : string).           (* [name*="value"] *)

Inductive simple_sel : Type :=
| Tag (t : string)
| Class (c : string)
| Id (i : string)
| Attr (a : attr_sel)
| NotClass (c : string).                   (* :not(.c) *)

Definition compound : Type := list simple_sel.

Inductive combinator : Type := Descendant | Child.

(** A complex selector, read from its subject leftwards. *)
Record complex : Type :=
  Complex { subject : compound; context : list (combinator * compound) }.

Definition selector : Type := list complex.

Definition has_class (e : element) (c : string) : bool :=
  existsb (String.eqb c) (classList e).

Definition matches_attr (e : element) (a : attr_sel) : bool :=
  match a with
  | AttrPresent name => bool_decide (is_Some (getAttr name (attributes e)))
  | AttrIs name v =>
      match getAttr name (attributes e) with
      | Some w => String.eqb w v
      | None => false
      end
  | AttrHas name v =>
      match getAttr name (attributes e) with
      | Some w => Js.truthy v && Js.includes w v
      | None => false
      end
  end.

Definition matches_simple (e : element) (s : simple_sel) : bool :=
  match s with
  | Tag t => String.eqb (Js.toLowerCase t) (tagName e)
  | Class c => has_class e c
  | Id i => matches_attr e (AttrIs "id" i)
  | Attr a => matches_attr e a
  | NotClass c => negb (has_class e c)
  end.

Definition matches_compound (e : element) (c : compound) : bool :=
  forallb (matches_simple e) c.

(** Some ancestor in [ancs] matches [c] and the ancestors above it
    satisfy [k]. *)
Fixpoint some_ancestor (c : compound) (k : list element -> bool)
    (ancs : list element) : bool :=
  match ancs with
  | a :: rest => (matches_compound a c && k rest) || some_ancestor c k rest
  | [] => false
  end.

Fixpoint matches_context (ctx : list (combinator * compound))
    (ancs : list element) : bool :=
  match ctx with
  | [] => true
  | (Child, c) :: ctx' =>
      match ancs with
      | a :: rest => matches_compound a c && matches_context ctx' rest
      | [] => false
      end
  | (Descendant, c) :: ctx' => some_ancestor c (matches_context ctx') ancs
  end.

Definition matches_complex (n : node) (s : complex) : bool :=
  matches_compound (self n) (subject s) && matches_context (context s) (ancestors n).

Definition matches (n : node) (sel : selector) : bool :=
  existsb (matches_complex n) sel.

(** [root.querySelectorAll(sel)]: the descendants of [root] that match,
    in document order; the selector is matched against the whole
    document, ancestors of [root] included. *)
Definition querySelectorAll (root : node) (sel : selector) : list node :=
  filter (fun n => matches n sel) (descendants (ancestors root) (self root)).

Definition querySelector (root : node) (sel : selector) : option node :=
  head (querySelectorAll root sel).

(** The chain [n], parent of [n], ..., root. *)
Fixpoint inclusive_ancestors (e : element) (ancs : list element) : list node :=
  Node e ancs ::
  match ancs with
  | p :: rest => inclusive_ancestors p rest
  | [] => []
  end.

(** [n.closest(sel)] *)
Definition closest (n : node) (sel : selector) : option node :=
  head (filter (fun m => matches m sel) (inclusive_ancestors (self n) (ancestors n))).

(** A document is its root element. *)
Definition document : Type := element.

Definition all_nodes (d : document) : list node := Node d [] :: descendants [] d.

Definition docQuerySelectorAll (d : document) (sel : selector) : list node :=
  filter (fun n => matches n sel) (all_nodes d).

Definition docQuerySelector (d : document) (sel : selector) : option node :=
  head (docQuerySelectorAll d sel).

(** Selector notation helpers. *)
Definition one (c : compound) : complex := Complex c [].
Definition inside (c outer : compound) : complex := Complex c [(Descendant, outer)].
Definition child_of (c outer : compound) : complex := Complex c [(Child, outer)].

End Dom.

(** ** Exceptions *)

(** The outcome of a computation that may throw; the payload of [Throw]
    is the message of the error. *)
Inductive result (A : Type) : Type :=
| Ok (a : A)
| Throw (message : string).
Arguments Ok {A} a.
Arguments Throw {A} message.

#[global] Instance result_ret : MRet result := fun _ a => Ok a.
#[global] Instance result_bind : MBind result := fun _ _ f m =>
  match m with
  | Ok a => f a
  | Throw e => Throw e
  end.

(** ** Functions evaluated in the page context *)

Module Page.
Import Dom.

Record JobRecord : Type :=
  Job {
    title : string;
    company : string;
    location : string;
    description : string;
    link : string;
    applyLink : string
  }.

(** [n?.innerText?.trim() || ''] *)
Definition text_of (n : option node) : string :=
  match n with
  | Some n =>
      match innerText (self n) with
      | Some t => Js.trim t
      | None => ""
      end
  | None => ""
  end.

(** [n.innerText.trim()], which throws where [innerText] is undefined. *)
Definition innerText_trim (n : node) : result string :=
  match innerText (self n) with
  | Some t => Ok (Js.trim t)
  | None => Throw "Cannot read properties of undefined (reading 'trim')"
  end.

(** [n?.href || ''] *)
Definition href_of (n : option node) : string :=
  match n with
  | Some n => default "" (href n)
  | None => ""
  end.

(** [a || b] on element handles. *)
Definition or_node (a b : option node) : option node :=
  match a with
  | Some _ => a
  | None => b
  end.

Definition apply_button : string := "nNzjpf-cS4Vcb-PvZLI-Ueh9jd-LgbsSe-Jyewjb-tlSJBe".

(** ['.nNzjpf-... a, a.nNzjpf-...'] *)
Definition special_sel : selector :=
  [ inside [Tag "a"] [Class apply_button]; one [Tag "a"; Class apply_button] ].

(** ['a[href]'] *)
Definition anchor_sel : selector := [ one [Tag "a"; Attr (AttrPresent "href")] ].

(** ['.tNxQIb.PUpOsf'] *)
Definition title_marker_sel : selector := [ one [Class "tNxQIb"; Class "PUpOsf"] ].

(** The test of the anchor loop of [findApplyLink]. *)
Definition is_apply_anchor (anchor : node) : bool :=
  let text := Js.toLowerCase (text_of (Some anchor)) in
  let aria := Js.toLowerCase (default "" (getAttribute anchor "aria-label")) in
  Js.includes text "apply" ||
  Js.includes text "view job" ||
  Js.includes aria "apply" ||
  Js.includes aria "view job" ||
  Js.includes text "learn more".

(** [findApplyLink] (also [searchLink] and [findLink] further down the
    source: the same body). *)
Definition findApplyLink (root : option node) : string :=
  match root with
  | None => ""
  | Some root =>
      let special := querySelector root special_sel in
      if Js.truthy (href_of special) then href_of special
      else
        let anchors := querySelectorAll root anchor_sel in
        match find is_apply_anchor anchors with
        | Some anchor => href_of (Some anchor)
        | None => href_of (head anchors)
        end
  end.

(** *** Primary strategy: [classBasedResults] *)

(** ['[role="tab"], .iFjolb, .PwjeAc, .g, [data-ved], .l9oVJb'] *)
Definition job_card_sel : selector :=
  [ one [Attr (AttrIs "role" "tab")]; one [Class "iFjolb"]; one [Class "PwjeAc"];
    one [Class "g"]; one [Attr (AttrPresent "data-ved")]; one [Class "l9oVJb"] ].

Definition location_marker_sel : selector :=
  [ one [Class "wHYlTd"; Class "FqK3wc"; Class "MKCbgd"] ].

Definition company_marker_sel : selector :=
  [ one [Class "wHYlTd"; Class "MKCbgd"; Class "a3jPc"] ].

(** ['.NgUYpe, .Yg3bIe, .s, span[style*="-webkit-line-clamp"], .VwiC3b,
     .tNxQIb:not(.PUpOsf)'] *)
Definition description_sel : selector :=
  [ one [Class "NgUYpe"]; one [Class "Yg3bIe"]; one [Class "s"];
    one [Tag "span"; Attr (AttrHas "style" "-webkit-line-clamp")];
    one [Class "VwiC3b"]; one [Class "tNxQIb"; NotClass "PUpOsf"] ].

(** [jobCard?.querySelector(sel)] *)
Definition query_in (root : option node) (sel : selector) : option node :=
  match root with
  | Some r => querySelector r sel
  | None => None
  end.

Definition signature (title company location : string) : string :=
  title ++ "__" ++ company ++ "__" ++ location.

(** The record read off one title marker, with its signature. *)
Definition class_based_record (titleEl : node) : JobRecord :=
  let jobCard := or_node (closest titleEl job_card_sel) (parentElement titleEl) in
  let locationEl := query_in jobCard location_marker_sel in
  let companyEl := query_in jobCard company_marker_sel in
  let descriptionEl := query_in jobCard description_sel in
  let specialLinkEl := query_in jobCard special_sel in
  let linkEl := or_node specialLinkEl (query_in jobCard anchor_sel) in
  let title := text_of (Some titleEl) in
  let company := text_of companyEl in
  let location := text_of locationEl in
  let rawDescription := text_of descriptionEl in
  let description :=
    if Js.truthy rawDescription && negb (String.eqb rawDescription title)
       && negb (String.eqb rawDescription company)
       && negb (String.eqb rawDescription location)
    then rawDescription else "" in
  let applyLink := findApplyLink jobCard in
  let link := Js.or_else (href_of linkEl) (Js.or_else applyLink "") in
  Job title company location description link applyLink.

Definition record_signature (r : JobRecord) : string :=
  signature (title r) (company r) (location r).

(** The body of [titleElements.forEach], on the pair [(jobs, seen)]. *)
Definition class_based_step (acc : list JobRecord * gset string) (titleEl : node)
    : list JobRecord * gset string :=
  let '(jobs, seen) := acc in
  let r := class_based_record titleEl in
  if Js.truthy (title r) && negb (bool_decide (record_signature r ∈ seen))
  then (jobs ++ [r], {[ record_signature r ]} ∪ seen)
  else (jobs, seen).

Definition classBasedResults (d : document) : list JobRecord :=
  fst (fold_left class_based_step (docQuerySelectorAll d title_marker_sel) ([], ∅)).

(** *** Fallback strategy *)

Definition job_selectors : list selector :=
  [ [one [Class "PwjeAc"]];
    [one [Attr (AttrPresent "data-ved")]];
    [one [Class "g"]];
    [one [Attr (AttrPresent "data-entityname")]];
    [one [Class "hlcw0c"]];
    [one [Class "BjJfJf"]];
    [one [Tag "div"; Attr (AttrPresent "data-ved"); Attr (AttrPresent "data-hveid")]];
    [one [Class "Qk80Jf"]];
    [one [Class "vNEEBe"]] ].

(** ['h3, .BjJfJf, h2, [data-attrid="title"], .B8oxKe, .BjJfJf.PUpOsf,
     .nDc9Hc, h4'] *)
Definition job_title_sel : selector :=
  [ one [Tag "h3"]; one [Class "BjJfJf"]; one [Tag "h2"];
    one [Attr (AttrIs "data-attrid" "title")]; one [Class "B8oxKe"];
    one [Class "BjJfJf"; Class "PUpOsf"]; one [Class "nDc9Hc"]; one [Tag "h4"] ].

Definition company_selectors : list selector :=
  [ [one [Class "vNEEBe"]]; [one [Class "Qk80Jf"]]; [one [Class "nDc9Hc"]];
    [one [Attr (AttrIs "data-attrid" "subtitle")]]; [one [Class "s"]];
    [one [Class "Yg3bIe"]] ].

Definition location_selectors : list selector :=
  [ [one [Class "Qk80Jf"]]; [one [Class "s"]]; [one [Class "Yg3bIe"]];
    [one [Attr (AttrPresent "data-attrid")]] ].

Definition desc_selectors : list selector :=
  [ [one [Class "NgUYpe"]]; [one [Class "Yg3bIe"]]; [one [Class "s"]];
    [one [Tag "span"; Attr (AttrHas "style" "-webkit-line-clamp")]];
    [one [Class "VwiC3b"]];
    [one [Attr (AttrIs "data-attrid" "description")]];
    [inside [Tag "span"] [Class "PwjeAc"]] ].

(** The link of a candidate element: the special anchor, the first
    anchor below it, one near the title, or an enclosing anchor. *)
Definition fallback_link_element (element : node) (jobTitle : option node)
    : option node :=
  let specialLink := querySelector element special_sel in
  let linkElement := or_node specialLink (querySelector element anchor_sel) in
  let linkElement :=
    match linkElement, jobTitle with
    | None, Some jt =>
        or_node (closest jt anchor_sel) (query_in (parentElement jt) anchor_sel)
    | _, _ => linkElement
    end in
  match linkElement with
  | None => closest element anchor_sel
  | Some _ => linkElement
  end.

Definition is_company_text (text : string) : bool :=
  Js.truthy text && (Js.length text <? 100)%nat &&
  negb (Js.includes (Js.toLowerCase text) "sri lanka") &&
  negb (Js.includes (Js.toLowerCase text) "colombo") &&
  negb (Js.matches_time_ago text).

Fixpoint pick_company (element : node) (sels : list selector) : result string :=
  match sels with
  | sel :: rest =>
      match querySelector element sel with
      | Some companyEl =>
          text ← innerText_trim companyEl;
          if is_company_text text then Ok text else pick_company element rest
      | None => pick_company element rest
      end
  | [] => Ok ""
  end.

Definition is_location_text (text : string) : bool :=
  Js.truthy text &&
  (Js.includes (Js.toLowerCase text) "sri lanka" ||
   Js.includes (Js.toLowerCase text) "colombo" ||
   Js.includes (Js.toLowerCase text) "remote" ||
   Js.includes (Js.toLowerCase text) "hybrid" ||
   Js.matches_city_region text ||
   negb (Js.matches_time_ago text)).

(** The inner loop over [locationEls]: the location found, or [""]. *)
Fixpoint pick_location_among (companyName : string) (locationEls : list node)
    : result string :=
  match locationEls with
  | locEl :: rest =>
      text ← innerText_trim locEl;
      if is_location_text text && negb (String.eqb text companyName)
      then Ok text
      else pick_location_among companyName rest
  | [] => Ok ""
  end.

Fixpoint pick_location (element : node) (companyName : string)
    (sels : list selector) : result string :=
  match sels with
  | sel :: rest =>
      location ← pick_location_among companyName (querySelectorAll element sel);
      if Js.truthy location then Ok location
      else pick_location element companyName rest
  | [] => Ok ""
  end.

Definition is_description_text (title companyName location text : string) : bool :=
  Js.truthy text && (20 <? Js.length text)%nat &&
  negb (String.eqb text title) &&
  negb (String.eqb text companyName) &&
  negb (String.eqb text location) &&
  negb (Js.matches_time_ago text).

Fixpoint pick_description (element : node) (title companyName location : string)
    (sels : list selector) : result string :=
  match sels with
  | sel :: rest =>
      match querySelector element sel with
      | Some descEl =>
          text ← innerText_trim descEl;
          if is_description_text title companyName location text then Ok text
          else pick_description element title companyName location rest
      | None => pick_description element title companyName location rest
      end
  | [] => Ok ""
  end.

(** [text.split('\n').map(l => l.trim()).filter(l => l.length > 0)] *)
Definition lines_of (text : string) : list string :=
  filter (fun l => Js.truthy l) (map Js.trim (Js.split Js.LF text)).

Definition is_description_line (title companyName location line : string) : bool :=
  negb (String.eqb line title) &&
  negb (String.eqb line companyName) &&
  negb (String.eqb line location) &&
  (20 <? Js.length line)%nat &&
  negb (Js.matches_time_ago line) &&
  negb (Js.includes (Js.toLowerCase line) "apply") &&
  negb (Js.includes (Js.toLowerCase line) "view").

(** [element.innerText || element.textContent || ''] *)
Definition all_text (element : node) : string :=
  Js.or_else (default "" (innerText (self element)))
             (Js.or_else (textContent (self element)) "").

Definition description_from_lines (element : node)
    (title companyName location : string) : string :=
  default "" (find (is_description_line title companyName location)
                   (lines_of (all_text element))).

Definition fallback_state : Type := list JobRecord * gset string.

(** The body of [elements.forEach] in the scan over [jobSelectors], on
    the pair [(searchResults, seenLinks)]. *)
Definition fallback_step (acc : fallback_state) (element : node)
    : result fallback_state :=
  let '(searchResults, seenLinks) := acc in
  let jobTitle := querySelector element job_title_sel in
  match jobTitle, fallback_link_element element jobTitle with
  | Some jt, Some linkElement =>
      title ← innerText_trim jt;
      let link := href_of (Some linkElement) in
      if Js.truthy title && Js.truthy link &&
         negb (bool_decide (link ∈ seenLinks)) && (3 <? Js.length title)%nat
      then
        let seenLinks := {[ link ]} ∪ seenLinks in
        companyName ← pick_company element company_selectors;
        location ← pick_location element companyName location_selectors;
        description ← pick_description element title companyName location desc_selectors;
        let description :=
          if Js.truthy description then description
          else description_from_lines element title companyName location in
        let applyLink := findApplyLink (Some element) in
        Ok (searchResults ++ [Job title companyName location description link applyLink],
            seenLinks)
      else Ok acc
  | _, _ => Ok acc
  end.

(** A loop whose body may throw. *)
Fixpoint for_each {S A : Type} (body : S -> A -> result S) (acc : S) (l : list A)
    : result S :=
  match l with
  | x :: rest => acc' ← body acc x; for_each body acc' rest
  | [] => Ok acc
  end.

(** ['h3, h4'] *)
Definition heading_sel : selector := [ one [Tag "h3"]; one [Tag "h4"] ].

(** ['[data-ved], .g, .PwjeAc'] *)
Definition heading_parent_sel : selector :=
  [ one [Attr (AttrPresent "data-ved")]; one [Class "g"]; one [Class "PwjeAc"] ].

(** The loop over the lines of the parent's text in the heading scan,
    on [(companyName, location, description)]. *)
Definition heading_line_step (title : string) (acc : string * string * string)
    (line : string) : string * string * string :=
  let '(companyName, location, description) := acc in
  if String.eqb line title then acc
  else if negb (Js.truthy companyName) && (Js.length line <? 50)%nat
          && negb (Js.matches_time_ago line)
  then (line, location, description)
  else if negb (Js.truthy location) &&
          (Js.includes (Js.toLowerCase line) "sri lanka" ||
           Js.includes (Js.toLowerCase line) "colombo" ||
           Js.includes (Js.toLowerCase line) "remote")
  then (companyName, line, description)
  else if negb (Js.truthy description) && (20 <? Js.length line)%nat
  then (companyName, location, line)
  else acc.

Definition heading_link_element (heading : node) : option node :=
  let specialLink :=
    query_in (closest heading [one [Class apply_button]])
             [ one [Tag "a"; Attr (AttrPresent "href")]; one [Tag "a"; Class apply_button] ] in
  or_node specialLink
    (or_node (closest heading anchor_sel)
             (query_in (parentElement heading) anchor_sel)).

(** The body of [headingElements.forEach]. *)
Definition heading_step (acc : fallback_state) (heading : node)
    : result fallback_state :=
  let '(searchResults, seenLinks) := acc in
  title ← innerText_trim heading;
  if Js.truthy title && (3 <? Js.length title)%nat then
    match heading_link_element heading with
    | Some linkElement =>
        let link := href_of (Some linkElement) in
        if Js.truthy link && negb (bool_decide (link ∈ seenLinks)) &&
           (Js.includes link "jobs" || Js.includes link "google.com")
        then
          let seenLinks := {[ link ]} ∪ seenLinks in
          if negb (existsb (fun r => String.eqb (Page.link r) link) searchResults)
          then
            let parent := closest heading heading_parent_sel in
            let '(companyName, location, description) :=
              match parent with
              | Some p =>
                  fold_left (heading_line_step title)
                    (lines_of (Js.or_else (default "" (innerText (self p))) ""))
                    ("", "", "")
              | None => ("", "", "")
              end in
            let applyLink := findApplyLink (or_node parent (Some heading)) in
            Ok (searchResults ++ [Job title companyName location description link applyLink],
                seenLinks)
          else Ok (searchResults, seenLinks)
        else Ok acc
    | None => Ok acc
    end
  else Ok acc.

(** The page function of the fallback extraction. *)
Definition fallbackResults (d : document) : result (list JobRecord) :=
  st ← for_each fallback_step ([], ∅)
         (flat_map (docQuerySelectorAll d) job_selectors);
  st ← for_each heading_step st (docQuerySelectorAll d heading_sel);
  Ok (fst st).

(** *** Enrichment: the first result of a search page *)

Definition redirect_prefix : string := "https://www.google.com/url?q=".

(** ['.g a'], ['.yuRUbf > a'], ['a h3'] *)
Definition preferred_selectors : list selector :=
  [ [inside [Tag "a"] [Class "g"]];
    [child_of [Tag "a"] [Class "yuRUbf"]];
    [inside [Tag "h3"] [Tag "a"]] ].

(** ['#search a[href]'] *)
Definition generic_anchor_sel : selector :=
  [ inside [Tag "a"; Attr (AttrPresent "href")] [Id "search"] ].

(** [node.tagName === 'A' ? node : node.closest('a')] *)
Definition result_anchor (n : node) : option node :=
  if String.eqb (tagName (self n)) "a" then Some n else closest n [one [Tag "a"]].

(** The body of the loop over [nodes]: [Some l] when it returns [l],
    [None] when the loop goes on.  The href of an anchor that starts
    with the redirect prefix always parses as a URL, so the [catch]
    around [new URL] is never entered. *)
Definition result_link_at (n : node) : option string :=
  match result_anchor n with
  | Some a =>
      let h := href_of (Some a) in
      if Js.truthy h && negb (Js.includes h "/search?")
         && negb (Js.startsWith h redirect_prefix)
      then Some h
      else if Js.startsWith h redirect_prefix
      then Some (Js.or_else (default "" (Url.searchParams_get h "q")) "")
      else None
  | None => None
  end.

Fixpoint first_some {A B : Type} (f : A -> option B) (l : list A) : option B :=
  match l with
  | x :: rest =>
      match f x with
      | Some b => Some b
      | None => first_some f rest
      end
  | [] => None
  end.

(** The page function of [getFirstGoogleResultLink]. *)
Definition firstResultLink (d : document) : string :=
  match first_some result_link_at (flat_map (docQuerySelectorAll d) preferred_selectors) with
  | Some l => l
  | None => Js.or_else (href_of (docQuerySelector d generic_anchor_sel)) ""
  end.

(** *** Detail drill-down *)

(** ['[role="tab"], .iFjolb, .gws-plugins-horizon-jobs__li-ed, .nJibGY,
     .l9oVJb'] *)
Definition job_tab_sel : selector :=
  [ one [Attr (AttrIs "role" "tab")]; one [Class "iFjolb"];
    one [Class "gws-plugins-horizon-jobs__li-ed"]; one [Class "nJibGY"];
    one [Class "l9oVJb"] ].

(** The element the [index]-th iteration scrolls to and clicks, or
    [None] when the page function returns [false]. *)
Definition jobTabToClick (index : nat) (d : document) : option node :=
  match docQuerySelectorAll d title_marker_sel !! index with
  | Some target => or_node (closest target job_tab_sel) (Some target)
  | None => None
  end.

(** ['.NgUYpe, .whazf bREpEc, .KPJpj,
     .gws-plugins-horizon-jobs__detail-page,
     [data-ref-id="jobs-detail-pane"]'] *)
Definition detail_panel_sel : selector :=
  [ one [Class "NgUYpe"]; inside [Tag "bREpEc"] [Class "whazf"]; one [Class "KPJpj"];
    one [Class "gws-plugins-horizon-jobs__detail-page"];
    one [Attr (AttrIs "data-ref-id" "jobs-detail-pane")] ].

Definition selected (c : simple_sel) : selector :=
  [ one [c; Attr (AttrIs "aria-selected" "true")] ].

Definition jobLink (d : document) : string :=
  let detailPanel := docQuerySelector d detail_panel_sel in
  let detailLink := findApplyLink detailPanel in
  if Js.truthy detailLink then detailLink
  else
    let activeCard :=
      or_node (docQuerySelector d (selected (Attr (AttrIs "role" "tab"))))
              (docQuerySelector d (selected (Class "iFjolb"))) in
    findApplyLink activeCard.

Record Snapshot : Type :=
  Snap {
    snap_title : string;
    snap_company : string;
    snap_location : string;
    snap_description : string;
    snap_content : string
  }.

Fixpoint pickText (root : option node) (selectors : list selector) : string :=
  match root, selectors with
  | Some r, sel :: rest =>
      if Js.truthy (text_of (querySelector r sel)) then text_of (querySelector r sel)
      else pickText root rest
  | _, _ => ""
  end.

Definition detailSnapshot (d : document) : Snapshot :=
  let detailPanel := docQuerySelector d detail_panel_sel in
  let activeCard :=
    or_node (docQuerySelector d (selected (Attr (AttrIs "role" "tab"))))
      (or_node (docQuerySelector d (selected (Class "iFjolb")))
         (or_node (docQuerySelector d (selected (Class "PwjeAc")))
                  (docQuerySelector d title_marker_sel))) in
  let pick sels := Js.or_else (pickText detailPanel sels) (pickText activeCard sels) in
  Snap
    (pick [title_marker_sel; [one [Tag "h1"]]; [one [Tag "h2"]]])
    (pick [company_marker_sel; [one [Class "nDc9Hc"]]; [one [Class "vNEEBe"]]])
    (pick [location_marker_sel; [one [Class "Qk80Jf"]]; [one [Class "s"]]])
    (pick [[one [Class "NgUYpe"]]; [one [Class "s"]]; [one [Class "Yg3bIe"]]])
    (Js.or_else (text_of detailPanel) (Js.or_else (text_of activeCard) "")).

Record Anchor : Type := Anc { anchor_text : string; anchor_href : string }.

Definition collectAnchors (root : option node) : list Anchor :=
  match root with
  | Some r =>
      omap (fun anchor =>
              let text :=
                Js.or_else (text_of (Some anchor))
                  (Js.or_else (default "" (getAttribute anchor "aria-label")) "") in
              let h := Js.or_else (href_of (Some anchor)) "" in
              if Js.truthy text || Js.truthy h then Some (Anc text h) else None)
           (querySelectorAll r special_sel)
  | None => []
  end.

Definition anchorDetails (d : document) : list Anchor :=
  let detailPanel := docQuerySelector d detail_panel_sel in
  let activeCard :=
    or_node (docQuerySelector d (selected (Attr (AttrIs "role" "tab"))))
      (or_node (docQuerySelector d (selected (Class "iFjolb")))
               (docQuerySelector d title_marker_sel)) in
  collectAnchors detailPanel ++ collectAnchors activeCard.

Record JobDetail : Type :=
  Detail {
    index : nat;
    url : string;
    applyUrl : string;
    detail_title : string;
    detail_company : string;
    detail_location : string;
    detail_description : string;
    content : string;
    anchors : list Anchor
  }.

(** *** Tabs, the Jobs view and pagination *)

Record TabDescriptor : Type :=
  Tab { name : string; tab_href : string; ariaLabel : string }.

(** [el.innerText?.trim() || el.textContent?.trim() || ''] *)
Definition text_or_content (n : node) : string :=
  Js.or_else (text_of (Some n)) (Js.or_else (Js.trim (textContent (self n))) "").

(** [el.href || el.getAttribute('href') || ''] *)
Definition href_or_attribute (n : node) : string :=
  Js.or_else (href_of (Some n)) (Js.or_else (default "" (getAttribute n "href")) "").

(** [el.getAttribute('aria-label') || ''] *)
Definition aria_label (n : node) : string :=
  Js.or_else (default "" (getAttribute n "aria-label")) "".

Definition tab_selectors : list selector :=
  [ [inside [Tag "a"] [Class "hdtb-mitem"]];
    [Complex [Tag "a"] [(Descendant, [Tag "div"; Attr (AttrIs "role" "tab")])]];
    [inside [Tag "a"] [Class "hdtbItm"]];
    [one [Tag "a"; Attr (AttrPresent "data-hveid")]];
    [one [Class "hdtb-mitem"]];
    [one [Attr (AttrIs "role" "tab")]] ].

Definition tabs_state : Type := list TabDescriptor * gset string.

Definition tab_step (acc : tabs_state) (element : node) : tabs_state :=
  let '(tabs, seenTexts) := acc in
  let text := text_or_content element in
  let lowerText := Js.toLowerCase text in
  if Js.truthy text && (0 <? Js.length text)%nat && (Js.length text <? 50)%nat
     && negb (bool_decide (lowerText ∈ seenTexts))
     && negb (Js.includes lowerText "settings")
     && negb (Js.includes lowerText "tools")
     && negb (Js.includes lowerText "search")
     && negb (Js.includes lowerText "google")
  then (tabs ++ [Tab text (href_or_attribute element) (Js.or_else (aria_label element) text)],
        {[ lowerText ]} ∪ seenTexts)
  else acc.

Definition commonTabNames : list string :=
  ["All"; "Images"; "Videos"; "News"; "Shopping"; "Books"; "Flights"; "Finance"; "Jobs"].

(** ['a, [role="tab"], [role="link"]'] *)
Definition all_links_sel : selector :=
  [ one [Tag "a"]; one [Attr (AttrIs "role" "tab")]; one [Attr (AttrIs "role" "link")] ].

Definition common_tab_step (tabName : string) (acc : tabs_state) (element : node)
    : tabs_state :=
  let '(tabs, seenTexts) := acc in
  let text := text_or_content element in
  let ariaLabel := aria_label element in
  if (String.eqb (Js.toLowerCase text) (Js.toLowerCase tabName) ||
      Js.includes (Js.toLowerCase ariaLabel) (Js.toLowerCase tabName))
     && negb (bool_decide (Js.toLowerCase text ∈ seenTexts))
     && (0 <? Js.length text)%nat
  then (tabs ++ [Tab (Js.or_else text tabName) (href_or_attribute element)
                     (Js.or_else ariaLabel (Js.or_else text tabName))],
        {[ Js.toLowerCase text ]} ∪ seenTexts)
  else acc.

Definition availableTabs (d : document) : list TabDescriptor :=
  let acc := fold_left tab_step (flat_map (docQuerySelectorAll d) tab_selectors) ([], ∅) in
  fst (fold_left
         (fun acc tabName =>
            fold_left (common_tab_step tabName) (docQuerySelectorAll d all_links_sel) acc)
         commonTabNames acc).

Definition is_jobs_tab (tab : TabDescriptor) : bool :=
  String.eqb (Js.toLowerCase (name tab)) "jobs" ||
  Js.includes (Js.toLowerCase (name tab)) "job".

Definition href_has (v : string) : selector :=
  [ one [Tag "a"; Attr (AttrHas "href" v)] ].

Definition jobs_click_selectors : list selector :=
  [ href_has "tbm=jobs"; href_has "udm=8";
    [inside [Tag "a"] [Class "hdtb-mitem"]];
    [Complex [Tag "a"] [(Descendant, [Tag "div"; Attr (AttrIs "role" "tab")])]] ].

Definition is_jobs_control (element : node) : bool :=
  let h := href_or_attribute element in
  let text := text_or_content element in
  (Js.includes h "tbm=jobs" || Js.includes h "udm=8" ||
   String.eqb (Js.toLowerCase text) "jobs")
  && (Js.length text <? 20)%nat.

(** The element clicked by the page function that activates the Jobs
    tab, or [None] when it returns [false].  With [Some jobsHref] this
    is the function of the navigation fallback, whose first selector
    is [a[href="jobsHref"]] (an href is taken to hold no quote or
    backslash). *)
Definition jobsTabToClick (jobsHref : option string) (d : document) : option node :=
  let selectors :=
    match jobsHref with
    | Some h => [one [Tag "a"; Attr (AttrIs "href" h)]] :: jobs_click_selectors
    | None => jobs_click_selectors
    end in
  find is_jobs_control (flat_map (docQuerySelectorAll d) selectors).

Definition more_jobs_selectors : list selector :=
  [ [one [Tag "a"]]; [one [Tag "button"]]; [one [Attr (AttrIs "role" "button")]];
    [inside [Tag "a"] [Class "PwjeAc"]];
    [inside [Tag "a"] [Attr (AttrPresent "data-ved")]] ].

Definition searchTexts : list string :=
  ["100+ more jobs"; "more jobs"; "See more jobs"; "View more jobs"].

Definition is_more_jobs_control (element : node) : bool :=
  let text := text_or_content element in
  let ariaLabel := aria_label element in
  existsb (fun searchText =>
             Js.includes (Js.toLowerCase text) (Js.toLowerCase searchText) ||
             Js.includes (Js.toLowerCase ariaLabel) (Js.toLowerCase searchText))
          searchTexts.

Definition moreJobsToClick (d : document) : option node :=
  find is_more_jobs_control (flat_map (docQuerySelectorAll d) more_jobs_selectors).

(** *** Text listings *)

Definition tNxQIbTexts (d : document) : list string :=
  filter (fun text => Js.truthy text)
         (map text_or_content (docQuerySelectorAll d title_marker_sel)).

Record JobText : Type :=
  Text {
    text_index : nat;
    text_title : string;
    text_company : string;
    text_location : string;
    text_description : string;
    text_detail : string;
    text_link : string;
    text_applyLink : string
  }.

Definition job_text_container (titleEl : node) : option node :=
  or_node (closest titleEl [one [Attr (AttrIs "role" "tab")]])
    (or_node (closest titleEl [one [Class "iFjolb"]])
       (or_node (closest titleEl [one [Class "PwjeAc"]])
          (or_node (closest titleEl [one [Class "gws-plugins-horizon-jobs__li-ed"]])
             (or_node (closest titleEl [one [Class "l9oVJb"]])
                      (parentElement titleEl))))).

(** The body of [titleNodes.forEach((titleEl, index) => ...)]. *)
Definition job_text_step (d : document) (items : list JobText)
    (entry : nat * node) : result (list JobText) :=
  let '(index, titleEl) := entry in
  match job_text_container titleEl with
  | None => Ok items
  | Some container =>
      let locationEl := querySelector container location_marker_sel in
      let companyEl := querySelector container company_marker_sel in
      let descriptionEl :=
        or_node
          (querySelector container
             [ one [Class "NgUYpe"]; one [Class "Yg3bIe"]; one [Class "s"];
               one [Class "tNxQIb"; NotClass "PUpOsf"];
               one [Tag "span"; Attr (AttrHas "style" "-webkit-line-clamp")];
               one [Class "VwiC3b"] ])
          (querySelector container [one [Attr (AttrIs "data-attrid" "description")]]) in
      let detailPanel :=
        or_node
          (docQuerySelector d
             [ one [Class "NgUYpe"]; inside [Tag "bREpEc"] [Class "whazf"];
               one [Class "KPJpj"]; one [Class "gws-plugins-horizon-jobs__detail-page"] ])
          (docQuerySelector d [one [Attr (AttrIs "data-ref-id" "jobs-detail-pane")]]) in
      detailText ← match detailPanel with
                   | Some p => innerText_trim p
                   | None => Ok ""
                   end;
      let linkFromDetail := findApplyLink detailPanel in
      let linkFromContainer := findApplyLink (Some container) in
      title ← innerText_trim titleEl;
      Ok (items ++
          [Text (index + 1) title (text_of companyEl) (text_of locationEl)
                (text_of descriptionEl) detailText
                (Js.or_else linkFromContainer linkFromDetail)
                (Js.or_else linkFromDetail (Js.or_else linkFromContainer ""))])
  end.

Definition allJobTexts (d : document) : result (list JobText) :=
  for_each (job_text_step d) []
    (imap (fun i n => (i, n)) (docQuerySelectorAll d title_marker_sel)).

(** *** What the listing loops maintain *)

(** The identity of a record: its title, company and location. *)
Definition identity (r : JobRecord) : string * string * string :=
  (title r, company r, location r).

(** The keys of the records collected so far are pairwise distinct and
    all in the set of seen keys. *)
Definition distinct_by (key : JobRecord -> string)
    (acc : list JobRecord * gset string) : Prop :=
  NoDup (map key (fst acc)) ∧ ∀ r, r ∈ fst acc → key r ∈ snd acc.

(** The titles of the records collected so far have more than [n]
    code units. *)
Definition titles_longer_than (n : nat) (acc : list JobRecord * gset string) : Prop :=
  ∀ r, r ∈ fst acc → n < Js.length (title r).

Definition titles_not_empty (acc : list JobRecord * gset string) : Prop :=
  ∀ r, r ∈ fst acc → title r ≠ "".

End Page.

(** ** The controlled browser *)

Module Browser.
Import Dom Page.

Definition page_id : Type := nat.

Inductive waitUntil : Type := domcontentloaded | networkidle2.

Inductive init_script : Type := hide_webdriver | add_chrome_runtime | add_plugins.

(** The functions the pipeline passes to [page.evaluate], by the type
    of the value they return. *)
Inductive page_function : Type -> Type :=
| FnDismissConsent : page_function unit
| FnFirstResultLink : page_function string
| FnAvailableTabs : page_function (list TabDescriptor)
| FnClickJobsTab (jobsHref : option string) : page_function bool
| FnClickMoreJobs : page_function bool
| FnMarkerTexts : page_function (list string)
| FnClassBasedResults : page_function (list JobRecord)
| FnFallbackResults : page_function (list JobRecord)
| FnCountMarkers : page_function nat
| FnClickJob (index : nat) : page_function bool
| FnJobLink : page_function string
| FnDetailSnapshot : page_function Snapshot
| FnAnchorDetails : page_function (list Anchor)
| FnAllJobTexts : page_function (list JobText).

(** What a page function does to the page besides returning. *)
Inductive action : Type :=
| ScrollIntoView (n : node)
| Click (n : node).

(** The asynchronous calls of the automation layer, by the type of
    their value.  [Evaluate p f] hands over the content tree of page
    [p] on which [f] is then run. *)
Inductive call : Type -> Type :=
| NewPage : call page_id
| SetViewport (p : page_id) (width height : N) : call unit
| SetUserAgent (p : page_id) (userAgent : string) : call unit
| EvaluateOnNewDocument (p : page_id) (s : init_script) : call unit
| Goto (p : page_id) (url : string) (w : waitUntil) (timeout : N) : call unit
| WaitForTimeout (p : page_id) (ms : N) : call unit
| WaitForSelector (p : page_id) (sel : string) (timeout : N) : call unit
| WaitForNavigation (p : page_id) (w : waitUntil) (timeout : N) : call unit
| Evaluate {A : Type} (p : page_id) (f : page_function A) : call document
| Close : call unit.

Inductive event : Type :=
| Called {T : Type} (c : call T) (r : result T)
| Acted (p : page_id) (a : action)
| Logged (line : string)
| LoggedError (line : string).

(** The browser and the pages it shows: every call is answered, with a
    value or an exception, from what has happened so far. *)
Record environment : Type :=
  Env {
    respond : list event -> forall T : Type, call T -> result T;
    current_url : list event -> page_id -> string
  }.

(** ['button[aria-label="Accept all"]', ..., '#L2AGLb', ...] *)
Definition consent_selectors : list selector :=
  [ [one [Tag "button"; Attr (AttrIs "aria-label" "Accept all")]];
    [one [Tag "button"; Attr (AttrIs "aria-label" "Accept everything")]];
    [one [Id "L2AGLb"]];
    [one [Tag "button"; Attr (AttrIs "jsname" "higCR")]];
    [one [Tag "button"; Attr (AttrIs "aria-label" "I agree")]] ].

Definition consentButton (d : document) : option node :=
  first_some (docQuerySelector d) consent_selectors.

(** A page function that returns [a] and does nothing to the page. *)
Definition returning {A : Type} (a : A) : list action * result A := ([], Ok a).

(** [target.click()], which is there on HTML elements only. *)
Definition click (receiver : string) (target : node) : list action * result unit :=
  if is_html target then ([Click target], Ok tt)
  else ([], Throw (receiver ++ ".click is not a function")).

(** A page function that clicks an element and returns [true], or
    finds none and returns [false]. *)
Definition clicking (target : option node) : list action * result bool :=
  match target with
  | Some n => let '(actions, r) := click "element" n in (actions, r ≫= fun _ => Ok true)
  | None => ([], Ok false)
  end.

(** What a page function does to the page, and what it returns or
    throws. *)
Definition run_function {A : Type} (f : page_function A) (d : document)
    : list action * result A :=
  match f in page_function A return list action * result A with
  | FnDismissConsent =>
      match consentButton d with
      | Some btn => click "btn" btn
      | None => ([], Ok tt)
      end
  | FnFirstResultLink => returning (firstResultLink d)
  | FnAvailableTabs => returning (availableTabs d)
  | FnClickJobsTab jobsHref => clicking (jobsTabToClick jobsHref d)
  | FnClickMoreJobs => clicking (moreJobsToClick d)
  | FnMarkerTexts => returning (tNxQIbTexts d)
  | FnClassBasedResults => returning (classBasedResults d)
  | FnFallbackResults => ([], fallbackResults d)
  | FnCountMarkers => returning (length (docQuerySelectorAll d title_marker_sel))
  | FnClickJob index =>
      match jobTabToClick index d with
      | Some clickable =>
          let '(actions, r) := click "clickable" clickable in
          (ScrollIntoView clickable :: actions, r ≫= fun _ => Ok true)
      | None => ([], Ok false)
      end
  | FnJobLink => returning (jobLink d)
  | FnDetailSnapshot => returning (detailSnapshot d)
  | FnAnchorDetails => returning (anchorDetails d)
  | FnAllJobTexts => ([], allJobTexts d)
  end.

(** *** The state of a run *)

(** The history of the run and the variables of [openChromeAndSearch]
    that are assigned inside [try] blocks or closures. *)
Record state : Type :=
  State {
    history : list event;
    searchPage : option page_id;
    jobsTabNavigated : bool;
    openedJobLinks : list (nat * string);
    openedJobDetails : list JobDetail
  }.

Definition M (A : Type) : Type := state -> result A * state.

#[global] Instance M_ret : MRet M := fun _ a st => (Ok a, st).
#[global] Instance M_bind : MBind M := fun _ _ f m st =>
  match m st with
  | (Ok a, st') => f a st'
  | (Throw e, st') => (Throw e, st')
  end.

(** The state after the events [evs]. *)
Definition extend (evs : list event) (st : state) : state :=
  State (history st ++ evs) (searchPage st) (jobsTabNavigated st)
        (openedJobLinks st) (openedJobDetails st).

Definition record (ev : event) : M unit := fun st => (Ok tt, extend [ev] st).

Definition log (line : string) : M unit := record (Logged line).

(** [try { m } catch (err) { handler(err.message) }] *)
Definition try_catch {A : Type} (m : M A) (handler : string -> M A) : M A := fun st =>
  match m st with
  | (Ok a, st') => (Ok a, st')
  | (Throw e, st') => handler e st'
  end.

Fixpoint for_each_M {A : Type} (body : A -> M unit) (l : list A) : M unit :=
  match l with
  | x :: rest => body x ;; for_each_M body rest
  | [] => mret tt
  end.

Definition when (b : bool) (m : M unit) : M unit := if b then m else mret tt.

End Browser.

(** ** The pipeline of [openChromeAndSearch] *)

(** The run from the point where the search results have loaded: tab
    listing, the Jobs view, pagination, the two listing strategies, the
    summary with its enrichment lookups and, in full-detail mode, the
    detail drill-down and the text listing. *)
Module Pipeline.
Import Dom Page Browser.

(** [process.env.SUMMARY_ONLY_OUTPUT !== 'false'] *)
Definition SUMMARY_ONLY_OUTPUT (variable : option string) : bool :=
  negb (bool_decide (variable = Some "false")).

Definition nl : string := String Js.LF EmptyString.
Definition dquote : string := String (ascii_of_nat 34) EmptyString.
Definition rule : string := "========================================".
Definition num (n : nat) : string := pretty n.

(** [value || 'N/A'] *)
Definition or_na (value : string) : string := Js.or_else value "N/A".

Fixpoint repeat_string (s : string) (n : nat) : string :=
  match n with
  | S n' => s ++ repeat_string s n'
  | O => EmptyString
  end.

Definition userAgent : string :=
  "Mozilla/5.0 (Windows NT 10.0; Win64; x64) AppleWebKit/537.36 (KHTML, like Gecko) Chrome/120.0.0.0 Safari/537.36".

Definition throw {A : Type} (message : string) : M A := fun st => (Throw message, st).

Definition set_searchPage (p : page_id) : M unit := fun st =>
  (Ok tt, State (history st) (Some p) (jobsTabNavigated st)
                (openedJobLinks st) (openedJobDetails st)).

Definition set_jobsTabNavigated (b : bool) : M unit := fun st =>
  (Ok tt, State (history st) (searchPage st) b (openedJobLinks st) (openedJobDetails st)).

Definition push_openedJobLink (entry : nat * string) : M unit := fun st =>
  (Ok tt, State (history st) (searchPage st) (jobsTabNavigated st)
                (openedJobLinks st ++ [entry]) (openedJobDetails st)).

Definition push_openedJobDetail (entry : JobDetail) : M unit := fun st =>
  (Ok tt, State (history st) (searchPage st) (jobsTabNavigated st)
                (openedJobLinks st) (openedJobDetails st ++ [entry])).

Definition get {A : Type} (field : state -> A) : M A := fun st => (Ok (field st), st).

Section WithEnvironment.
Variable env : environment.
Variable page : page_id.

Definition perform {T : Type} (c : call T) : M T := fun st =>
  let r := respond env (history st) T c in
  (r, extend [Called c r] st).

(** [page.url()] *)
Definition url_of (p : page_id) : M string := fun st =>
  (Ok (current_url env (history st) p), st).

(** [await p.evaluate(f)] *)
Definition evaluate {A : Type} (p : page_id) (f : page_function A) : M A :=
  d ← perform (Evaluate p f);
  let '(actions, r) := run_function f d in
  for_each_M (fun act => record (Acted p act)) actions ;;
  match r with
  | Ok a => mret a
  | Throw message => throw message
  end.

Definition configurePage (targetPage : page_id) : M unit :=
  perform (SetViewport targetPage 1920 1080)%N ;;
  perform (SetUserAgent targetPage userAgent) ;;
  perform (EvaluateOnNewDocument targetPage hide_webdriver) ;;
  perform (EvaluateOnNewDocument targetPage add_chrome_runtime) ;;
  perform (EvaluateOnNewDocument targetPage add_plugins).

Definition getSearchPage : M page_id :=
  current ← get searchPage;
  match current with
  | Some p => mret p
  | None =>
      p ← perform NewPage;
      set_searchPage p ;;
      configurePage p ;;
      mret p
  end.

Definition dismissConsentIfPresent (targetPage : page_id) : M unit :=
  try_catch (evaluate targetPage FnDismissConsent) (fun _ => mret tt).

Definition search_url (trimmedQuery : string) : string :=
  "https://www.google.com/search?q=" ++ Url.encodeURIComponent trimmedQuery ++ "&hl=en".

Definition getFirstGoogleResultLink (query : string) : M string :=
  let trimmedQuery := Js.trim query in
  if negb (Js.truthy trimmedQuery) then mret ""
  else
    try_catch
      (searchTab ← getSearchPage;
       perform (Goto searchTab (search_url trimmedQuery) domcontentloaded 30000%N) ;;
       dismissConsentIfPresent searchTab ;;
       perform (WaitForTimeout searchTab 1500%N) ;;
       firstLink ← evaluate searchTab FnFirstResultLink;
       mret (Js.or_else firstLink ""))
      (fun message =>
         log ("Failed to fetch search result for " ++ dquote ++ trimmedQuery ++ dquote
              ++ ": " ++ message) ;;
         mret "").

(** *** Tab listing *)

Definition print_tab (entry : nat * TabDescriptor) : M unit :=
  let '(index, tab) := entry in
  log (num (index + 1) ++ ". " ++ name tab) ;;
  when (Js.truthy (tab_href tab)) (log ("   Link: " ++ tab_href tab)).

Definition listTabs : M (list TabDescriptor) :=
  log (nl ++ rule) ;;
  log "AVAILABLE GOOGLE SEARCH TABS" ;;
  log rule ;;
  tabs ← evaluate page FnAvailableTabs;
  (if (0 <? length tabs)%nat
   then log ("Found " ++ num (length tabs) ++ " tabs:" ++ nl) ;;
        for_each_M print_tab (imap (fun i t => (i, t)) tabs)
   else log "No tabs found. The page structure might be different.") ;;
  log (rule ++ nl) ;;
  mret tabs.

(** *** Navigation to the Jobs view *)

Definition after_jobs_click : M unit :=
  log "Jobs tab clicked successfully" ;;
  perform (WaitForTimeout page 3000%N) ;;
  try_catch (perform (WaitForSelector page "#search, [data-ved]" 10000%N))
            (fun _ => mret tt) ;;
  set_jobsTabNavigated true.

Definition navigateToJobs (tabs : list TabDescriptor) : M unit :=
  log "Navigating to Jobs tab..." ;;
  set_jobsTabNavigated false ;;
  (match find is_jobs_tab tabs with
   | Some jobsTab =>
       if Js.truthy (tab_href jobsTab) then
         try_catch
           (log ("Navigating to Jobs page: " ++ tab_href jobsTab) ;;
            perform (Goto page (tab_href jobsTab) networkidle2 30000%N) ;;
            log "Successfully navigated to Jobs page" ;;
            set_jobsTabNavigated true ;;
            perform (WaitForTimeout page 2000%N))
           (fun message =>
              log ("Error navigating to Jobs link: " ++ message) ;;
              log "Trying to click Jobs tab instead..." ;;
              try_catch
                (clicked ← evaluate page (FnClickJobsTab (Some (tab_href jobsTab)));
                 when clicked (after_jobs_click))
                (fun message => log ("Error clicking Jobs tab: " ++ message)))
       else
         log "Jobs tab link not found in available tabs, trying to find and click..." ;;
         try_catch
           (evaluate page (FnClickJobsTab None) ≫= fun clicked : bool =>
            if clicked then after_jobs_click
            else log "Could not find or click Jobs tab")
           (fun message => log ("Error finding Jobs tab: " ++ message))
   | None =>
       log "Jobs tab link not found in available tabs, trying to find and click..." ;;
       try_catch
         (evaluate page (FnClickJobsTab None) ≫= fun clicked : bool =>
          if clicked then after_jobs_click
          else log "Could not find or click Jobs tab")
         (fun message => log ("Error finding Jobs tab: " ++ message))
   end) ;;
  navigated ← get jobsTabNavigated;
  when (negb navigated) (log "Continuing with regular search results...").

(** *** Pagination *)

Definition clickMoreJobs : M unit :=
  log ("Looking for " ++ dquote ++ "100+ more jobs" ++ dquote ++ " button...") ;;
  try_catch
    (perform (WaitForTimeout page 2000%N) ;;
     evaluate page FnClickMoreJobs ≫= fun moreJobsClicked : bool =>
     if moreJobsClicked then
       log ("Clicked " ++ dquote ++ "more jobs" ++ dquote ++ " button successfully") ;;
       perform (WaitForTimeout page 3000%N) ;;
       try_catch (perform (WaitForNavigation page networkidle2 10000%N))
                 (fun _ => log "Navigation completed or timed out")
     else
       log (dquote ++ "100+ more jobs" ++ dquote
            ++ " button not found, continuing with current results..."))
    (fun message =>
       log ("Error clicking " ++ dquote ++ "more jobs" ++ dquote ++ " button: " ++ message) ;;
       log "Continuing with current results...").

(** *** Title-marker texts *)

Definition marker_class : string := dquote ++ "tNxQIb PUpOsf" ++ dquote.

Definition printMarkerTexts : M unit :=
  log (nl ++ rule) ;;
  log ("TEXTS WITH CLASS " ++ marker_class) ;;
  log rule ;;
  texts ← evaluate page FnMarkerTexts;
  (if (0 <? length texts)%nat
   then log ("Found " ++ num (length texts) ++ " elements with class "
             ++ marker_class ++ ":" ++ nl) ;;
        for_each_M (fun entry : nat * string =>
                      log (num (fst entry + 1) ++ ". " ++ snd entry))
                   (imap (fun i t => (i, t)) texts)
   else log ("No elements found with class " ++ marker_class)) ;;
  log (rule ++ nl).

(** *** The listing strategy chain *)

Definition extractJobs : M (list JobRecord) :=
  log "Extracting job list using provided classes..." ;;
  evaluate page FnClassBasedResults ≫= fun classBased : list JobRecord =>
  if (length classBased =? 0)%nat then
    log "No jobs found via provided classes, using fallback extraction..." ;;
    evaluate page FnFallbackResults
  else mret classBased.

(** *** Summary and enrichment *)

(** [results.slice(-5)] *)
Definition jobsToShow (results : list JobRecord) : list JobRecord :=
  drop (length results - 5) results.

(** [[result.title, result.company].filter(Boolean).join(' ')] *)
Definition searchQueryParts (r : JobRecord) : list string :=
  filter (fun part => Js.truthy part) [title r; company r].

Definition summarise (r : JobRecord) : M unit :=
  log ("Title: " ++ or_na (title r)) ;;
  log ("Company: " ++ or_na (company r)) ;;
  log ("Location: " ++ or_na (location r)) ;;
  (if (0 <? length (searchQueryParts r))%nat then
     searchLink ← getFirstGoogleResultLink (String.concat " " (searchQueryParts r));
     log ("Search Result: " ++ or_na searchLink)
   else log "Search Result: N/A") ;;
  log "---------".

Definition printSummary (results : list JobRecord) : M unit :=
  if (length results =? 0)%nat then
    log "No jobs found. The page structure might be different." ;;
    current ← url_of page;
    log ("Current page URL: " ++ current)
  else for_each_M summarise (jobsToShow results).

(** *** Detail drill-down *)

Definition print_anchor (idx : nat) (entry : nat * Anchor) : M unit :=
  let '(subIdx, anchor) := entry in
  log ("    [" ++ num (idx + 1) ++ "." ++ num (subIdx + 1) ++ "] Text: "
       ++ or_na (anchor_text anchor)) ;;
  log ("            URL : " ++ or_na (anchor_href anchor)).

(** One iteration of the loop over [idx]. *)
Definition openJob (jobCount idx : nat) : M unit :=
  evaluate page (FnClickJob idx) ≫= fun clicked : bool =>
  if clicked then
    log ("Opened job tab " ++ num (idx + 1) ++ " of " ++ num jobCount) ;;
    perform (WaitForTimeout page 2000%N) ;;
    link ← evaluate page FnJobLink;
    fallbackUrl ← url_of page;
    push_openedJobLink (idx + 1, Js.or_else link fallbackUrl) ;;
    snapshot ← evaluate page FnDetailSnapshot;
    anchorDetails ← evaluate page FnAnchorDetails;
    (if (0 <? length anchorDetails)%nat
     then log "  Anchors found in description pane/job card:" ;;
          for_each_M (print_anchor idx) (imap (fun i a => (i, a)) anchorDetails)
     else log "  No anchors detected for this job in the detail pane.") ;;
    push_openedJobDetail
      (Detail (idx + 1) (Js.or_else link fallbackUrl) (Js.or_else link fallbackUrl)
              (Js.or_else (snap_title snapshot) "")
              (Js.or_else (snap_company snapshot) "")
              (Js.or_else (snap_location snapshot) "")
              (Js.or_else (snap_description snapshot) "")
              (Js.or_else (snap_content snapshot) "")
              anchorDetails)
  else log ("Unable to click job tab " ++ num (idx + 1)).

Definition drillDown : M unit :=
  log (nl ++ "Clicking through each job entry to load details...") ;;
  try_catch
    (evaluate page FnCountMarkers ≫= fun jobCount : nat =>
     if (jobCount =? 0)%nat then log "No job tabs found to click."
     else for_each_M (openJob jobCount) (seq 0 jobCount))
    (fun message => log ("Error while clicking job tabs: " ++ message)).

Definition printOpenedJobLinks : M unit :=
  links ← get openedJobLinks;
  when (0 <? length links)%nat
    (log (nl ++ rule) ;;
     log "URLS FROM OPENED JOB TABS" ;;
     log rule ;;
     for_each_M (fun entry : nat * string =>
                   log ("Job Tab #" ++ num (fst entry) ++ ": "
                        ++ Js.or_else (snd entry) "URL not available"))
                links ;;
     log (rule ++ nl)).

Definition print_detail_anchor (jobIndex : nat) (entry : nat * Anchor) : M unit :=
  let '(anchorIdx, anchor) := entry in
  log ("  [" ++ num jobIndex ++ "." ++ num (anchorIdx + 1) ++ "] Text: "
       ++ or_na (anchor_text anchor)) ;;
  log ("               URL : " ++ or_na (anchor_href anchor)).

Definition print_detail (jobDetail : JobDetail) : M unit :=
  log (nl ++ "Job Tab #" ++ num (index jobDetail)) ;;
  log ("Title      : " ++ or_na (detail_title jobDetail)) ;;
  log ("Company    : " ++ or_na (detail_company jobDetail)) ;;
  log ("Location   : " ++ or_na (detail_location jobDetail)) ;;
  log ("Description: " ++ or_na (detail_description jobDetail)) ;;
  log ("URL        : " ++ or_na (url jobDetail)) ;;
  log ("Apply URL  : " ++ Js.or_else (applyUrl jobDetail) (or_na (url jobDetail))) ;;
  when (Js.truthy (content jobDetail))
    (log (nl ++ "Content:") ;; log (content jobDetail)) ;;
  when (0 <? length (anchors jobDetail))%nat
    (log (nl ++ "Anchors:") ;;
     for_each_M (print_detail_anchor (index jobDetail))
                (imap (fun i a => (i, a)) (anchors jobDetail))) ;;
  log "----------------------------------------".

Definition printOpenedJobDetails : M unit :=
  details ← get openedJobDetails;
  when (0 <? length details)%nat
    (log rule ;;
     log "STORED JOB CONTENT" ;;
     log rule ;;
     for_each_M print_detail details ;;
     log (rule ++ nl)).

(** *** Text listing *)

Definition print_job_text (job : JobText) : M unit :=
  log (repeat_string "=" 80) ;;
  log ("JOB TEXT #" ++ num (text_index job)) ;;
  log (repeat_string "=" 80) ;;
  log ("Title      : " ++ or_na (text_title job)) ;;
  log ("Company    : " ++ or_na (text_company job)) ;;
  log ("Location   : " ++ or_na (text_location job)) ;;
  log ("Description: " ++ or_na (text_description job)) ;;
  when (Js.truthy (text_detail job)) (log ("Detail Pane: " ++ text_detail job)) ;;
  log ("URL        : " ++ or_na (text_link job)) ;;
  log ("Apply URL : " ++ Js.or_else (text_applyLink job) (or_na (text_link job))) ;;
  log "".

Definition collectJobTexts : M unit :=
  log (nl ++ "Collecting full text for every listed job..." ++ nl) ;;
  try_catch
    (evaluate page FnAllJobTexts ≫= fun items : list JobText =>
     if (length items =? 0)%nat
     then log "No job text blocks detected. The layout may have changed."
     else for_each_M print_job_text items)
    (fun message => log ("Failed to gather job text blocks: " ++ message)).

(** *** The whole run *)

(** From the loaded search results to the page the listings are
    read from. *)
Definition prepareListing : M unit :=
  tabs ← listTabs;
  navigateToJobs tabs ;;
  clickMoreJobs ;;
  printMarkerTexts.

Definition closeBrowser : M unit :=
  perform Close ;;
  log "Browser closed.".

Definition fullDetail : M unit :=
  drillDown ;;
  printOpenedJobLinks ;;
  printOpenedJobDetails ;;
  collectJobTexts ;;
  log "Browser will stay open for 60 seconds. You can view the full jobs page." ;;
  current ← url_of page;
  log ("Current page URL: " ++ current) ;;
  perform (WaitForTimeout page 60000%N) ;;
  closeBrowser.

(** What both run modes do: the listing and its summary. *)
Definition summaryStage : M unit :=
  prepareListing ;;
  results ← extractJobs;
  printSummary results.

(** [openChromeAndSearch] from the point where the search results have
    loaded ([await page.waitForSelector('#search', ...)] and the wait
    that follows it).  The launch of the browser, the navigation to
    Google and the typing of the search come before and are not part of
    the model: [page] is the page they leave, and a failure there ends
    the run before any of the stages below.  [summaryOnly] is the value
    of [SUMMARY_ONLY_OUTPUT]. *)
Definition openChromeAndSearch (summaryOnly : bool) : M unit :=
  summaryStage ;;
  if summaryOnly then closeBrowser else fullDetail.

(** [openChromeAndSearch().catch(console.error)] *)
Definition main (summaryOnly : bool) : M unit :=
  try_catch (openChromeAndSearch summaryOnly)
            (fun message => record (LoggedError message)).

End WithEnvironment.

Definition initial : state := State [] None false [] [].

End Pipeline.

(** ** Observations on a run *)

Module Trace.
Import Dom Page Browser.

(** The lines written to the console. *)
Definition logged (evs : list event) : list string :=
  omap (fun ev => match ev with Logged line => Some line | _ => None end) evs.

(** The navigations requested: page and URL. *)
Definition gotos (evs : list event) : list (page_id * string) :=
  omap (fun ev =>
          match ev with
          | Called c _ =>
              match c with
              | Goto p target _ _ => Some (p, target)
              | _ => None
              end
          | _ => None
          end) evs.

Definition opened_page {T : Type} (c : call T) : result T -> option page_id :=
  match c in call T return result T -> option page_id with
  | NewPage => fun r => match r with Ok p => Some p | Throw _ => None end
  | _ => fun _ => None
  end.

(** The pages [browser.newPage()] has handed out. *)
Definition opened (evs : list event) : list page_id :=
  omap (fun ev => match ev with Called c r => opened_page c r | _ => None end) evs.

(** The page functions of the stages that follow the summary. *)
Definition is_detail_function {A : Type} (f : page_function A) : bool :=
  match f with
  | FnCountMarkers | FnClickJob _ | FnJobLink | FnDetailSnapshot | FnAnchorDetails
  | FnAllJobTexts => true
  | _ => false
  end.

(** An evaluation of the detail drill-down or of the text listing. *)
Definition is_detail_event (ev : event) : bool :=
  match ev with
  | Called c _ =>
      match c with
      | Evaluate _ f => is_detail_function f
      | _ => false
      end
  | _ => false
  end.

Definition not_detail (ev : event) : Prop := is_detail_event ev = false.

(** A call of [browser.close()]. *)
Definition is_close_event (ev : event) : bool :=
  match ev with
  | Called c _ =>
      match c with
      | Close => true
      | _ => false
      end
  | _ => false
  end.

(** An evaluation of the fallback strategy. *)
Definition is_fallback_event (ev : event) : bool :=
  match ev with
  | Called c _ =>
      match c with
      | Evaluate _ f => match f with FnFallbackResults => true | _ => false end
      | _ => false
      end
  | _ => false
  end.

(** The lines of the summary for one record and its enrichment link. *)
Definition summary_block (r : JobRecord) (searchLink : string) : list string :=
  [ ("Title: " ++ Pipeline.or_na (title r))%string;
    ("Company: " ++ Pipeline.or_na (company r))%string;
    ("Location: " ++ Pipeline.or_na (location r))%string;
    ("Search Result: " ++ Pipeline.or_na searchLink)%string;
    "---------" ].

(** The line an enrichment lookup logs when it fails. *)
Definition is_lookup_failure (line : string) : bool :=
  Js.startsWith line "Failed to fetch search result for ".

(** The history at which the primary strategy is evaluated, and the
    one at which the fallback strategy is, when the primary strategy
    found nothing on [d]. *)
Definition asked_primary (st : state) : list event :=
  history st ++ [Logged "Extracting job list using provided classes..."].

Definition asked_fallback (page : page_id) (st : state) (d : Dom.document) : list event :=
  (asked_primary st ++ [Called (Evaluate page FnClassBasedResults) (Ok d)]) ++
  [Logged "No jobs found via provided classes, using fallback extraction..."].

(** The line that opens the summary of a record. *)
Definition is_title_line (line : string) : bool := Js.startsWith line "Title: ".

(** The enrichment query of a record as the specification words it: the
    title, a space and the company, trimmed; and its search URL. *)
Definition lookup_query (r : JobRecord) : string :=
  Js.trim (title r ++ " " ++ company r).

Definition lookup_url (r : JobRecord) : string := Pipeline.search_url (lookup_query r).

Definition has_query (r : JobRecord) : bool := Js.truthy (lookup_query r).

(** The title or the company of the record is not empty. *)
Definition wants_lookup (r : JobRecord) : bool :=
  Js.truthy (title r) || Js.truthy (company r).

(** The title and the company of the record are trimmed texts, as the
    listing strategies read them. *)
Definition well_trimmed (r : JobRecord) : Prop :=
  Js.trim (title r) = title r ∧ Js.trim (company r) = company r.

(** No call of the browser fails. *)
Definition never_fails (env : environment) : Prop :=
  ∀ (h : list event) (T : Type) (c : call T), ∃ v, respond env h T c = Ok v.

(** [m] returns from every state. *)
Definition total {A : Type} (m : M A) : Prop :=
  ∀ st, ∃ a st', m st = (Ok a, st').

(** [m] takes every state to one related to it by [Q], whether it
    returns or throws. *)
Definition sat {A : Type} (Q : state -> state -> Prop) (m : M A) : Prop :=
  ∀ st, Q st (snd (m st)).

(** The history only grows, by events that satisfy [P]. *)
Definition grows_by (P : event -> Prop) (st st' : state) : Prop :=
  ∃ evs, history st' = history st ++ evs ∧ Forall P evs.

(** The collected job details stay as they are. *)
Definition keeps_details (st st' : state) : Prop :=
  openedJobDetails st' = openedJobDetails st.

(** The secondary page, once opened, stays the same. *)
Definition keeps_search_page (st st' : state) : Prop :=
  ∀ p, searchPage st = Some p → searchPage st' = Some p.

(** Neither a navigation, nor the opening of a page, nor a line of the
    console. *)
Definition quiet (ev : event) : Prop :=
  gotos [ev] = [] ∧ opened [ev] = [] ∧ logged [ev] = [].

(** The history grows by quiet events and the secondary page stays. *)
Definition quietly (st st' : state) : Prop :=
  searchPage st' = searchPage st ∧ grows_by quiet st st'.

(** Over the events [evs] that lead from [st] to [st'], every navigation
    goes to the secondary page of [st'], a secondary page that was there
    stays, and at most one is opened, only when there was none. *)
Definition one_search_page (st st' : state) (evs : list event) : Prop :=
  history st' = history st ++ evs ∧
  keeps_search_page st st' ∧
  Forall (fun g => searchPage st' = Some (fst g)) (gotos evs) ∧
  (is_Some (searchPage st) → opened evs = []) ∧
  (searchPage st = None →
     (opened evs = [] ∧ searchPage st' = None) ∨
     (∃ p, opened evs = [p] ∧ searchPage st' = Some p)).

(** The first steps of the detail drill-down from [st]: its opening
    line and the count of the title markers, with the browser's answer. *)
Definition drill_down_start (env : environment) (page : page_id) (st : state)
    : list event :=
  [ Logged (Pipeline.nl ++ "Clicking through each job entry to load details...");
    Called (Evaluate page FnCountMarkers)
      (respond env
         (history st ++
          [Logged (Pipeline.nl ++ "Clicking through each job entry to load details...")])
         _ (Evaluate page FnCountMarkers)) ].

(** The end of a summary-only run from [st]: the browser is closed, and
    the closing is logged when it succeeded. *)
Definition closing (env : environment) (st : state) : list event :=
  Called Close (respond env (history st) _ Close) ::
  match respond env (history st) _ Close with
  | Ok _ => [Logged "Browser closed."]
  | Throw _ => []
  end.

Definition any_event (ev : event) : Prop := True.

(** The indices of the collected job details. *)
Definition detail_indices (st : state) : list nat := map index (openedJobDetails st).

(** An iteration of the drill-down leaves the details as they are or
    appends one, whose index is the iteration's number plus one. *)
Definition adds_at (idx : nat) (st st' : state) : Prop :=
  detail_indices st' = detail_indices st ∨
  detail_indices st' = detail_indices st ++ [idx + 1].

(** The number of title markers the drill-down counts from [st]; zero
    when the count fails. *)
Definition marker_count (env : environment) (page : page_id) (st : state) : nat :=
  match respond env
          (history st ++
           [Logged (Pipeline.nl ++ "Clicking through each job entry to load details...")])
          _ (Evaluate page FnCountMarkers) with
  | Ok d => length (Dom.docQuerySelectorAll d title_marker_sel)
  | Throw _ => 0
  end.

(** A contiguous sequence that starts at one. *)
Definition contiguous_from_one (l : list nat) : Prop := l = seq 1 (length l).

(** What follows the navigation of a lookup, and the line its [catch]
    logs. *)
Definition after_goto (env : environment) (searchTab : page_id) : M string :=
  Pipeline.dismissConsentIfPresent env searchTab ;;
  Pipeline.perform env (WaitForTimeout searchTab 1500%N) ;;
  firstLink ← Pipeline.evaluate env searchTab FnFirstResultLink;
  mret (Js.or_else firstLink "").

Definition failure_line (trimmedQuery message : string) : string :=
  "Failed to fetch search result for " ++ Pipeline.dquote ++ trimmedQuery
  ++ Pipeline.dquote ++ ": " ++ message.

(** The lines of the summary, lookup failures apart. *)
Definition summary_lines (evs : list event) : list string :=
  filter (fun line => negb (is_lookup_failure line)) (logged evs).

End Trace.

(** ** The preferred-anchor heuristic as the specification words it *)

Module Spec.
Import Dom Page.

Definition vocabulary : list string := ["apply"; "view job"; "learn more"].

(** The visible text or the accessible label contains a word of the
    vocabulary, case-insensitively. *)
Definition spec_preferred (anchor : node) : bool :=
  existsb (fun word =>
             Js.includes (Js.toLowerCase (text_of (Some anchor))) word ||
             Js.includes (Js.toLowerCase (default "" (getAttribute anchor "aria-label"))) word)
          vocabulary.

(** The first preferred anchor under the container, else the first
    anchor. *)
Definition spec_link (container : node) : string :=
  let anchors := querySelectorAll container anchor_sel in
  match find spec_preferred anchors with
  | Some anchor => href_of (Some anchor)
  | None => href_of (head anchors)
  end.


End Spec.

(** ** Sample content trees and browsers *)

Module Samples.
Import Dom Page Browser Pipeline.

Definition lines (l : list string) : string := String.concat nl l.

Definition leaf (tag : string) (classes : list string) (text : string) : element :=
  Element tag classes [] "" (Some text) text [].

(** An anchor whose [href] attribute is the absolute URL [target]. *)
Definition anchor (classes : list string) (target text : string) : element :=
  Element "a" classes [("href", target)] target (Some text) text [].

Definition box (classes : list string) (attrs : list (string * string))
    (children : list element) : element :=
  let text := lines (omap innerText children) in
  Element "div" classes attrs "" (Some text) text children.

Definition marker (text : string) : element := leaf "div" ["tNxQIb"; "PUpOsf"] text.

(** One posting in the shape only the fallback strategy reads. *)
Definition titled_posting (title target : string) : element :=
  box ["g"] []
    [ leaf "h3" [] title;
      leaf "div" ["vNEEBe"] "Acme";
      leaf "div" ["Qk80Jf"] "Colombo";
      anchor [] target "View" ].

Definition posting (target : string) : element := titled_posting "Software Engineer" target.

(** The same posting carried by two job boards. *)
Definition two_postings : document :=
  box [] [] [ posting "https://jobs.example/a/1"; posting "https://jobs.example/b/7" ].

(** A card of the primary strategy whose title has two characters. *)
Definition short_title : document :=
  box [] []
    [ box ["g"] [] [ marker "QA"; anchor [] "https://jobs.example/qa" "Details" ] ].

Definition home_apply_card : element :=
  box ["g"] []
    [ marker "Engineer";
      anchor [] "https://a.example/" "Home";
      anchor [] "https://b.example/apply" "Apply Now" ].

Definition home_apply : document := box [] [] [home_apply_card].

(** The card as a node of [home_apply], and its title marker. *)
Definition home_apply_node : node := Node home_apply_card [home_apply].
Definition home_apply_marker : node := Node (marker "Engineer") [home_apply_card; home_apply].

(** An apply anchor followed by an anchor of the special class. *)
Definition apply_then_button : node :=
  Node (box ["g"] []
          [ anchor [] "https://b.example/apply" "Apply Now";
            anchor [apply_button] "https://c.example/" "Company site" ])
       [].

(** An anchor preferred by its label only. *)
Definition labelled_learn_more : node :=
  Node (box ["g"] []
          [ anchor [] "https://a.example/" "Home";
            Element "a" [] [("href", "https://b.example/more"); ("aria-label", "Learn more")]
                    "https://b.example/more" (Some "Details") "Details" [] ])
       [].

(** A search page whose first result is [target]. *)
Definition result_page (target : string) : document :=
  Element "div" [] [("id", "search")] "" (Some "Job 1") "Job 1"
    [ box ["g"] [] [ anchor [] target "Job 1" ] ].


(** U+00A0, and a string of white space of one, two and three bytes. *)
Definition nbsp : string := String (ascii_of_nat 194) (String (ascii_of_nat 160) EmptyString).

Definition em_space : string :=
  String (ascii_of_nat 226) (String (ascii_of_nat 128) (String (ascii_of_nat 131) EmptyString)).

Definition blank : string := " " ++ nbsp ++ em_space ++ nl.

(** A string of three characters that look blank and are no white
    space: U+200B, U+0085 and U+180E. *)
Definition not_blank : string := Unicode.encode [8203; 133; 6158]%N.

(** A card of the primary strategy whose title marker holds white space
    only, and a posting whose title has three characters of three bytes
    each. *)
Definition blank_title : document :=
  box [] []
    [ box ["g"] [] [ marker blank; anchor [] "https://jobs.example/blank" "Details" ] ].

Definition three_character_title : document :=
  box [] [] [ titled_posting "會計師" "https://jobs.example/c/3" ].

(** A posting whose company has forty characters of three bytes each. *)
Definition wide_company : string := repeat_string "會" 40.

Definition wide_company_posting : document :=
  box [] []
    [ box ["g"] []
        [ leaf "h3" [] "Accountant";
          leaf "div" ["vNEEBe"] wide_company;
          anchor [] "https://jobs.example/c/4" "View" ] ].

(** A browser in which every call succeeds and every page shows [d];
    the secondary page is page 1. *)
Definition showing (d : document) : environment :=
  Env (fun _ T c =>
         match c in call T return result T with
         | NewPage => Ok 1
         | Evaluate _ _ => Ok d
         | _ => Ok tt
         end)
      (fun _ _ => "https://www.google.com/search?q=jobs").

Definition context_destroyed : string :=
  "Execution context was destroyed, most likely because of a navigation.".

(** The same browser, except that the evaluation of the primary strategy
    fails. *)
Definition failing_listing (d : document) : environment :=
  Env (fun _ T c =>
         match c in call T return result T with
         | NewPage => Ok 1
         | Evaluate _ f =>
             match f with
             | FnClassBasedResults => Throw context_destroyed
             | _ => Ok d
             end
         | _ => Ok tt
         end)
      (fun _ _ => "https://www.google.com/search?q=jobs").

(** A card of the primary strategy. *)
Definition card (title company target : string) : element :=
  box ["iFjolb"] []
    [ marker title;
      leaf "div" ["wHYlTd"; "MKCbgd"; "a3jPc"] company;
      anchor [] target "Apply" ].

(** A Jobs view with six cards. *)
Definition six_cards : document :=
  box [] []
    [ card "Software Engineer" "Acme" "https://jobs.example/1";
      card "QA Engineer" "Bolt" "https://jobs.example/2";
      card "Data Engineer" "Cargo" "https://jobs.example/3";
      card "DevOps Engineer" "Delta" "https://jobs.example/4";
      card "Backend Engineer" "Echo" "https://jobs.example/5";
      card "Frontend Engineer" "Foxtrot" "https://jobs.example/6" ].

(** A Jobs view with five cards, and the same view while only its first
    two cards are rendered. *)
Definition five_cards : document :=
  box [] []
    [ card "Software Engineer" "Acme" "https://jobs.example/1";
      card "QA Engineer" "Bolt" "https://jobs.example/2";
      card "Data Engineer" "Cargo" "https://jobs.example/3";
      card "DevOps Engineer" "Delta" "https://jobs.example/4";
      card "Backend Engineer" "Echo" "https://jobs.example/5" ].

Definition two_of_five_cards : document :=
  box [] []
    [ card "Software Engineer" "Acme" "https://jobs.example/1";
      card "QA Engineer" "Bolt" "https://jobs.example/2" ].

(** A browser that shows [five_cards], except to the click of the third
    iteration of the drill-down, which finds two cards only. *)
Definition third_click_misses : environment :=
  Env (fun _ T c =>
         match c in call T return result T with
         | NewPage => Ok 1
         | Evaluate _ f =>
             match f with
             | FnClickJob 2 => Ok two_of_five_cards
             | _ => Ok five_cards
             end
         | _ => Ok tt
         end)
      (fun _ _ => "https://www.google.com/search?q=jobs&udm=8").

Definition first_of_six : JobRecord :=
  Job "Software Engineer" "Acme" "" "" "https://jobs.example/1" "https://jobs.example/1".


(** What the fallback strategy reads off [two_postings]. *)
Definition sample_records : list JobRecord :=
  [ Job "Software Engineer" "Acme" "Colombo" "" "https://jobs.example/a/1"
        "https://jobs.example/a/1";
    Job "Software Engineer" "Acme" "Colombo" "" "https://jobs.example/b/7"
        "https://jobs.example/b/7" ].

End Samples.
(** ** The launch of the browser *)

(** The part of [openChromeAndSearch] that comes before the first page
    is opened: the search for Chrome and for its profiles on the host,
    the choice of a profile and the launch, with its fallback. *)
Module Launch.

(** An entry of [fs.readdirSync(dir, { withFileTypes: true })]. *)
Record dirent : Type := Dirent { dirent_name : string; isDirectory : bool }.

(** The options of [puppeteer.launch] that vary ([headless] is always
    [false]). *)
Record launch_options : Type :=
  Options { executablePath : string; args : list string }.

(** The host the script runs on: the environment variable, [path.join],
    the file system, the output of the [tasklist] command, the order
    of [localeCompare] and [puppeteer.launch]. *)
Record host : Type :=
  Host {
    LOCALAPPDATA : option string;
    join : list string -> string;
    existsSync : string -> bool;
    readdirSync : string -> result (list dirent);
    tasklist : result string;
    localeCompare : string -> string -> Z;
    launch : launch_options -> result unit
  }.

(** What the launch writes and does, in order. *)
Inductive output : Type :=
| Out (line : string)                              (* console.log *)
| OutList (label : string) (values : list string)  (* console.log(label, array) *)
| Err (line : string)                              (* console.error *)
| Launched (options : launch_options) (r : result unit).

(** [process.env.LOCALAPPDATA || ''] *)
Definition localAppData (h : host) : string :=
  match LOCALAPPDATA h with
  | Some v => Js.or_else v ""
  | None => ""
  end.

Definition possiblePaths (h : host) : list string :=
  [ "C:\Program Files\Google\Chrome\Application\chrome.exe";
    "C:\Program Files (x86)\Google\Chrome\Application\chrome.exe";
    join h [localAppData h; "Google"; "Chrome"; "Application"; "chrome.exe"] ].

(** [getChromePath]: [None] is [null]. *)
Definition getChromePath (h : host) : option string :=
  find (fun chromePath => Js.truthy chromePath && existsSync h chromePath) (possiblePaths h).

(** [getChromeUserDataDir] *)
Definition getChromeUserDataDir (h : host) : option string :=
  let userDataDir := join h [localAppData h; "Google"; "Chrome"; "User Data"] in
  if existsSync h userDataDir then Some userDataDir else None.

(** The test of the loop of [getChromeProfiles] on one entry. *)
Definition is_profile (h : host) (userDataDir : string) (item : dirent) : bool :=
  isDirectory item &&
  (String.eqb (dirent_name item) "Default" ||
   Js.startsWith (dirent_name item) "Profile " ||
   existsSync h (join h [join h [userDataDir; dirent_name item]; "Preferences"])).

(** The comparison function handed to [profiles.sort]. *)
Definition compare_profiles (h : host) (a b : string) : Z :=
  if String.eqb a "Default" then (-1)%Z
  else if String.eqb b "Default" then 1%Z
  else localeCompare h a b.

(** [Array.prototype.sort]: the sort is stable, and on a comparison
    function that is consistent on the elements, as [compare_profiles]
    is on the distinct names of a directory, its result is the sorted
    arrangement that insertion computes: each element goes behind the
    elements it does not precede. *)
Fixpoint insert_sorted (compare : string -> string -> Z) (x : string) (l : list string)
    : list string :=
  match l with
  | y :: rest =>
      if (compare x y <? 0)%Z then x :: y :: rest
      else y :: insert_sorted compare x rest
  | [] => [x]
  end.

Definition sort (compare : string -> string -> Z) (l : list string) : list string :=
  fold_left (fun sorted x => insert_sorted compare x sorted) l [].

(** [getChromeProfiles]: the profiles, and what the [catch] writes. *)
Definition getChromeProfiles (h : host) (userDataDir : string)
    : list string * list output :=
  match readdirSync h userDataDir with
  | Ok items =>
      (sort (compare_profiles h)
         (map dirent_name (filter (fun item => is_profile h userDataDir item) items)),
       [])
  | Throw message => ([], [Err ("Error reading profiles: " +:+ message)])
  end.

(** [isChromeRunning] *)
Definition isChromeRunning (h : host) : bool :=
  match tasklist h with
  | Ok result => Js.includes result "chrome.exe"
  | Throw _ => false
  end.

(** The choice of the profile among those found. *)
Definition selectProfile (profiles : list string) : option string * list output :=
  if existsb (String.eqb "Profile 1") profiles
  then (Some "Profile 1", [Out "Using Profile 1"])
  else
    match profiles with
    | first :: _ =>
        (Some first, [Out ("Profile 1 not found. Using first available profile: " +:+ first)])
    | [] => (None, [])
    end.

Definition commonArgs : list string :=
  [ "--no-sandbox";
    "--disable-setuid-sandbox";
    "--disable-blink-features=AutomationControlled";
    "--disable-dev-shm-usage";
    "--disable-features=IsolateOrigins,site-per-process" ].

Definition profileArgs (userDataDir selectedProfile : string) : list string :=
  [ "--user-data-dir=" +:+ userDataDir; "--profile-directory=" +:+ selectedProfile ].

(** [puppeteer.launch] with the temporary profile, as the last
    attempt of a launch with a profile ([logged]: its failure is
    written before it is thrown again) or as the only attempt. *)
Definition launchTemporary (h : host) (chromePath : string) (logged : bool)
    : result launch_options * list output :=
  let options := Options chromePath commonArgs in
  match launch h options with
  | Ok _ =>
      (Ok options,
       [Launched options (Ok tt); Out "Chrome launched successfully with temporary profile"])
  | Throw message =>
      (Throw message,
       Launched options (Throw message) ::
       if logged then [Err ("Failed to launch Chrome: " +:+ message)] else [])
  end.

(** The outcome of the last launch as that of the function. *)
Definition launched (r : result launch_options) : result (option launch_options) :=
  match r with
  | Ok options => Ok (Some options)
  | Throw message => Throw message
  end.

(** [userDataDir && selectedProfile] *)
Definition profile_to_use (userDataDir selectedProfile : option string)
    : option (string * string) :=
  match userDataDir, selectedProfile with
  | Some dir, Some profile =>
      if Js.truthy dir && Js.truthy profile then Some (dir, profile) else None
  | _, _ => None
  end.

(** [openChromeAndSearch] up to [browser.newPage()]: the options the
    browser was launched with, [None] when the function has returned
    because Chrome was not found, or the exception of the launch; and
    what was written and done. *)
Definition startBrowser (h : host) : result (option launch_options) * list output :=
  let userDataDir := getChromeUserDataDir h in
  match getChromePath h with
  | None => (Ok None, [Err "Chrome not found! Please install Google Chrome."])
  | Some chromePath =>
      let warning :=
        if isChromeRunning h
        then [ Out "WARNING: Chrome appears to be running. Please close all Chrome windows first!";
               Out "Attempting to launch anyway..." ]
        else [] in
      let '(selectedProfile, selection) :=
        match userDataDir with
        | Some dir =>
            if Js.truthy dir then
              let '(profiles, errors) := getChromeProfiles h dir in
              let '(selectedProfile, chosen) := selectProfile profiles in
              (selectedProfile, errors ++ [OutList "Available profiles:" profiles] ++ chosen)
            else (None, [])
        | None => (None, [])
        end in
      let paths :=
        Out ("Chrome path: " +:+ chromePath) ::
        match userDataDir with
        | Some dir => if Js.truthy dir then [Out ("User data dir: " +:+ dir)] else []
        | None => []
        end in
      let before := warning ++ selection ++ paths in
      match profile_to_use userDataDir selectedProfile with
      | Some (dir, profile) =>
          let options := Options chromePath (profileArgs dir profile ++ commonArgs) in
          match launch h options with
          | Ok _ =>
              (Ok (Some options),
               before ++
               [ Launched options (Ok tt);
                 Out ("Chrome launched successfully with profile: " +:+ profile) ])
          | Throw message =>
              let '(r, after) := launchTemporary h chromePath true in
              (launched r,
               before ++
               [ Launched options (Throw message);
                 Out ("Failed to launch with existing profile: " +:+ message);
                 Out "Trying with temporary profile..." ] ++ after)
          end
      | None =>
          let '(r, after) := launchTemporary h chromePath false in
          (launched r, before ++ after)
      end
  end.

(** The launches attempted, in order. *)
Definition attempts (outputs : list output) : list (launch_options * result unit) :=
  omap (fun o => match o with Launched options r => Some (options, r) | _ => None end)
       outputs.

(** The names of the entries of [userDataDir] that count as profiles. *)
Definition profile_names (h : host) (userDataDir : string) (items : list dirent)
    : list string :=
  map dirent_name (filter (fun item => is_profile h userDataDir item) items).

(** The name [Default], when it is in the list, is at its head. *)
Definition default_first (l : list string) : Prop :=
  "Default" ∈ l → head l = Some "Default".

End Launch.

(** ** Strings of the ASCII range *)

Module Ascii7.

(** Every code unit of the string is below 128: the range on which the
    string operations of [Js] and [Url] are those of the source. *)
Fixpoint ascii_only (s : string) : bool :=
  match s with
  | String c s' => (Js.code c <? 128)%nat && ascii_only s'
  | EmptyString => true
  end.

End Ascii7.

(** ** What the other loops of the page functions maintain *)

Module Invariant.
Import Dom Page.


(** What the primary strategy guarantees of a record: a description
    that is not empty repeats neither the title, nor the company, nor
    the location; and a record without a link has no apply link. *)
Definition primary_fields (r : JobRecord) : Prop :=
  (description r ≠ "" →
     description r ≠ title r ∧ description r ≠ company r ∧ description r ≠ location r) ∧
  (link r = "" → applyLink r = "").

(** What the fallback strategy guarantees of a company and of a
    description: the company has fewer than a hundred code units and
    is no relative time; the description is empty, or has more than
    twenty code units and is not the title. *)
Definition fallback_company (companyName : string) : Prop :=
  Js.length companyName < 100 ∧ Js.matches_time_ago companyName = false.

Definition fallback_description (title description : string) : Prop :=
  description = "" ∨ (20 < Js.length description ∧ description ≠ title).

Definition fallback_fields (r : JobRecord) : Prop :=
  link r ≠ "" ∧ fallback_company (company r) ∧
  fallback_description (title r) (description r).

(** The text of the detail pane as the text listing reads it for every
    item: [detailPanel ? detailPanel.innerText.trim() : ''], the pane
    being looked up in the document, not in the item's container. *)
Definition detail_text (d : document) : result string :=
  match or_node
          (docQuerySelector d
             [ one [Class "NgUYpe"]; inside [Tag "bREpEc"] [Class "whazf"];
               one [Class "KPJpj"]; one [Class "gws-plugins-horizon-jobs__detail-page"] ])
          (docQuerySelector d [one [Attr (AttrIs "data-ref-id" "jobs-detail-pane")]]) with
  | Some p => innerText_trim p
  | None => Ok ""
  end.

(** What the text listing guarantees of an item: its detail is the text
    of the detail pane of the page, and it has a link exactly when it
    has an apply link. *)
Definition text_item (d : document) (item : JobText) : Prop :=
  detail_text d = Ok (text_detail item) ∧
  (text_link item = "" ↔ text_applyLink item = "").

End Invariant.

(** ** Observations on the stages around the listing *)

Module Stage.
Import Dom Page Browser Pipeline Trace.

(** An event that is no navigation. *)
Definition no_goto (ev : event) : Prop := gotos [ev] = [].

(** An event that is neither a navigation nor the opening of a page. *)
Definition no_navigation (ev : event) : Prop := gotos [ev] = [] ∧ opened [ev] = [].

(** From [st] to [st'] the history grows, and the navigations it grows
    by are some of [targets], in their order. *)
Definition navigates (targets : list (page_id * string)) (st st' : state) : Prop :=
  ∃ evs, history st' = history st ++ evs ∧ gotos evs `sublist_of` targets.

(** A call that opens a page or configures one: [browser.newPage()]
    and the five calls of [configurePage]. *)
Definition is_configuration (ev : event) : bool :=
  match ev with
  | Called c _ =>
      match c with
      | NewPage | SetViewport _ _ _ | SetUserAgent _ _ | EvaluateOnNewDocument _ _ => true
      | _ => false
      end
  | _ => false
  end.

Definition no_configuration (ev : event) : Prop := is_configuration ev = false.

(** The secondary page stays the same. *)
Definition same_search_page (st st' : state) : Prop := searchPage st' = searchPage st.

(** The entry of [openedJobLinks] that belongs to a collected detail. *)
Definition detail_link (detail : JobDetail) : nat * string := (index detail, url detail).

(** The opened links and the collected details are in step: the links
    are those of the details, one for one and in order, and every
    detail has its URL for apply URL. *)
Definition in_step (st : state) : Prop :=
  openedJobLinks st = map detail_link (openedJobDetails st) ∧
  Forall (fun detail => applyUrl detail = url detail) (openedJobDetails st).

(** They are in step but for one last link whose detail is missing. *)
Definition link_pending (st : state) : Prop :=
  (∃ entry, openedJobLinks st = map detail_link (openedJobDetails st) ++ [entry]) ∧
  Forall (fun detail => applyUrl detail = url detail) (openedJobDetails st).

(** Neither list of the drill-down changes. *)
Definition same_lists (st st' : state) : Prop :=
  openedJobLinks st' = openedJobLinks st ∧ openedJobDetails st' = openedJobDetails st.

(** The evaluation of the consent dismissal. *)
Definition is_consent_call {T : Type} (c : call T) : bool :=
  match c with
  | Evaluate _ f => match f with FnDismissConsent => true | _ => false end
  | _ => false
  end.

(** The exception an event brings into a lookup: the message of the
    exception the browser answers a call with, the evaluation of the
    consent dismissal apart, whose exceptions the lookup ignores. *)
Definition failure (ev : event) : option string :=
  match ev with
  | Called c r =>
      match r with
      | Throw message => if is_consent_call c then None else Some message
      | Ok _ => None
      end
  | _ => None
  end.

Definition failures (evs : list event) : list string := omap failure evs.

(** [m] writes nothing to the console, and it throws exactly the
    exception of its last call, the only one that fails. *)
Definition tidy {A : Type} (m : M A) : Prop :=
  ∀ st, ∃ evs,
    history (snd (m st)) = history st ++ evs ∧ logged evs = [] ∧
    failures evs = match fst (m st) with
                   | Ok _ => []
                   | Throw message => [message]
                   end.

(** [m] from [st] ends in a state of [returned] when it returns and in
    one of [thrown] when it throws. *)
Definition ends {A : Type} (returned thrown : state -> Prop) (m : M A) (st : state) : Prop :=
  match m st with
  | (Ok _, st') => returned st'
  | (Throw _, st') => thrown st'
  end.

End Stage.

(** ** A browser that stands still *)

Module Steady.
Import Dom Page Browser Pipeline Trace.

(** A browser in which no call fails, in which the main page [page]
    shows [d] whenever it is looked at and every other page shows
    [found], and whose main page stays at [address];
    [browser.newPage()] hands out the page after [page]. *)
Definition browser (page : page_id) (d found : document) (address : string)
    : environment :=
  Env (fun _ T c =>
         match c in call T return result T with
         | NewPage => Ok (S page)
         | Evaluate p _ => Ok (if (p =? page)%nat then d else found)
         | _ => Ok tt
         end)
      (fun _ _ => address).

(** The record collection the strategy chain reads off [d]. *)
Definition collection (d : document) : result (list JobRecord) :=
  if (length (classBasedResults d) =? 0)%nat then fallbackResults d
  else Ok (classBasedResults d).

(** The enrichment link of a record where the result page is [found]. *)
Definition enrichment (found : document) (r : JobRecord) : string :=
  if has_query r then firstResultLink found else "".

(** The detail the drill-down stores for the title marker number [idx]
    of [d]. *)
Definition detail_of (d : document) (address : string) (idx : nat) : JobDetail :=
  let link := Js.or_else (jobLink d) address in
  let snapshot := detailSnapshot d in
  Detail (idx + 1) link link
         (Js.or_else (snap_title snapshot) "")
         (Js.or_else (snap_company snapshot) "")
         (Js.or_else (snap_location snapshot) "")
         (Js.or_else (snap_description snapshot) "")
         (Js.or_else (snap_content snapshot) "")
         (anchorDetails d).

(** The element the drill-down clicks for a title marker: [tab || target]. *)
Definition clicked (target : node) : node := default target (closest target job_tab_sel).

(** Every element the drill-down clicks on [d] is an HTML element. *)
Definition clickable (d : document) : Prop :=
  Forall (fun target => is_html (clicked target) = true)
         (docQuerySelectorAll d title_marker_sel).

(** The secondary page is not open yet, or it is the page after [page]. *)
Definition on_secondary (page : page_id) (st : state) : Prop :=
  searchPage st = None ∨ searchPage st = Some (S page).

End Steady.

(** ** Further sample pages and browsers *)

Module Cases.
Import Dom Page Browser Pipeline.

(** A browser that shows [Samples.five_cards] and rejects the
    evaluation of the detail snapshot. *)
Definition snapshot_fails : environment :=
  Env (fun _ T c =>
         match c in call T return result T with
         | NewPage => Ok 1
         | Evaluate _ f =>
             match f with
             | FnDetailSnapshot => Throw Samples.context_destroyed
             | _ => Ok Samples.five_cards
             end
         | _ => Ok tt
         end)
      (fun _ _ => "https://www.google.com/search?q=jobs&udm=8").

(** A host with Chrome under Program Files and a user data directory
    that holds three profiles, a file and a directory that is none;
    on it the launch with a profile fails (the profile is in use) and
    the launch with a temporary profile succeeds. *)
Definition joined (parts : list string) : string := String.concat "\" parts.

Definition user_data : string := "C:\Users\dev\AppData\Local\Google\Chrome\User Data".

Definition office_pc : Launch.host :=
  Launch.Host
    (Some "C:\Users\dev\AppData\Local")
    joined
    (fun p => String.eqb p "C:\Program Files\Google\Chrome\Application\chrome.exe"
              || String.eqb p user_data)
    (fun _ => Ok [ Launch.Dirent "Profile 2" true; Launch.Dirent "Local State" false;
                   Launch.Dirent "Default" true; Launch.Dirent "Profile 1" true;
                   Launch.Dirent "Crashpad" true ])
    (Ok "chrome.exe                    4242 Console")
    (fun a b => match String.compare a b with Lt => (-1)%Z | Eq => 0%Z | Gt => 1%Z end)
    (fun options =>
       if (5 <? length (Launch.args options))%nat
       then Throw "Failed to launch the browser process!"
       else Ok tt).

(** A browser that shows [d] on every page and rejects the evaluation
    of the consent dismissal. *)
Definition consent_fails (d : document) : environment :=
  Env (fun _ T c =>
         match c in call T return result T with
         | NewPage => Ok 1
         | Evaluate _ f =>
             match f with
             | FnDismissConsent => Throw Samples.context_destroyed
             | _ => Ok d
             end
         | _ => Ok tt
         end)
      (fun _ _ => "https://www.google.com/search?q=jobs").

(** A browser that shows [d] on every page and rejects every
    navigation. *)
Definition offline (d : document) : environment :=
  Env (fun _ T c =>
         match c in call T return result T with
         | NewPage => Ok 1
         | Goto _ _ _ _ => Throw "net::ERR_INTERNET_DISCONNECTED"
         | Evaluate _ _ => Ok d
         | _ => Ok tt
         end)
      (fun _ _ => "https://www.google.com/search?q=jobs").

(** A browser that shows [d] on every page and rejects
    [page.setViewport]. *)
Definition viewport_fails (d : document) : environment :=
  Env (fun _ T c =>
         match c in call T return result T with
         | NewPage => Ok 1
         | SetViewport _ _ _ => Throw "Protocol error (Emulation.setDeviceMetricsOverride)"
         | Evaluate _ _ => Ok d
         | _ => Ok tt
         end)
      (fun _ _ => "https://www.google.com/search?q=jobs").

End Cases.


(** * Properties *)

(** ** White space and trimming *)

Lemma append_cons (c : ascii) (s t : string) : (String c s ++ t)%string = String c (s ++ t).
Proof. reflexivity. Qed.

Lemma append_empty (t : string) : ("" ++ t)%string = t.
Proof. reflexivity. Qed.

Lemma white_space_1_byte (a : ascii) : Js.white_space_1 a = true → (Js.code a < 128)%nat.
Proof.
  unfold Js.white_space_1.
  rewrite !orb_true_iff, !andb_true_iff, !Nat.eqb_eq, !Nat.leb_le. lia.
Qed.

Lemma white_space_2_bytes (a b : ascii) :
  Js.white_space_2 a b = true → (128 ≤ Js.code a)%nat ∧ (128 ≤ Js.code b)%nat.
Proof.
  unfold Js.white_space_2. rewrite !andb_true_iff, !Nat.eqb_eq. lia.
Qed.

Lemma white_space_1_codes (a : ascii) :
  Js.white_space_1 a = true →
  (Js.code a = 9 ∨ Js.code a = 10 ∨ Js.code a = 11 ∨ Js.code a = 12 ∨ Js.code a = 13
   ∨ Js.code a = 32)%nat.
Proof.
  unfold Js.white_space_1.
  rewrite !orb_true_iff, !andb_true_iff, !Nat.eqb_eq, !Nat.leb_le. lia.
Qed.

Lemma white_space_2_codes (a b : ascii) :
  Js.white_space_2 a b = true → (Js.code a = 194 ∧ Js.code b = 160)%nat.
Proof. unfold Js.white_space_2. by rewrite !andb_true_iff, !Nat.eqb_eq. Qed.

Lemma white_space_3_codes (a b c : ascii) :
  Js.white_space_3 a b c = true →
  ((Js.code a = 225 ∧ Js.code b = 154 ∧ Js.code c = 128) ∨
   (Js.code a = 226 ∧ Js.code b = 128 ∧
    (Js.code c = 128 ∨ Js.code c = 129 ∨ Js.code c = 130 ∨ Js.code c = 131 ∨
     Js.code c = 132 ∨ Js.code c = 133 ∨ Js.code c = 134 ∨ Js.code c = 135 ∨
     Js.code c = 136 ∨ Js.code c = 137 ∨ Js.code c = 138 ∨
     Js.code c = 168 ∨ Js.code c = 169 ∨ Js.code c = 175)) ∨
   (Js.code a = 226 ∧ Js.code b = 129 ∧ Js.code c = 159) ∨
   (Js.code a = 227 ∧ Js.code b = 128 ∧ Js.code c = 128) ∨
   (Js.code a = 239 ∧ Js.code b = 187 ∧ Js.code c = 191))%nat.
Proof.
  unfold Js.white_space_3.
  rewrite !orb_true_iff, !andb_true_iff, !orb_true_iff, !andb_true_iff,
    !Nat.eqb_eq, !Nat.leb_le.
  lia.
Qed.

Lemma white_space_3_bytes (a b c : ascii) :
  Js.white_space_3 a b c = true →
  (128 ≤ Js.code a)%nat ∧ (128 ≤ Js.code b)%nat ∧ (128 ≤ Js.code c)%nat.
Proof. intros H. apply white_space_3_codes in H. lia. Qed.

Lemma white_space_2_space_r (a : ascii) : Js.white_space_2 a " " = false.
Proof.
  destruct (Js.white_space_2 a " ") eqn:E; [|done].
  apply white_space_2_bytes in E. change (Js.code " ") with 32 in E. lia.
Qed.

Lemma white_space_3_space_m (a c : ascii) : Js.white_space_3 a " " c = false.
Proof.
  destruct (Js.white_space_3 a " " c) eqn:E; [|done].
  apply white_space_3_bytes in E. change (Js.code " ") with 32 in E. lia.
Qed.

Lemma white_space_3_space_r (a b : ascii) : Js.white_space_3 a b " " = false.
Proof.
  destruct (Js.white_space_3 a b " ") eqn:E; [|done].
  apply white_space_3_bytes in E. change (Js.code " ") with 32 in E. lia.
Qed.

(** [trimStart] and [all_white_space] take one white-space character
    at a time. *)
Lemma trimStart_step (s : string) :
  Js.trimStart s
  = match Js.after_white_space s with
    | Some rest => Js.trimStart rest
    | None => s
    end.
Proof.
  destruct s as [|a [|b [|c s]]]; simpl; try reflexivity.
  - by destruct (Js.white_space_1 a).
  - destruct (Js.white_space_1 a); [done|]. by destruct (Js.white_space_2 a b).
  - destruct (Js.white_space_1 a); [done|]. destruct (Js.white_space_2 a b); [done|].
    by destruct (Js.white_space_3 a b c).
Qed.

Lemma all_white_space_step (s : string) :
  Js.all_white_space s
  = match Js.after_white_space s with
    | Some rest => Js.all_white_space rest
    | None => bool_decide (s = "")
    end.
Proof.
  destruct s as [|a [|b [|c s]]]; simpl; try reflexivity.
  - by destruct (Js.white_space_1 a).
  - destruct (Js.white_space_1 a); [done|]. by destruct (Js.white_space_2 a b).
  - destruct (Js.white_space_1 a); [done|]. destruct (Js.white_space_2 a b); [done|].
    by destruct (Js.white_space_3 a b c).
Qed.

Lemma after_white_space_shorter (s rest : string) :
  Js.after_white_space s = Some rest → (String.length rest < String.length s)%nat.
Proof.
  destruct s as [|a [|b [|c s]]]; simpl; try discriminate.
  - destruct (Js.white_space_1 a); [|discriminate]. intros [= <-]. simpl. lia.
  - destruct (Js.white_space_1 a); [intros [= <-]; simpl; lia|].
    destruct (Js.white_space_2 a b); [|discriminate]. intros [= <-]. simpl. lia.
  - destruct (Js.white_space_1 a); [intros [= <-]; simpl; lia|].
    destruct (Js.white_space_2 a b); [intros [= <-]; simpl; lia|].
    destruct (Js.white_space_3 a b c); [|discriminate]. intros [= <-]. simpl. lia.
Qed.

(** Induction along the white space a string starts with. *)
Lemma white_space_ind (P : string → Prop) :
  (∀ s, Js.after_white_space s = None → P s) →
  (∀ s rest, Js.after_white_space s = Some rest → P rest → P s) →
  ∀ s, P s.
Proof.
  intros Hnone Hsome s.
  remember (String.length s) as n eqn:E. revert s E.
  induction n as [n IH] using lt_wf_ind. intros s ->.
  destruct (Js.after_white_space s) as [rest|] eqn:Hs; [|by apply Hnone].
  apply (Hsome _ _ Hs). apply (IH (String.length rest)); [|done].
  by apply after_white_space_shorter.
Qed.

Lemma after_white_space_app (s rest x : string) :
  Js.after_white_space s = Some rest →
  Js.after_white_space (s ++ x) = Some (rest ++ x)%string.
Proof.
  destruct s as [|a [|b [|c s]]]; rewrite ?append_cons, ?append_empty;
    simpl; try discriminate.
  - destruct (Js.white_space_1 a); [|discriminate]. by intros [= <-].
  - destruct (Js.white_space_1 a); [by intros [= <-]|].
    destruct (Js.white_space_2 a b); [|discriminate]. by intros [= <-].
  - destruct (Js.white_space_1 a); [by intros [= <-]|].
    destruct (Js.white_space_2 a b); [by intros [= <-]|].
    destruct (Js.white_space_3 a b c); [|discriminate]. by intros [= <-].
Qed.

(** A space that follows does not complete a white-space character. *)
Lemma after_white_space_space (s y : string) :
  Js.after_white_space s = None → s ≠ "" →
  Js.after_white_space (s ++ String " " y) = None.
Proof.
  destruct s as [|a [|b [|c s]]]; rewrite ?append_cons, ?append_empty;
    simpl; try done.
  - destruct (Js.white_space_1 a); [discriminate|]. intros _ _.
    rewrite white_space_2_space_r. destruct y; [done|].
    by rewrite white_space_3_space_m.
  - destruct (Js.white_space_1 a); [discriminate|].
    destruct (Js.white_space_2 a b); [discriminate|]. intros _ _.
    by rewrite white_space_3_space_r.
  - destruct (Js.white_space_1 a); [discriminate|].
    destruct (Js.white_space_2 a b); [discriminate|].
    by destruct (Js.white_space_3 a b c).
Qed.

Lemma all_white_space_nonempty (s : string) :
  Js.after_white_space s = None → s ≠ "" → Js.all_white_space s = false.
Proof.
  intros H Hs. rewrite all_white_space_step, H. by apply bool_decide_eq_false.
Qed.

Lemma trimStart_all_white_space (s : string) :
  Js.all_white_space s = true → Js.trimStart s = "".
Proof.
  induction s as [s Hs|s rest Hs IH] using white_space_ind;
    rewrite all_white_space_step, trimStart_step, Hs; [|exact IH].
  intros H. by apply bool_decide_eq_true in H.
Qed.

Lemma trimStart_empty (s : string) : Js.trimStart s = "" → Js.all_white_space s = true.
Proof.
  induction s as [s Hs|s rest Hs IH] using white_space_ind;
    rewrite all_white_space_step, trimStart_step, Hs; [|exact IH].
  intros H. by apply bool_decide_eq_true.
Qed.

(** What [trimStart] leaves does not start with white space. *)
Lemma trimStart_start (s : string) : Js.after_white_space (Js.trimStart s) = None.
Proof.
  induction s as [s Hs|s rest Hs IH] using white_space_ind;
    rewrite trimStart_step, Hs; done.
Qed.

Lemma all_white_space_app_l (a b : string) :
  Js.all_white_space a = true → Js.all_white_space (a ++ b) = Js.all_white_space b.
Proof.
  induction a as [a Ha|a rest Ha IH] using white_space_ind.
  - rewrite all_white_space_step, Ha. intros H. apply bool_decide_eq_true in H. by subst.
  - rewrite (all_white_space_step a), (all_white_space_step (a ++ b)), Ha.
    rewrite (after_white_space_app _ _ b Ha). exact IH.
Qed.

Lemma trimEnd_cons (c : ascii) (s : string) :
  Js.trimEnd (String c s)
  = if Js.all_white_space (String c s) then "" else String c (Js.trimEnd s).
Proof. reflexivity. Qed.

Lemma trimEnd_all_white_space (s : string) :
  Js.all_white_space s = true → Js.trimEnd s = "".
Proof. destruct s; [done|]. intros H. by rewrite trimEnd_cons, H. Qed.

(** [trimEnd] cuts white space off the end and nothing else. *)
Lemma trimEnd_split (s : string) :
  ∃ w, s = (Js.trimEnd s ++ w)%string ∧ Js.all_white_space w = true.
Proof.
  induction s as [|c s (w & Hw & Hws)]; [by exists ""|].
  rewrite trimEnd_cons. destruct (Js.all_white_space (String c s)) eqn:E.
  - by exists (String c s).
  - exists w. by rewrite append_cons, <- Hw.
Qed.

Lemma all_white_space_trimEnd (s : string) :
  Js.all_white_space (Js.trimEnd s) = Js.all_white_space s.
Proof.
  destruct (Js.all_white_space s) eqn:E; [by rewrite trimEnd_all_white_space|].
  destruct (Js.all_white_space (Js.trimEnd s)) eqn:E'; [|done].
  destruct (trimEnd_split s) as (w & Hw & Hws).
  rewrite Hw, (all_white_space_app_l _ _ E') in E. congruence.
Qed.

Lemma trimEnd_idem (s : string) : Js.trimEnd (Js.trimEnd s) = Js.trimEnd s.
Proof.
  induction s as [|c s IH]; [done|].
  pose proof (all_white_space_trimEnd (String c s)) as H. revert H.
  rewrite trimEnd_cons. destruct (Js.all_white_space (String c s)); [done|].
  intros H. by rewrite trimEnd_cons, H, IH.
Qed.

Lemma trimStart_trimEnd (t : string) :
  Js.after_white_space t = None → Js.trimStart (Js.trimEnd t) = Js.trimEnd t.
Proof.
  intros H. rewrite trimStart_step.
  destruct (Js.after_white_space (Js.trimEnd t)) as [rest|] eqn:E; [|done].
  destruct (trimEnd_split t) as (w & Hw & _).
  rewrite Hw, (after_white_space_app _ _ w E) in H. discriminate.
Qed.

Lemma trim_idem (s : string) : Js.trim (Js.trim s) = Js.trim s.
Proof.
  unfold Js.trim. rewrite (trimStart_trimEnd _ (trimStart_start s)). apply trimEnd_idem.
Qed.

Lemma trim_all_white_space (s : string) :
  Js.all_white_space s = true → Js.trim s = "".
Proof. intros H. unfold Js.trim. by rewrite trimStart_all_white_space. Qed.

Lemma trim_empty (s : string) : Js.trim s = "" → Js.all_white_space s = true.
Proof.
  unfold Js.trim. intros H. apply trimStart_empty.
  destruct (Js.trimStart s) as [|c t] eqn:E; [done|].
  rewrite trimEnd_cons in H.
  rewrite (all_white_space_nonempty (String c t)) in H; [done| |done].
  rewrite <- E. apply trimStart_start.
Qed.

Lemma truthy_trim (s : string) : Js.truthy (Js.trim s) = negb (Js.all_white_space s).
Proof.
  destruct (Js.all_white_space s) eqn:H.
  - by rewrite trim_all_white_space.
  - destruct (Js.trim s) eqn:E; [|done]. apply trim_empty in E. congruence.
Qed.

(** The query is empty or white space exactly when nothing is left of
    it after trimming. *)
Lemma all_white_space_trim (s : string) :
  Js.all_white_space s = true ↔ Js.trim s = "".
Proof. split; [apply trim_all_white_space|apply trim_empty]. Qed.

Lemma all_white_space_space (u : string) :
  Js.all_white_space (u ++ " ") = Js.all_white_space u.
Proof.
  induction u as [u Hu|u rest Hu IH] using white_space_ind.
  - destruct (decide (u = "")) as [->|Hne]; [done|].
    rewrite (all_white_space_nonempty u Hu Hne).
    apply all_white_space_nonempty; [by apply after_white_space_space|].
    by destruct u.
  - rewrite (all_white_space_step u), (all_white_space_step (u ++ " ")), Hu.
    by rewrite (after_white_space_app _ _ " " Hu).
Qed.

(** White space on both sides of a space. *)
Lemma all_white_space_join (a b : string) :
  Js.all_white_space (a ++ String " " b) = Js.all_white_space a && Js.all_white_space b.
Proof.
  induction a as [a Ha|a rest Ha IH] using white_space_ind.
  - destruct (decide (a = "")) as [->|Hne]; [done|].
    rewrite (all_white_space_nonempty a Ha Hne).
    apply all_white_space_nonempty; [by apply after_white_space_space|].
    by destruct a.
  - rewrite (all_white_space_step a), (all_white_space_step (a ++ String " " b)), Ha.
    by rewrite (after_white_space_app _ _ (String " " b) Ha).
Qed.

Lemma trimEnd_app_space (u : string) : Js.trimEnd (u ++ " ") = Js.trimEnd u.
Proof.
  induction u as [|c u IH]; [reflexivity|].
  rewrite append_cons, !trimEnd_cons, <- append_cons, all_white_space_space.
  by rewrite IH.
Qed.

Lemma trimStart_app_space (t : string) :
  Js.all_white_space t = false → Js.trimStart (t ++ " ") = (Js.trimStart t ++ " ")%string.
Proof.
  induction t as [t Ht|t rest Ht IH] using white_space_ind.
  - intros H. rewrite (trimStart_step t), Ht, trimStart_step.
    rewrite after_white_space_space; [done|done|]. by intros ->.
  - rewrite (all_white_space_step t), (trimStart_step t), (trimStart_step (t ++ " ")), Ht.
    by rewrite (after_white_space_app _ _ " " Ht).
Qed.

Lemma trim_app_space (t : string) : Js.trim (t ++ " ") = Js.trim t.
Proof.
  destruct (Js.all_white_space t) eqn:E.
  - rewrite (trim_all_white_space t E). apply trim_all_white_space.
    by rewrite all_white_space_space.
  - unfold Js.trim. by rewrite (trimStart_app_space _ E), trimEnd_app_space.
Qed.

Lemma trimmed_white (s : string) :
  Js.trim s = s → Js.all_white_space s = negb (Js.truthy s).
Proof. intros H. rewrite <- H at 2. by rewrite truthy_trim, negb_involutive. Qed.

(** ** Strings by their code points *)

Lemma code_eq (a : ascii) (n : nat) : Js.code a = n → a = ascii_of_nat n.
Proof. intros <-. unfold Js.code. by rewrite ascii_nat_embedding. Qed.

Lemma code_of_N (x : N) : (x < 256)%N → Js.code (ascii_of_N x) = N.to_nat x.
Proof. intros H. unfold Js.code, nat_of_ascii. by rewrite N_ascii_embedding. Qed.

Lemma encode_cons (cp : N) (cps : list N) :
  Unicode.encode (cp :: cps) = (Unicode.utf8 cp ++ Unicode.encode cps)%string.
Proof. reflexivity. Qed.

(** The encoding of a white-space character is taken for one. *)
Lemma utf8_white_space (cp : N) (rest : string) :
  cp ∈ Unicode.white_space → Js.after_white_space (Unicode.utf8 cp ++ rest) = Some rest.
Proof.
  unfold Unicode.white_space. rewrite !elem_of_cons, elem_of_nil. intros H.
  repeat (destruct H as [->|H]; [reflexivity|]). done.
Qed.

Ltac white_space_case :=
  repeat match goal with
         | H : Js.code _ = _ |- _ => apply code_eq in H
         end;
  subst;
  split; [apply (bool_decide_unpack _); vm_compute; exact I|reflexivity].

(** What is taken for a white-space character is the encoding of one. *)
Lemma after_white_space_utf8 (s rest : string) :
  Js.after_white_space s = Some rest →
  ∃ cp, cp ∈ Unicode.white_space ∧ s = (Unicode.utf8 cp ++ rest)%string.
Proof.
  destruct s as [|a s1]; [discriminate|]. cbn [Js.after_white_space].
  destruct (Js.white_space_1 a) eqn:H1.
  { intros [= <-]. exists (N_of_ascii a).
    destruct (white_space_1_codes a H1) as [H|[H|[H|[H|[H|H]]]]]; white_space_case. }
  destruct s1 as [|b s2]; [discriminate|].
  destruct (Js.white_space_2 a b) eqn:H2.
  { intros [= <-]. exists 160%N. destruct (white_space_2_codes a b H2) as [Ha Hb].
    white_space_case. }
  destruct s2 as [|c s3]; [discriminate|].
  destruct (Js.white_space_3 a b c) eqn:H3; [|discriminate].
  intros [= <-]. exists (Unicode.of_three a b c).
  destruct (white_space_3_codes a b c H3)
    as [(Ha & Hb & Hc)|[(Ha & Hb & Hc)|[(Ha & Hb & Hc)|[(Ha & Hb & Hc)|(Ha & Hb & Hc)]]]];
    [white_space_case| |white_space_case|white_space_case|white_space_case].
  destruct Hc as [Hc|[Hc|[Hc|[Hc|[Hc|[Hc|[Hc|[Hc|[Hc|[Hc|[Hc|[Hc|[Hc|Hc]]]]]]]]]]]]];
    white_space_case.
Qed.

(** The strings that the model takes for white space are those made of
    the white space of the language. *)
Lemma all_white_space_spec (s : string) :
  Js.all_white_space s = true ↔ Unicode.white_space_only s.
Proof.
  split.
  - induction s as [s Hs|s rest Hs IH] using white_space_ind;
      rewrite all_white_space_step, Hs.
    + intros H. apply bool_decide_eq_true in H. subst s. by exists [].
    + intros H. destruct (IH H) as (cps & Hcps & ->).
      destruct (after_white_space_utf8 _ _ Hs) as (cp & Hcp & ->).
      exists (cp :: cps). split; [by constructor|done].
  - intros (cps & Hcps & ->). induction Hcps as [|cp cps Hcp _ IH]; [done|].
    rewrite encode_cons, all_white_space_step. by rewrite (utf8_white_space cp _ Hcp).
Qed.

Lemma length_app (s t : string) : Js.length (s ++ t) = (Js.length s + Js.length t)%nat.
Proof.
  induction s as [|c s IH]; [done|]. rewrite append_cons. cbn [Js.length].
  rewrite IH. lia.
Qed.

Lemma units_N (x : N) :
  (x < 256)%N →
  Js.units (ascii_of_N x)
  = if (x <? 128)%N then 1%nat
    else if (x <? 192)%N then 0%nat
    else if (x <? 240)%N then 1%nat
    else 2%nat.
Proof.
  intros H. unfold Js.units. rewrite (code_of_N x H).
  repeat match goal with
         | |- context [(?a <? ?b)%N] => destruct (N.ltb_spec a b)
         | |- context [(?a <? ?b)%nat] => destruct (Nat.ltb_spec a b)
         end; lia.
Qed.

Lemma units_ascii (x : N) : (x < 128)%N → Js.units (ascii_of_N x) = 1%nat.
Proof.
  intros H. rewrite units_N by lia. by destruct (N.ltb_spec x 128); [|lia].
Qed.

Lemma units_continuation (x : N) :
  (128 ≤ x < 192)%N → Js.units (ascii_of_N x) = 0%nat.
Proof.
  intros H. rewrite units_N by lia.
  destruct (N.ltb_spec x 128); [lia|]. by destruct (N.ltb_spec x 192); [|lia].
Qed.

Lemma units_lead (x : N) : (192 ≤ x < 240)%N → Js.units (ascii_of_N x) = 1%nat.
Proof.
  intros H. rewrite units_N by lia.
  destruct (N.ltb_spec x 128); [lia|]. destruct (N.ltb_spec x 192); [lia|].
  by destruct (N.ltb_spec x 240); [|lia].
Qed.

Lemma units_lead_of_four (x : N) : (240 ≤ x < 256)%N → Js.units (ascii_of_N x) = 2%nat.
Proof.
  intros H. rewrite units_N by lia.
  destruct (N.ltb_spec x 128); [lia|]. destruct (N.ltb_spec x 192); [lia|].
  by destruct (N.ltb_spec x 240); [lia|].
Qed.

Ltac byte_range := zify; Z.to_euclidean_division_equations; lia.

(** The length of a string is the number of its code units. *)
Lemma length_utf8 (cp : N) :
  Unicode.code_point cp →
  Js.length (Unicode.utf8 cp) = if (cp <? 65536)%N then 1%nat else 2%nat.
Proof.
  unfold Unicode.code_point, Unicode.utf8. intros Hcp.
  destruct (N.ltb_spec cp 128) as [H1|H1].
  { destruct (N.ltb_spec cp 65536); [|lia]. cbn [Js.length]. by rewrite units_ascii. }
  destruct (N.ltb_spec cp 2048) as [H2|H2].
  { destruct (N.ltb_spec cp 65536); [|lia]. cbn [Js.length].
    rewrite units_lead by byte_range. by rewrite units_continuation by byte_range. }
  destruct (N.ltb_spec cp 65536) as [H3|H3]; cbn [Js.length].
  - rewrite units_lead by byte_range.
    by rewrite !units_continuation by byte_range.
  - rewrite units_lead_of_four by byte_range.
    by rewrite !units_continuation by byte_range.
Qed.

Lemma length_encode (cps : list N) :
  Forall Unicode.code_point cps → Js.length (Unicode.encode cps) = Unicode.code_units cps.
Proof.
  induction 1 as [|cp cps Hcp _ IH]; [done|].
  rewrite encode_cons, length_app, (length_utf8 cp Hcp), IH. reflexivity.
Qed.


Import Dom Page.

(** ** Deduplication and the title filter of the listing strategies *)

Lemma distinct_by_empty key : distinct_by key ([], ∅).
Proof. split; [constructor | intros r Hr; inversion Hr]. Qed.

Lemma distinct_by_push key rs (seen : gset string) r :
  distinct_by key (rs, seen) → key r ∉ seen →
  distinct_by key ((rs ++ [r])%list, {[ key r ]} ∪ seen).
Proof.
  intros [Hnd Hin] Hfresh; split; simpl in *.
  - rewrite map_app. apply NoDup_app. split; [done|]. split.
    + intros k Hk Hk'. apply list_elem_of_fmap in Hk as [r' [-> Hr']].
      apply Hin in Hr'. simpl in Hk'. apply list_elem_of_singleton in Hk'.
      congruence.
    + simpl. apply NoDup_singleton.
  - intros r' Hr'. apply elem_of_app in Hr' as [Hr'|Hr'].
    + apply Hin in Hr'. set_solver.
    + apply list_elem_of_singleton in Hr'. subst. set_solver.
Qed.

Lemma distinct_by_seen key rs (seen : gset string) k :
  distinct_by key (rs, seen) → distinct_by key (rs, {[ k ]} ∪ seen).
Proof.
  intros [Hnd Hin]; split; [done|].
  intros r Hr. apply Hin in Hr. simpl in *. set_solver.
Qed.

Lemma fold_left_invariant {S A : Type} (P : S → Prop) (f : S → A → S) (l : list A) :
  (∀ s a, P s → P (f s a)) → ∀ s, P s → P (fold_left f l s).
Proof. intros Hf. induction l; simpl; auto. Qed.

Lemma for_each_invariant {S A : Type} (P : S → Prop) (body : S → A → result S)
    (l : list A) :
  (∀ s a s', P s → body s a = Ok s' → P s') →
  ∀ s s', P s → for_each body s l = Ok s' → P s'.
Proof.
  intros Hb. induction l as [|x l IH]; simpl; intros s s' Hs H.
  - by inversion H; subst.
  - destruct (body s x) eqn:Hx; simpl in H; [eauto|done].
Qed.

(** Case analysis on the computations bound in a hypothesis of the form
    [(x ← m; k) = Ok v]. *)
Ltac result_cases H :=
  repeat match type of H with
  | context [mbind _ ?m] =>
      let E := fresh "E" in destruct m eqn:E; simpl in H; [|discriminate H]
  end.

Lemma class_based_step_distinct acc titleEl :
  distinct_by record_signature acc →
  distinct_by record_signature (class_based_step acc titleEl).
Proof.
  destruct acc as [jobs seen]. intros Hacc. unfold class_based_step.
  destruct (Js.truthy _ && negb (bool_decide _)) eqn:Hc; [|done].
  apply andb_true_iff in Hc as [_ Hc]. apply negb_true_iff, bool_decide_eq_false in Hc.
  by apply (distinct_by_push record_signature).
Qed.

Lemma fallback_step_distinct acc element acc' :
  distinct_by link acc → fallback_step acc element = Ok acc' → distinct_by link acc'.
Proof.
  destruct acc as [rs seen]. intros Hacc H. unfold fallback_step in H.
  destruct (querySelector element job_title_sel) as [jt|]; [|by inversion H; subst].
  destruct (fallback_link_element element (Some jt)) as [le|]; [|by inversion H; subst].
  destruct (innerText_trim jt) as [t|] eqn:Et; simpl in H; [|done].
  destruct (Js.truthy t && _ && _ && _) eqn:Hc; [|by inversion H; subst].
  result_cases H. inversion H; subst; clear H.
  apply andb_true_iff in Hc as [Hc _]. apply andb_true_iff in Hc as [_ Hc].
  apply negb_true_iff, bool_decide_eq_false in Hc.
  by apply (distinct_by_push link rs seen (Job _ _ _ _ _ _)).
Qed.

Lemma heading_step_distinct acc heading acc' :
  distinct_by link acc → heading_step acc heading = Ok acc' → distinct_by link acc'.
Proof.
  destruct acc as [rs seen]. intros Hacc H. unfold heading_step in H.
  destruct (innerText_trim heading) as [t|] eqn:Et; simpl in H; [|done].
  destruct (Js.truthy t && _) eqn:Ht; [|by inversion H; subst].
  destruct (heading_link_element heading) as [le|]; [|by inversion H; subst].
  destruct (Js.truthy _ && negb (bool_decide _) && _) eqn:Hc; [|by inversion H; subst].
  apply andb_true_iff in Hc as [Hc _]. apply andb_true_iff in Hc as [_ Hc].
  apply negb_true_iff, bool_decide_eq_false in Hc.
  destruct (negb (existsb _ rs)).
  - destruct (match closest heading heading_parent_sel with Some _ => _ | None => _ end)
      as [[c l] ds].
    inversion H; subst; clear H.
    by apply (distinct_by_push link rs seen (Job _ _ _ _ _ _)).
  - inversion H; subst; clear H. by apply distinct_by_seen.
Qed.

Lemma fallbackResults_inv (P : fallback_state → Prop) (d : document) rs :
  P ([], ∅) →
  (∀ s a s', P s → fallback_step s a = Ok s' → P s') →
  (∀ s a s', P s → heading_step s a = Ok s' → P s') →
  fallbackResults d = Ok rs → ∃ seen, P (rs, seen).
Proof.
  intros H0 Hf Hh H. unfold fallbackResults in H. result_cases H.
  inversion H; subst; clear H. destruct a0 as [rs seen]. exists seen. simpl.
  eapply for_each_invariant in E0; [exact E0|exact Hh|].
  eapply for_each_invariant in E; [exact E|exact Hf|exact H0].
Qed.

Lemma titles_push n rs (seen seen' : gset string) r :
  titles_longer_than n (rs, seen) → n < Js.length (title r) →
  titles_longer_than n ((rs ++ [r])%list, seen').
Proof.
  intros Hrs Hr r' Hr'. simpl in Hr'. apply elem_of_app in Hr' as [Hr'|Hr'].
  - by apply Hrs.
  - apply list_elem_of_singleton in Hr'. by subst.
Qed.

Lemma truthy_not_empty s : Js.truthy s = true → s ≠ "".
Proof. by destruct s. Qed.

Lemma class_based_step_titles acc titleEl :
  titles_not_empty acc → titles_not_empty (class_based_step acc titleEl).
Proof.
  destruct acc as [jobs seen]. intros Hacc. unfold class_based_step.
  destruct (Js.truthy _ && negb (bool_decide _)) eqn:Hc; [|done].
  apply andb_true_iff in Hc as [Hc _].
  intros r Hr. simpl in Hr. apply elem_of_app in Hr as [Hr|Hr]; [by apply Hacc|].
  apply list_elem_of_singleton in Hr. subst r. by apply truthy_not_empty.
Qed.

Lemma fallback_step_titles acc element acc' :
  titles_longer_than 3 acc → fallback_step acc element = Ok acc' →
  titles_longer_than 3 acc'.
Proof.
  destruct acc as [rs seen]. intros Hacc H. unfold fallback_step in H.
  destruct (querySelector element job_title_sel) as [jt|]; [|by inversion H; subst].
  destruct (fallback_link_element element (Some jt)) as [le|]; [|by inversion H; subst].
  destruct (innerText_trim jt) as [t|] eqn:Et; simpl in H; [|done].
  destruct (Js.truthy t && _ && _ && _) eqn:Hc; [|by inversion H; subst].
  result_cases H. inversion H; subst; clear H.
  apply andb_true_iff in Hc as [_ Hc]. apply Nat.ltb_lt in Hc.
  eapply titles_push; [exact Hacc|exact Hc].
Qed.

Lemma heading_step_titles acc heading acc' :
  titles_longer_than 3 acc → heading_step acc heading = Ok acc' →
  titles_longer_than 3 acc'.
Proof.
  destruct acc as [rs seen]. intros Hacc H. unfold heading_step in H.
  destruct (innerText_trim heading) as [t|] eqn:Et; simpl in H; [|done].
  destruct (Js.truthy t && _) eqn:Ht; [|by inversion H; subst].
  apply andb_true_iff in Ht as [_ Ht]. apply Nat.ltb_lt in Ht.
  destruct (heading_link_element heading) as [le|]; [|by inversion H; subst].
  destruct (Js.truthy _ && negb (bool_decide _) && _); [|by inversion H; subst].
  destruct (negb (existsb _ rs)).
  - destruct (match closest heading heading_parent_sel with Some _ => _ | None => _ end)
      as [[c l] ds].
    inversion H; subst; clear H.
    eapply titles_push; [exact Hacc|exact Ht].
  - by inversion H; subst.
Qed.

(** C1 (as amended).  The records of the primary strategy have pairwise
    distinct identity keys, as signatures and as triples of title,
    company and location; the records of the fallback strategy have
    pairwise distinct links. *)
Theorem listing_records_distinct (d : document) :
  NoDup (map record_signature (classBasedResults d)) ∧
  NoDup (map identity (classBasedResults d)) ∧
  (∀ rs, fallbackResults d = Ok rs → NoDup (map link rs)).
Proof.
  assert (Hsig : NoDup (map record_signature (classBasedResults d))).
  { unfold classBasedResults.
    apply (fold_left_invariant (distinct_by record_signature) class_based_step).
    - intros. by apply class_based_step_distinct.
    - apply distinct_by_empty. }
  split; [exact Hsig|]. split.
  - apply (NoDup_fmap_1 (λ i : string * string * string,
                           signature (fst (fst i)) (snd (fst i)) (snd i))).
    rewrite <- list_fmap_compose. exact Hsig.
  - intros rs Hrs.
    destruct (fallbackResults_inv (distinct_by link) d rs) as [seen [Hnd _]]; auto.
    + apply distinct_by_empty.
    + intros. by eapply fallback_step_distinct.
    + intros. by eapply heading_step_distinct.
Qed.

Lemma listing_records_distinct_witness :
  fallbackResults Samples.two_postings = Ok Samples.sample_records ∧
  NoDup (map link Samples.sample_records).
Proof.
  split; [reflexivity|].
  exact (proj2 (proj2 (listing_records_distinct Samples.two_postings)) _ eq_refl).
Defined.

(** C1 (as stated) fails for the fallback strategy: on a page that only
    has the fallback shapes, the same posting reached through two links
    is emitted twice, with one identity, and these two records are the
    record collection of the run. *)
Lemma fallback_repeats_identity :
  classBasedResults Samples.two_postings = [] ∧
  fallbackResults Samples.two_postings = Ok Samples.sample_records ∧
  fst (Pipeline.extractJobs (Samples.showing Samples.two_postings) 0 Pipeline.initial)
    = Ok Samples.sample_records ∧
  ¬ NoDup (map identity Samples.sample_records) ∧
  ¬ NoDup (map record_signature Samples.sample_records).
Proof.
  split; [reflexivity|]. split; [reflexivity|].
  split; [vm_compute; reflexivity|].
  split; intros H; inversion H as [|x l Hx _]; subst; apply Hx; left.
Qed.

(** C2 (as amended).  The primary strategy emits no record with an empty
    title; the fallback strategy, heading scan included, emits no record
    whose title has a length of three or less.  The length is
    [title.length]: the number of the code units of the title, one for a
    character of the Basic Multilingual Plane and two for any other; and
    the title is the trimmed text of its element, so that a title of
    three characters outside ASCII is dropped by the fallback strategy
    and a marker of white space has no title. *)
Theorem title_filter_per_strategy (d : document) :
  (∀ r, r ∈ classBasedResults d → title r ≠ "") ∧
  (∀ rs r, fallbackResults d = Ok rs → r ∈ rs → 3 < Js.length (title r)) ∧
  (∀ cps, Forall Unicode.code_point cps →
          Js.length (Unicode.encode cps) = Unicode.code_units cps) ∧
  fallbackResults Samples.three_character_title = Ok [] ∧
  classBasedResults Samples.blank_title = [].
Proof.
  split; [|split; [|split; [apply length_encode|split; reflexivity]]].
  - intros r Hr.
    assert (H : titles_not_empty (fold_left class_based_step
                  (docQuerySelectorAll d title_marker_sel) ([], ∅))).
    { apply fold_left_invariant.
      - intros. by apply class_based_step_titles.
      - intros r' Hr'. inversion Hr'. }
    by apply H.
  - intros rs r Hrs Hr.
    destruct (fallbackResults_inv (titles_longer_than 3) d rs) as [seen H]; auto.
    + intros r' Hr'. inversion Hr'.
    + intros. by eapply fallback_step_titles.
    + intros. by eapply heading_step_titles.
Qed.

Lemma title_filter_per_strategy_witness :
  Job "QA" "" "" "" "https://jobs.example/qa" "https://jobs.example/qa"
    ∈ classBasedResults Samples.short_title ∧
  "QA" ≠ "" ∧
  3 < Js.length "Software Engineer".
Proof.
  assert (Hin : Job "QA" "" "" "" "https://jobs.example/qa" "https://jobs.example/qa"
                  ∈ classBasedResults Samples.short_title) by (left).
  split; [exact Hin|]. split.
  - exact (proj1 (title_filter_per_strategy Samples.short_title) _ Hin).
  - refine (proj1 (proj2 (title_filter_per_strategy Samples.two_postings)) Samples.sample_records
              (Job "Software Engineer" "Acme" "Colombo" "" "https://jobs.example/a/1"
                   "https://jobs.example/a/1") eq_refl _).
    left.
Defined.

(** C2 (as stated) fails for the primary strategy, which only asks for a
    non-empty title: a two-character title is emitted, and its record
    is the record collection of the run. *)
Lemma primary_emits_short_title :
  classBasedResults Samples.short_title =
    [Job "QA" "" "" "" "https://jobs.example/qa" "https://jobs.example/qa"] ∧
  fst (Pipeline.extractJobs (Samples.showing Samples.short_title) 0 Pipeline.initial)
    = Ok [Job "QA" "" "" "" "https://jobs.example/qa" "https://jobs.example/qa"] ∧
  (Js.length "QA" ≤ 3)%nat.
Proof. split; [reflexivity|]. split; [vm_compute; reflexivity|simpl; lia]. Qed.

(** The length of a title is counted in code units and its white space
    is that of [trim]: a title of three characters outside ASCII is
    dropped by the fallback strategy, and a marker that holds a space, a
    no-break space, an em space and a line feed has no title. *)
Example titles_in_code_units :
  String.length "會計師" = 9 ∧ Js.length "會計師" = 3 ∧
  fallbackResults Samples.three_character_title = Ok [] ∧
  Js.trim Samples.blank = "" ∧
  classBasedResults Samples.blank_title = [].
Proof. repeat split; vm_compute; reflexivity. Qed.

(** ** Link extraction *)

Lemma find_first {A : Type} (p : A → bool) (before : list A) (a : A) (after : list A) :
  Forall (λ b, p b = false) before → p a = true →
  find p (before ++ a :: after) = Some a.
Proof.
  induction 1 as [|b before Hb _ IH]; simpl; intros Ha.
  - by rewrite Ha.
  - rewrite Hb. by apply IH.
Qed.

Lemma find_none {A : Type} (p : A → bool) (l : list A) :
  Forall (λ b, p b = false) l → find p l = None.
Proof. induction 1 as [|b l Hb _ IH]; simpl; [done|by rewrite Hb]. Qed.

Lemma includes_or_false (s w : string) (b : bool) :
  Js.includes s w || b = false → Js.includes s w = false ∧ b = false.
Proof. apply orb_false_iff. Qed.

Lemma or_else_empty (s : string) : Js.or_else s "" = s.
Proof. unfold Js.or_else, Js.truthy. by destruct s. Qed.

(** The link of a record of the primary strategy is the href of the
    special-class anchor of its card or, without one, of the first
    [a[href]] anchor; [applyLink] is taken only when that href is
    empty. *)
Lemma class_based_link (titleEl : node) :
  let jobCard := or_node (closest titleEl job_card_sel) (parentElement titleEl) in
  let linkEl := or_node (query_in jobCard special_sel) (query_in jobCard anchor_sel) in
  applyLink (class_based_record titleEl) = findApplyLink jobCard ∧
  (Js.truthy (href_of linkEl) = true → link (class_based_record titleEl) = href_of linkEl) ∧
  (Js.truthy (href_of linkEl) = false →
     link (class_based_record titleEl) = findApplyLink jobCard).
Proof.
  intros jobCard linkEl. split; [reflexivity|].
  assert (Hl : link (class_based_record titleEl)
             = Js.or_else (href_of linkEl) (Js.or_else (findApplyLink jobCard) ""))
    by reflexivity.
  rewrite Hl. split; intros H; unfold Js.or_else at 1; rewrite H; [done|].
  apply or_else_empty.
Qed.

(** C4 (as amended).  [findApplyLink], which fills [applyLink], returns
    the href of the special-class anchor when the container has one with
    an href; otherwise the href of the first [a[href]] anchor that passes
    the test of the anchor loop; otherwise the href of the first
    [a[href]] anchor (the empty string without one).  An anchor passes
    the test exactly when its trimmed visible text contains apply, view
    job or learn more, or its label contains apply or view job, case
    apart; the heuristic of the specification accepts, besides these,
    the anchors whose label contains learn more.  The [link] field of a
    record of the primary strategy is the href of the special-class
    anchor or, without one, of the first anchor of the card, and is
    [applyLink] only when that href is empty.  For the anchors
    Home → A, Apply Now → B, [applyLink] is B and [link] is A. *)
Theorem findApplyLink_priority (root : node) :
  let special := querySelector root special_sel in
  let anchors := querySelectorAll root anchor_sel in
  (Js.truthy (href_of special) = true → findApplyLink (Some root) = href_of special) ∧
  (Js.truthy (href_of special) = false →
     (∀ before a after,
         anchors = before ++ a :: after →
         Forall (λ b, is_apply_anchor b = false) before →
         is_apply_anchor a = true →
         findApplyLink (Some root) = href_of (Some a)) ∧
     (Forall (λ b, is_apply_anchor b = false) anchors →
      findApplyLink (Some root) = href_of (head anchors))) ∧
  (∀ a, is_apply_anchor a = true → Spec.spec_preferred a = true) ∧
  findApplyLink (Some Samples.home_apply_node) = "https://b.example/apply" ∧
  link (class_based_record Samples.home_apply_marker) = "https://a.example/" ∧
  applyLink (class_based_record Samples.home_apply_marker) = "https://b.example/apply" ∧
  (∀ a,
     let text := Js.toLowerCase (text_of (Some a)) in
     let label := Js.toLowerCase (default "" (getAttribute a "aria-label")) in
     (is_apply_anchor a = true ↔
        Js.includes text "apply" = true ∨ Js.includes text "view job" = true ∨
        Js.includes text "learn more" = true ∨
        Js.includes label "apply" = true ∨ Js.includes label "view job" = true) ∧
     Spec.spec_preferred a = is_apply_anchor a || Js.includes label "learn more") ∧
  findApplyLink None = "" ∧
  (∀ titleEl,
     let jobCard := or_node (closest titleEl job_card_sel) (parentElement titleEl) in
     let linkEl := or_node (query_in jobCard special_sel) (query_in jobCard anchor_sel) in
     applyLink (class_based_record titleEl) = findApplyLink jobCard ∧
     (Js.truthy (href_of linkEl) = true →
        link (class_based_record titleEl) = href_of linkEl) ∧
     (Js.truthy (href_of linkEl) = false →
        link (class_based_record titleEl) = findApplyLink jobCard)).
Proof.
  intros special anchors.
  split; [|split; [|split; [|split; [|split; [|split; [|split; [|split]]]]]]].
  - intros Hs. unfold findApplyLink. fold special. by rewrite Hs.
  - intros Hs. split.
    + intros before a after Hl Hb Ha. unfold findApplyLink. fold special anchors.
      rewrite Hs, Hl. by rewrite find_first.
    + intros Hn. unfold findApplyLink. fold special anchors.
      rewrite Hs. by rewrite find_none.
  - intros a. unfold is_apply_anchor, Spec.spec_preferred, Spec.vocabulary.
    cbv zeta. cbn [existsb].
    repeat match goal with
           | |- context [Js.includes ?x ?y] => destruct (Js.includes x y)
           end; simpl; done.
  - reflexivity.
  - reflexivity.
  - reflexivity.
  - intros a text label. split.
    + unfold is_apply_anchor. fold text label. rewrite !orb_true_iff. tauto.
    + unfold is_apply_anchor, Spec.spec_preferred, Spec.vocabulary.
      fold text label. cbn [existsb].
      repeat match goal with
             | |- context [Js.includes ?x ?y] => destruct (Js.includes x y)
             end; reflexivity.
  - reflexivity.
  - apply class_based_link.
Qed.

Lemma findApplyLink_priority_witness :
  findApplyLink (Some Samples.apply_then_button) = "https://c.example/" ∧
  findApplyLink (Some Samples.home_apply_node) = "https://b.example/apply" ∧
  findApplyLink (Some Samples.labelled_learn_more) = "https://a.example/".
Proof.
  split; [|split].
  - exact (proj1 (findApplyLink_priority Samples.apply_then_button) eq_refl).
  - refine (proj1 (proj1 (proj2 (findApplyLink_priority Samples.home_apply_node)) eq_refl)
              [_] _ [] eq_refl _ eq_refl).
    repeat constructor.
  - refine (proj2 (proj1 (proj2 (findApplyLink_priority Samples.labelled_learn_more)) eq_refl) _).
    repeat constructor.
Defined.

(** C4 (as stated) fails: an anchor of the special class is returned
    before an earlier apply anchor, and in the claim's own example the
    [link] field of the record is A, not B. *)
Lemma link_extraction_not_preferred_anchor :
  Spec.spec_link Samples.apply_then_button = "https://b.example/apply" ∧
  findApplyLink (Some Samples.apply_then_button) = "https://c.example/" ∧
  Spec.spec_link Samples.home_apply_node = "https://b.example/apply" ∧
  link (class_based_record Samples.home_apply_marker) = "https://a.example/".
Proof. repeat split. Qed.

(** ** Redirect unwrapping *)

Lemma includes_cons (c : ascii) (s w : string) :
  Js.includes (String c s) w = false → Js.includes s w = false.
Proof. simpl. intros H. by apply orb_false_iff in H as [_ H]. Qed.

Lemma includes_head (c a : ascii) (s : string) :
  Js.includes (String a s) (String c "") = false → Ascii.eqb c a = false.
Proof.
  simpl. intros H. apply orb_false_iff in H as [H _].
  destruct (Ascii.eqb c a); [|done]. by destruct s.
Qed.

Lemma cut_absent (c : ascii) (s : string) :
  Js.includes s (String c "") = false → Url.cut c s = (s, None).
Proof.
  induction s as [|a s IH]; [done|]. intros H. simpl.
  pose proof (includes_head _ _ _ H) as Hc. rewrite Ascii.eqb_sym in Hc. rewrite Hc.
  by rewrite (IH (includes_cons _ _ _ H)).
Qed.












(** ** Reasoning about runs *)

Import Browser Pipeline Trace.

Lemma bind_ok {A B : Type} (m : M A) (f : A → M B) st a st' :
  m st = (Ok a, st') → (m ≫= f) st = f a st'.
Proof. intros H. unfold mbind, M_bind. by rewrite H. Qed.

Lemma bind_throw {A B : Type} (m : M A) (f : A → M B) st e st' :
  m st = (Throw e, st') → (m ≫= f) st = (Throw e, st').
Proof. intros H. unfold mbind, M_bind. by rewrite H. Qed.

Lemma extend_extend evs1 evs2 st : extend evs2 (extend evs1 st) = extend (evs1 ++ evs2) st.
Proof. unfold extend. simpl. by rewrite app_assoc. Qed.

Lemma extend_nil st : extend [] st = st.
Proof. destruct st. unfold extend. simpl. by rewrite app_nil_r. Qed.

Lemma log_run line st : log line st = (Ok tt, extend [Logged line] st).
Proof. reflexivity. Qed.

Lemma for_each_record p (actions : list action) st :
  for_each_M (λ act, record (Acted p act)) actions st
  = (Ok tt, extend (map (Acted p) actions) st).
Proof.
  revert st. induction actions as [|a actions IH]; intros st; simpl.
  - by rewrite extend_nil.
  - unfold mbind, M_bind. simpl. rewrite IH. by rewrite extend_extend.
Qed.

(** The three ways an evaluation ends: with the value of the page
    function, with an exception of the page function, with an exception
    of the browser. *)
Lemma evaluate_ok env {A : Type} p (f : page_function A) st d a actions :
  respond env (history st) _ (Evaluate p f) = Ok d →
  run_function f d = (actions, Ok a) →
  evaluate env p f st
  = (Ok a, extend (Called (Evaluate p f) (Ok d) :: map (Acted p) actions) st).
Proof.
  intros Hd Hf. unfold evaluate, perform, mbind, M_bind. rewrite Hd, Hf.
  rewrite for_each_record. by rewrite extend_extend.
Qed.

Lemma evaluate_throws env {A : Type} p (f : page_function A) st d e actions :
  respond env (history st) _ (Evaluate p f) = Ok d →
  run_function f d = (actions, Throw e) →
  evaluate env p f st
  = (Throw e, extend (Called (Evaluate p f) (Ok d) :: map (Acted p) actions) st).
Proof.
  intros Hd Hf. unfold evaluate, perform, mbind, M_bind. rewrite Hd, Hf.
  rewrite for_each_record. by rewrite extend_extend.
Qed.

Lemma evaluate_fails env {A : Type} p (f : page_function A) st e :
  respond env (history st) _ (Evaluate p f) = Throw e →
  evaluate env p f st = (Throw e, extend [Called (Evaluate p f) (Throw e)] st).
Proof. intros Hd. unfold evaluate, perform, mbind, M_bind. by rewrite Hd. Qed.

(** *** Computations that always return *)

Lemma total_ret {A : Type} (a : A) : total (mret a : M A).
Proof. intros st. by exists a, st. Qed.

Lemma total_bind {A B : Type} (m : M A) (f : A → M B) :
  total m → (∀ a, total (f a)) → total (m ≫= f).
Proof.
  intros Hm Hf st. destruct (Hm st) as (a & st' & H).
  rewrite (bind_ok _ _ _ _ _ H). apply Hf.
Qed.

(** A [try] block whose handler returns, returns. *)
Lemma total_try_catch {A : Type} (m : M A) (handler : string → M A) :
  (∀ e, total (handler e)) → total (try_catch m handler).
Proof.
  intros Hh st. unfold try_catch. destruct (m st) as [[a|e] st'].
  - by exists a, st'.
  - apply Hh.
Qed.

Lemma total_for_each {A : Type} (body : A → M unit) (l : list A) :
  (∀ a, total (body a)) → total (for_each_M body l).
Proof.
  intros Hb. induction l as [|x l IH]; simpl.
  - apply total_ret.
  - apply total_bind; [apply Hb|by intros _].
Qed.

Lemma total_when (b : bool) (m : M unit) : total m → total (when b m).
Proof. destruct b; [done|intros _; apply total_ret]. Qed.

Lemma total_record ev : total (record ev).
Proof. intros st. by eexists _, _. Qed.

Lemma total_log line : total (log line).
Proof. apply total_record. Qed.

Lemma total_get {A : Type} (field : state → A) : total (get field).
Proof. intros st. by eexists _, _. Qed.

Lemma total_set_jobsTabNavigated b : total (set_jobsTabNavigated b).
Proof. intros st. by eexists _, _. Qed.

Lemma total_url_of env p : total (url_of env p).
Proof. intros st. by eexists _, _. Qed.

Create HintDb total discriminated.
#[local] Hint Resolve total_ret total_try_catch total_for_each total_when total_record
  total_log total_get total_set_jobsTabNavigated total_url_of : total.

(** Totality of a composite computation, by its structure. *)
Ltac totality :=
  repeat first
    [ solve [auto with total]
    | apply total_bind; [|intros ?]
    | apply total_try_catch; intros ?
    | apply total_for_each; intros ?
    | apply total_when
    | match goal with
      | |- total (if ?b then _ else _) => destruct b
      | |- total (match ?x with _ => _ end) => destruct x
      | |- total (let '(_, _) := ?x in _) => destruct x
      end ].

Lemma total_lookup env query : total (getFirstGoogleResultLink env query).
Proof. unfold getFirstGoogleResultLink. totality. Qed.

#[local] Hint Resolve total_lookup : total.

Lemma total_navigateToJobs env page tabs : total (navigateToJobs env page tabs).
Proof. unfold navigateToJobs. totality. Qed.

Lemma total_clickMoreJobs env page : total (clickMoreJobs env page).
Proof. unfold clickMoreJobs. totality. Qed.

Lemma total_summarise env r : total (summarise env r).
Proof. unfold summarise. totality. Qed.

#[local] Hint Resolve total_summarise : total.

Lemma total_printSummary env page results : total (printSummary env page results).
Proof. unfold printSummary. totality. Qed.

Lemma total_drillDown env page : total (drillDown env page).
Proof. unfold drillDown. totality. Qed.

Lemma total_printOpenedJobLinks : total printOpenedJobLinks.
Proof. unfold printOpenedJobLinks. totality. Qed.

Lemma total_printOpenedJobDetails : total printOpenedJobDetails.
Proof. unfold printOpenedJobDetails, print_detail, print_detail_anchor. totality. Qed.

Lemma total_collectJobTexts env page : total (collectJobTexts env page).
Proof. unfold collectJobTexts. totality. Qed.

(** *** What a computation does to the state *)

#[local] Instance grows_by_preorder (P : event → Prop) : PreOrder (grows_by P).
Proof.
  split.
  - intros st. exists []. by rewrite app_nil_r.
  - intros s1 s2 s3 (e1 & H1 & P1) (e2 & H2 & P2). exists (e1 ++ e2). split.
    + by rewrite H2, H1, app_assoc.
    + by apply Forall_app.
Qed.

#[local] Instance keeps_details_preorder : PreOrder keeps_details.
Proof. split; unfold keeps_details; [done|]. intros s1 s2 s3 H1 H2. by rewrite H2. Qed.

#[local] Instance keeps_search_page_preorder : PreOrder keeps_search_page.
Proof.
  split.
  - intros st p Hp. exact Hp.
  - intros s1 s2 s3 H1 H2 p Hp. apply H2, H1, Hp.
Qed.

Section Sat.
Context (Q : state → state → Prop) `{!PreOrder Q}.

Lemma sat_ret {A : Type} (a : A) : sat Q (mret a : M A).
Proof. intros st. simpl. reflexivity. Qed.

Lemma sat_bind {A B : Type} (m : M A) (f : A → M B) :
  sat Q m → (∀ a, sat Q (f a)) → sat Q (m ≫= f).
Proof.
  intros Hm Hf st. specialize (Hm st). unfold mbind, M_bind.
  destruct (m st) as [[a|e] st1]; simpl in *; [|done].
  etransitivity; [exact Hm|apply Hf].
Qed.

Lemma sat_try_catch {A : Type} (m : M A) (handler : string → M A) :
  sat Q m → (∀ e, sat Q (handler e)) → sat Q (try_catch m handler).
Proof.
  intros Hm Hh st. specialize (Hm st). unfold try_catch.
  destruct (m st) as [[a|e] st1]; simpl in *; [done|].
  etransitivity; [exact Hm|apply Hh].
Qed.

Lemma sat_for_each {A : Type} (body : A → M unit) (l : list A) :
  (∀ a, sat Q (body a)) → sat Q (for_each_M body l).
Proof.
  intros Hb. induction l as [|x l IH]; simpl.
  - apply sat_ret.
  - apply sat_bind; [apply Hb|by intros _].
Qed.

Lemma sat_when (b : bool) (m : M unit) : sat Q m → sat Q (when b m).
Proof. destruct b; [done|intros _; apply sat_ret]. Qed.

Lemma sat_get {A : Type} (field : state → A) : sat Q (get field).
Proof. intros st. simpl. reflexivity. Qed.

Lemma sat_url_of env p : sat Q (url_of env p).
Proof. intros st. simpl. reflexivity. Qed.

Lemma sat_throw {A : Type} e : sat Q (throw e : M A).
Proof. intros st. simpl. reflexivity. Qed.

End Sat.

(** The structure of a computation, down to its primitive steps. *)
Ltac structure :=
  repeat first
    [ apply sat_bind; [typeclasses eauto| |intros ?]
    | apply sat_try_catch; [typeclasses eauto| |intros ?]
    | apply sat_for_each; [typeclasses eauto|intros ?]
    | apply sat_when; [typeclasses eauto|]
    | apply sat_ret; typeclasses eauto
    | apply sat_get; typeclasses eauto
    | apply sat_url_of; typeclasses eauto
    | apply sat_throw; typeclasses eauto
    | match goal with
      | |- sat _ (if ?b then _ else _) => destruct b
      | |- sat _ (match ?x with _ => _ end) => destruct x
      | |- sat _ (let '(_, _) := ?x in _) => destruct x
      end ].

(** Steps that leave the history alone. *)
Lemma grows_set_searchPage P p : sat (grows_by P) (set_searchPage p).
Proof. intros st. exists []. simpl. by rewrite app_nil_r. Qed.

Lemma grows_set_jobsTabNavigated P b : sat (grows_by P) (set_jobsTabNavigated b).
Proof. intros st. exists []. simpl. by rewrite app_nil_r. Qed.

Lemma grows_push_openedJobLink P x : sat (grows_by P) (push_openedJobLink x).
Proof. intros st. exists []. simpl. by rewrite app_nil_r. Qed.

Lemma grows_push_openedJobDetail P x : sat (grows_by P) (push_openedJobDetail x).
Proof. intros st. exists []. simpl. by rewrite app_nil_r. Qed.

Lemma grows_record (P : event → Prop) ev : P ev → sat (grows_by P) (record ev).
Proof. intros H st. exists [ev]. simpl. split; [done|by constructor]. Qed.

Lemma grows_log (P : event → Prop) line : P (Logged line) → sat (grows_by P) (log line).
Proof. apply grows_record. Qed.

Lemma grows_perform (P : event → Prop) env {T : Type} (c : call T) :
  (∀ r, P (Called c r)) → sat (grows_by P) (perform env c).
Proof. intros H st. eexists [_]. simpl. split; [done|]. constructor; [apply H|done]. Qed.

Lemma grows_evaluate (P : event → Prop) env {A : Type} p (f : page_function A) :
  (∀ r, P (Called (Evaluate p f) r)) → (∀ a, P (Acted p a)) →
  sat (grows_by P) (evaluate env p f).
Proof.
  intros Hc Ha. unfold evaluate.
  apply sat_bind; [typeclasses eauto|by apply grows_perform|intros d].
  destruct (run_function f d) as [actions [a|e]]; structure; by apply grows_record.
Qed.

(** Steps that leave the collected details alone. *)
Lemma keeps_record ev : sat keeps_details (record ev).
Proof. by intros st. Qed.

Lemma keeps_perform env {T : Type} (c : call T) : sat keeps_details (perform env c).
Proof. by intros st. Qed.

Lemma keeps_set_searchPage p : sat keeps_details (set_searchPage p).
Proof. by intros st. Qed.

Lemma keeps_set_jobsTabNavigated b : sat keeps_details (set_jobsTabNavigated b).
Proof. by intros st. Qed.

Lemma keeps_push_openedJobLink x : sat keeps_details (push_openedJobLink x).
Proof. by intros st. Qed.

Lemma keeps_evaluate env {A : Type} p (f : page_function A) :
  sat keeps_details (evaluate env p f).
Proof.
  unfold evaluate.
  apply sat_bind; [typeclasses eauto|apply keeps_perform|intros d].
  destruct (run_function f d) as [actions [a|e]]; structure; apply keeps_record.
Qed.

(** The primitive steps of a computation whose history grows. *)
Ltac grows :=
  repeat first
    [ progress structure
    | apply grows_log
    | apply grows_record
    | apply grows_perform; intros ?
    | apply grows_evaluate; intros ?
    | apply grows_set_searchPage
    | apply grows_set_jobsTabNavigated
    | apply grows_push_openedJobLink
    | apply grows_push_openedJobDetail ].

Ltac keeps :=
  repeat first
    [ progress structure
    | apply keeps_record
    | apply keeps_perform
    | apply keeps_evaluate
    | apply keeps_set_searchPage
    | apply keeps_set_jobsTabNavigated
    | apply keeps_push_openedJobLink ].

(** The stages of the summary, unfolded to their steps. *)
Ltac unfold_summary :=
  unfold summaryStage, prepareListing, listTabs, print_tab, navigateToJobs,
    after_jobs_click, clickMoreJobs, printMarkerTexts, extractJobs, printSummary,
    summarise, getFirstGoogleResultLink, getSearchPage, configurePage,
    dismissConsentIfPresent, closeBrowser, log.

(** The stages that follow the summary, unfolded to their steps. *)
Ltac unfold_detail :=
  unfold fullDetail, drillDown, openJob, print_anchor, printOpenedJobLinks,
    printOpenedJobDetails, print_detail, print_detail_anchor, collectJobTexts,
    print_job_text, closeBrowser, log.

Lemma summaryStage_no_detail env page : sat (grows_by not_detail) (summaryStage env page).
Proof. unfold_summary. grows; reflexivity. Qed.

Lemma summaryStage_keeps_details env page : sat keeps_details (summaryStage env page).
Proof. unfold_summary. keeps. Qed.

Lemma closeBrowser_no_detail env : sat (grows_by not_detail) (closeBrowser env).
Proof. unfold_summary. grows; reflexivity. Qed.

Lemma closeBrowser_keeps_details env : sat keeps_details (closeBrowser env).
Proof. unfold_summary. keeps. Qed.

(** ** The empty-query guard of the enrichment lookup *)

(** C10.  For a query that is empty or made of white space only (the
    white space and the line terminators of the language, U+00A0,
    U+FEFF and the space separators included), the lookup returns the
    empty string at once: the state, and with it the history of browser
    calls, is unchanged, whatever the browser.  These are the queries of
    which [trim] leaves nothing. *)
Theorem empty_query_returns_at_once (env : environment) (query : string) (st : state) :
  (Unicode.white_space_only query → getFirstGoogleResultLink env query st = (Ok "", st)) ∧
  (Unicode.white_space_only query ↔ Js.trim query = "") ∧
  (Unicode.white_space_only query ↔ Js.all_white_space query = true).
Proof.
  split; [|split].
  - intros H. apply all_white_space_spec in H. unfold getFirstGoogleResultLink.
    by rewrite (trim_all_white_space _ H).
  - by rewrite <- all_white_space_spec, all_white_space_trim.
  - by rewrite all_white_space_spec.
Qed.

Lemma empty_query_returns_at_once_witness :
  Unicode.white_space_only Samples.blank ∧
  getFirstGoogleResultLink (Samples.showing Samples.six_cards) Samples.blank initial
  = (Ok "", initial).
Proof.
  assert (Hb : Unicode.white_space_only Samples.blank).
  { exists [32; 160; 8195; 10]%N. split; [repeat constructor|reflexivity]. }
  split; [exact Hb|].
  exact (proj1 (empty_query_returns_at_once (Samples.showing Samples.six_cards)
                  Samples.blank initial) Hb).
Defined.

(** Characters that look blank and are no white space make a query:
    U+200B, U+0085 and U+180E. *)
Example zero_width_space_is_a_query :
  Js.all_white_space Samples.not_blank = false ∧
  Js.trim Samples.not_blank = Samples.not_blank ∧
  map snd (gotos (history (snd (getFirstGoogleResultLink
                                  (Samples.showing Samples.six_cards)
                                  Samples.not_blank initial))))
  = [ "https://www.google.com/search?q=%E2%80%8B%C2%85%E1%A0%8E&hl=en" ].
Proof. repeat split; vm_compute; reflexivity. Qed.

(** ** The listing strategy chain *)

Lemma length_zero_iff {A : Type} (l : list A) : (length l =? 0)%nat = true ↔ l = [].
Proof. destruct l; simpl; split; congruence. Qed.

Lemma extractJobs_primary env page st d :
  respond env (asked_primary st) _ (Evaluate page FnClassBasedResults) = Ok d →
  classBasedResults d ≠ [] →
  ∃ st', extractJobs env page st = (Ok (classBasedResults d), st') ∧
         history st' = asked_primary st ++ [Called (Evaluate page FnClassBasedResults) (Ok d)].
Proof.
  intros Hd Hne. unfold extractJobs.
  rewrite (bind_ok _ _ _ _ _ (log_run _ _)).
  rewrite (bind_ok _ _ _ _ _
             (evaluate_ok env page FnClassBasedResults
                (extend [Logged "Extracting job list using provided classes..."] st)
                d _ [] Hd eq_refl)).
  destruct (classBasedResults d) as [|r rs] eqn:E; [done|].
  eexists. split; reflexivity.
Qed.

Lemma extractJobs_fallback env page st d d' rs :
  respond env (asked_primary st) _ (Evaluate page FnClassBasedResults) = Ok d →
  classBasedResults d = [] →
  respond env (asked_fallback page st d) _ (Evaluate page FnFallbackResults) = Ok d' →
  fallbackResults d' = Ok rs →
  ∃ st', extractJobs env page st = (Ok rs, st') ∧
         history st' = asked_fallback page st d ++
                       [Called (Evaluate page FnFallbackResults) (Ok d')].
Proof.
  intros Hd He Hd' Hrs. unfold extractJobs.
  rewrite (bind_ok _ _ _ _ _ (log_run _ _)).
  rewrite (bind_ok _ _ _ _ _
             (evaluate_ok env page FnClassBasedResults
                (extend [Logged "Extracting job list using provided classes..."] st)
                d _ [] Hd eq_refl)).
  rewrite He. cbn [length Nat.eqb map].
  rewrite (bind_ok _ _ _ _ _ (log_run _ _)).
  assert (Hf : run_function FnFallbackResults d' = ([], Ok rs)).
  { unfold run_function. by rewrite Hrs. }
  rewrite (evaluate_ok env page FnFallbackResults
             (extend [Logged "No jobs found via provided classes, using fallback extraction..."]
                (extend [Called (Evaluate page FnClassBasedResults) (Ok d)]
                   (extend [Logged "Extracting job list using provided classes..."] st)))
             d' rs [] Hd' Hf).
  eexists. split; reflexivity.
Qed.

(** C9.  The primary strategy is evaluated first.  When it yields a
    record, its records are the run's record collection and the stage
    ends with that evaluation: the fallback strategy is not evaluated.
    When it yields none, the fallback strategy is evaluated next and its
    records are the run's record collection as they are. *)
Theorem strategy_chain_short_circuits (env : environment) (page : page_id)
    (st : state) (d : Dom.document) :
  respond env (asked_primary st) _ (Evaluate page FnClassBasedResults) = Ok d →
  (classBasedResults d ≠ [] →
     ∃ st', extractJobs env page st = (Ok (classBasedResults d), st') ∧
            history st' =
              asked_primary st ++ [Called (Evaluate page FnClassBasedResults) (Ok d)] ∧
            filter is_fallback_event (history st') = filter is_fallback_event (history st)) ∧
  (classBasedResults d = [] →
     ∀ d' rs,
       respond env (asked_fallback page st d) _ (Evaluate page FnFallbackResults) = Ok d' →
       fallbackResults d' = Ok rs →
       ∃ st', extractJobs env page st = (Ok rs, st') ∧
              history st' =
                asked_fallback page st d ++ [Called (Evaluate page FnFallbackResults) (Ok d')]).
Proof.
  intros Hd. split.
  - intros Hne. destruct (extractJobs_primary env page st d Hd Hne) as (st' & Hrun & Hh).
    exists st'. split; [done|]. split; [done|].
    rewrite Hh. unfold asked_primary. rewrite !filter_app. simpl.
    by rewrite !app_nil_r.
  - intros He d' rs Hd' Hrs. by apply extractJobs_fallback.
Qed.

Lemma strategy_chain_short_circuits_witness :
  fst (extractJobs (Samples.showing Samples.home_apply) 0 initial)
    = Ok (classBasedResults Samples.home_apply) ∧
  fst (extractJobs (Samples.showing Samples.two_postings) 0 initial)
    = Ok Samples.sample_records.
Proof.
  split.
  - destruct (proj1 (strategy_chain_short_circuits (Samples.showing Samples.home_apply) 0
                       initial Samples.home_apply eq_refl))
      as (st' & H & _); [discriminate|].
    by rewrite H.
  - destruct (proj2 (strategy_chain_short_circuits (Samples.showing Samples.two_postings) 0
                       initial Samples.two_postings eq_refl)
                eq_refl Samples.two_postings Samples.sample_records eq_refl eq_refl)
      as (st' & H & _).
    by rewrite H.
Defined.

(** ** Exceptions and stage boundaries *)

Lemma extractJobs_fails env page st e :
  respond env (asked_primary st) _ (Evaluate page FnClassBasedResults) = Throw e →
  extractJobs env page st
  = (Throw e, extend [Logged "Extracting job list using provided classes...";
                      Called (Evaluate page FnClassBasedResults) (Throw e)] st).
Proof.
  intros He. unfold extractJobs.
  rewrite (bind_ok _ _ _ _ _ (log_run _ _)).
  rewrite (bind_throw _ _ _ _ _
             (evaluate_fails env page FnClassBasedResults
                (extend [Logged "Extracting job list using provided classes..."] st) e He)).
  by rewrite extend_extend.
Qed.

Lemma run_ends_where_extraction_throws env page b st st1 e st2 :
  prepareListing env page st = (Ok tt, st1) →
  extractJobs env page st1 = (Throw e, st2) →
  openChromeAndSearch env page b st = (Throw e, st2) ∧
  main env page b st = (Ok tt, extend [LoggedError e] st2).
Proof.
  intros Hp He.
  assert (H : openChromeAndSearch env page b st = (Throw e, st2)).
  { unfold openChromeAndSearch, summaryStage.
    apply bind_throw. rewrite (bind_ok _ _ _ _ _ Hp). by apply bind_throw. }
  split; [exact H|]. unfold main, try_catch. by rewrite H.
Qed.

Lemma main_returns env page b : total (main env page b).
Proof. unfold main. totality. Qed.

(** X15.  Where exceptions end.  The navigation to the Jobs view, the
    pagination step, the enrichment lookups and the summary, the detail
    drill-down and the text listing return whatever the browser does:
    what is thrown inside them is caught and logged there.  The
    evaluation of the listing strategies is not guarded: an exception of
    it leaves [openChromeAndSearch] at that point, and the top-level
    handler logs it and nothing else. *)
Theorem exceptions_by_stage (env : environment) (page : page_id) :
  (∀ tabs, total (navigateToJobs env page tabs)) ∧
  total (clickMoreJobs env page) ∧
  (∀ query, total (getFirstGoogleResultLink env query)) ∧
  (∀ results, total (printSummary env page results)) ∧
  total (drillDown env page) ∧
  total (collectJobTexts env page) ∧
  (∀ b, total (main env page b)) ∧
  (∀ st e,
      respond env (asked_primary st) _ (Evaluate page FnClassBasedResults) = Throw e →
      fst (extractJobs env page st) = Throw e) ∧
  (∀ b st st1 e st2,
      prepareListing env page st = (Ok tt, st1) →
      extractJobs env page st1 = (Throw e, st2) →
      openChromeAndSearch env page b st = (Throw e, st2) ∧
      main env page b st = (Ok tt, extend [LoggedError e] st2)).
Proof.
  repeat split.
  - apply total_navigateToJobs.
  - apply total_clickMoreJobs.
  - apply total_lookup.
  - apply total_printSummary.
  - apply total_drillDown.
  - apply total_collectJobTexts.
  - apply main_returns.
  - intros st e He. by rewrite (extractJobs_fails env page st e He).
  - by destruct (run_ends_where_extraction_throws env page b st st1 e st2).
  - by destruct (run_ends_where_extraction_throws env page b st st1 e st2).
Qed.

Lemma exceptions_by_stage_witness :
  fst (extractJobs (Samples.failing_listing Samples.two_postings) 0 initial)
    = Throw Samples.context_destroyed ∧
  fst (openChromeAndSearch (Samples.failing_listing Samples.two_postings) 0 true initial)
    = Throw Samples.context_destroyed.
Proof.
  pose proof (exceptions_by_stage (Samples.failing_listing Samples.two_postings) 0)
    as (_ & _ & _ & _ & _ & _ & _ & Hfails & Hends).
  split.
  - exact (Hfails initial Samples.context_destroyed eq_refl).
  - assert (Hp : prepareListing (Samples.failing_listing Samples.two_postings) 0 initial
               = (Ok tt, snd (prepareListing (Samples.failing_listing Samples.two_postings)
                                0 initial))) by (vm_compute; reflexivity).
    assert (He : extractJobs (Samples.failing_listing Samples.two_postings) 0
                   (snd (prepareListing (Samples.failing_listing Samples.two_postings)
                           0 initial))
               = (Throw Samples.context_destroyed,
                  snd (extractJobs (Samples.failing_listing Samples.two_postings) 0
                         (snd (prepareListing (Samples.failing_listing Samples.two_postings)
                                 0 initial))))) by (vm_compute; reflexivity).
    destruct (Hends true _ _ _ _ Hp He) as [H _]. by rewrite H.
Defined.

(** C5, on a browser in which the evaluation of the primary listing
    strategy is rejected.  The stage does not swallow the exception: it
    leaves the run in either mode, the top-level handler logs it, no
    line of the summary is ever written, and the browser is never
    closed. *)
Theorem listing_exception_ends_run :
  fst (openChromeAndSearch (Samples.failing_listing Samples.two_postings) 0 true initial)
    = Throw Samples.context_destroyed ∧
  fst (openChromeAndSearch (Samples.failing_listing Samples.two_postings) 0 false initial)
    = Throw Samples.context_destroyed ∧
  filter (λ line, is_title_line line)
    (logged (history (snd (main (Samples.failing_listing Samples.two_postings) 0 true initial))))
    = [] ∧
  last (history (snd (main (Samples.failing_listing Samples.two_postings) 0 true initial)))
    = Some (LoggedError Samples.context_destroyed) ∧
  filter (λ ev, is_close_event ev)
    (history (snd (main (Samples.failing_listing Samples.two_postings) 0 true initial)))
    = [].
Proof. repeat split; vm_compute; reflexivity. Qed.

(** ** Enrichment lookups of the summary *)

(** The query the summary builds is the trimmed title + " " + company. *)
Lemma query_form (r : JobRecord) :
  Js.trim (String.concat " " (searchQueryParts r)) = lookup_query r.
Proof.
  unfold searchQueryParts, lookup_query.
  destruct (title r) as [|a t], (company r) as [|b c]; try reflexivity.
  change (Js.trim (String a t) = Js.trim (String a t ++ " ")).
  by rewrite trim_app_space.
Qed.

Lemma gotos_app evs1 evs2 : gotos (evs1 ++ evs2) = gotos evs1 ++ gotos evs2.
Proof. apply omap_app. Qed.

Lemma opened_app evs1 evs2 : opened (evs1 ++ evs2) = opened evs1 ++ opened evs2.
Proof. apply omap_app. Qed.

Lemma logged_app evs1 evs2 : logged (evs1 ++ evs2) = logged evs1 ++ logged evs2.
Proof. apply omap_app. Qed.

Lemma quiet_gotos evs : Forall quiet evs → gotos evs = [].
Proof.
  induction 1 as [|ev evs (Hg & _ & _) _ IH]; [done|].
  change (ev :: evs) with ([ev] ++ evs). by rewrite gotos_app, Hg, IH.
Qed.

Lemma quiet_opened evs : Forall quiet evs → opened evs = [].
Proof.
  induction 1 as [|ev evs (_ & Ho & _) _ IH]; [done|].
  change (ev :: evs) with ([ev] ++ evs). by rewrite opened_app, Ho, IH.
Qed.

Lemma quiet_logged evs : Forall quiet evs → logged evs = [].
Proof.
  induction 1 as [|ev evs (_ & _ & Hl) _ IH]; [done|].
  change (ev :: evs) with ([ev] ++ evs). by rewrite logged_app, Hl, IH.
Qed.

#[local] Instance quietly_preorder : PreOrder quietly.
Proof.
  split.
  - intros st. split; [done|reflexivity].
  - intros s1 s2 s3 [H1 G1] [H2 G2]. split; [by rewrite H2|by etransitivity].
Qed.

Lemma quietly_record ev : quiet ev → sat quietly (record ev).
Proof. intros H st. split; [done|]. by apply grows_record. Qed.

Lemma quietly_perform env {T : Type} (c : call T) :
  (∀ r, quiet (Called c r)) → sat quietly (perform env c).
Proof. intros H st. split; [done|]. by apply grows_perform. Qed.

Lemma quietly_evaluate env {A : Type} p (f : page_function A) :
  sat quietly (evaluate env p f).
Proof.
  unfold evaluate.
  apply sat_bind; [typeclasses eauto|by apply quietly_perform|intros d].
  destruct (run_function f d) as [actions [a|e]]; structure; by apply quietly_record.
Qed.

Ltac quietness :=
  repeat first
    [ apply quietly_evaluate
    | apply quietly_perform; intros ?; repeat split
    | apply quietly_record; repeat split
    | progress structure ].

Lemma one_search_page_quiet st st' :
  quietly st st' →
  ∃ evs, one_search_page st st' evs ∧ gotos evs = [] ∧ opened evs = [] ∧ logged evs = [].
Proof.
  intros [Hp (evs & Hh & Hq)]. exists evs.
  pose proof (quiet_gotos _ Hq) as Hg. pose proof (quiet_opened _ Hq) as Ho.
  pose proof (quiet_logged _ Hq) as Hl.
  split; [|done]. split; [done|]. split; [intros p; by rewrite Hp|].
  split; [by rewrite Hg|]. split; [done|].
  intros Hn. left. split; [done|]. by rewrite Hp.
Qed.

Lemma one_search_page_refl st : one_search_page st st [].
Proof.
  split; [by rewrite app_nil_r|]. split; [done|]. split; [constructor|].
  split; [done|]. intros Hn. by left.
Qed.

(** A line of the console changes nothing else. *)
Lemma one_search_page_log st line : one_search_page st (extend [Logged line] st) [Logged line].
Proof.
  split; [done|]. split; [intros p Hp; exact Hp|]. split; [constructor|].
  split; [done|]. intros Hn. left. split; [done|exact Hn].
Qed.

Lemma one_search_page_trans s1 s2 s3 e1 e2 :
  one_search_page s1 s2 e1 → one_search_page s2 s3 e2 →
  one_search_page s1 s3 (e1 ++ e2).
Proof.
  intros (H1 & K1 & G1 & S1 & N1) (H2 & K2 & G2 & S2 & N2).
  split; [by rewrite H2, H1, app_assoc|].
  split; [intros p Hp; by apply K2, K1|].
  split.
  { rewrite gotos_app. apply Forall_app. split; [|done].
    eapply Forall_impl; [exact G1|]. intros g Hg. by apply K2. }
  split.
  { intros [p Hp]. rewrite opened_app, S1 by eauto.
    rewrite S2; [done|]. exists p. by apply K1. }
  intros Hn. rewrite opened_app. destruct (N1 Hn) as [[Ho Hs]|(p & Ho & Hs)].
  - rewrite Ho. simpl. by apply N2.
  - right. exists p. rewrite Ho, S2 by eauto. split; [done|by apply K2].
Qed.

Lemma perform_ok env {T : Type} (c : call T) st :
  never_fails env → ∃ v, perform env c st = (Ok v, extend [Called c (Ok v)] st).
Proof.
  intros Hn. destruct (Hn (history st) T c) as [v Hv]. exists v.
  unfold perform. by rewrite Hv.
Qed.

Lemma configurePage_quietly env p : sat quietly (configurePage env p).
Proof. unfold configurePage. quietness. Qed.

Lemma bind_total {A B : Type} (m : M A) (f : A → M B) st :
  (∃ a st', m st = (Ok a, st')) → (∀ a st', ∃ b st'', f a st' = (Ok b, st'')) →
  ∃ b st'', (m ≫= f) st = (Ok b, st'').
Proof.
  intros (a & st' & H) Hf. rewrite (bind_ok _ _ _ _ _ H). apply Hf.
Qed.

Lemma perform_returns env {T : Type} (c : call T) st :
  never_fails env → ∃ v st', perform env c st = (Ok v, st').
Proof. intros Hn. destruct (perform_ok env c st Hn) as [v H]. eauto. Qed.

Lemma configurePage_ok env p st :
  never_fails env → ∃ u st', configurePage env p st = (Ok u, st').
Proof.
  intros Hn. unfold configurePage.
  repeat (apply bind_total; [by apply perform_returns|intros ? ?]).
  by apply perform_returns.
Qed.

Lemma get_run {A B : Type} (field : state → A) (f : A → M B) st :
  (get field ≫= f) st = f (field st) st.
Proof. reflexivity. Qed.

Lemma perform_run env {T : Type} (c : call T) st :
  perform env c st
  = (respond env (history st) T c, extend [Called c (respond env (history st) T c)] st).
Proof. reflexivity. Qed.

(** The secondary page is opened when there is none, and only then. *)
Lemma getSearchPage_run env st :
  ∃ r st' evs,
    getSearchPage env st = (r, st') ∧ one_search_page st st' evs ∧
    gotos evs = [] ∧ logged evs = [] ∧
    (∀ p, r = Ok p → searchPage st' = Some p) ∧
    (never_fails env → ∃ p, r = Ok p).
Proof.
  unfold getSearchPage. rewrite get_run.
  destruct (searchPage st) as [p|] eqn:Hsp.
  - exists (Ok p), st, []. split; [done|]. split; [apply one_search_page_refl|].
    split; [done|]. split; [done|]. split; [by intros ? [= <-]|]. intros _. by exists p.
  - destruct (respond env (history st) _ NewPage) as [p|e] eqn:Hnew.
    + assert (Hperf : perform env NewPage st = (Ok p, extend [Called NewPage (Ok p)] st)).
      { rewrite perform_run. by rewrite Hnew. }
      rewrite (bind_ok _ _ _ _ _ Hperf).
      set (s2 := State (history st ++ [Called NewPage (Ok p)]) (Some p)
                       (jobsTabNavigated st) (openedJobLinks st) (openedJobDetails st)).
      assert (Hset : set_searchPage p (extend [Called NewPage (Ok p)] st) = (Ok tt, s2))
        by reflexivity.
      rewrite (bind_ok _ _ _ _ _ Hset).
      pose proof (configurePage_quietly env p s2) as Hq.
      destruct (one_search_page_quiet _ _ Hq) as (evs2 & Hosp & Hg & Ho & Hl).
      destruct Hosp as (Hh & _). destruct Hq as [Hp _].
      destruct (configurePage env p s2) as [rc s3] eqn:Hc. simpl in Hh, Hp.
      exists (match rc with Ok _ => Ok p | Throw e => Throw e end), s3,
             ([Called NewPage (Ok p)] ++ evs2).
      split; [unfold mbind, M_bind; rewrite Hc; by destruct rc|].
      split.
      { split; [by rewrite Hh, <- app_assoc|].
        split; [intros p' Hp'; congruence|].
        split; [by rewrite gotos_app, Hg|].
        split; [intros [p' Hp']; congruence|].
        intros _. right. exists p. by rewrite opened_app, Ho. }
      split; [by rewrite gotos_app, Hg|]. split; [by rewrite logged_app, Hl|].
      split.
      { intros p' Hr. destruct rc; [|discriminate]. injection Hr as <-. by rewrite Hp. }
      intros Hn. destruct (configurePage_ok env p s2 Hn) as (u & s3' & Hok).
      rewrite Hok in Hc. injection Hc as <- _. by exists p.
    + exists (Throw e), (extend [Called NewPage (Throw e)] st), [Called NewPage (Throw e)].
      split; [unfold mbind, M_bind; rewrite perform_run; by rewrite Hnew|].
      split.
      { split; [done|]. split; [intros p' Hp'; congruence|]. split; [constructor|].
        split; [done|]. intros _. by left. }
      split; [done|]. split; [done|]. split; [by intros ? [=]|].
      intros Hn. destruct (Hn (history st) _ NewPage) as [v Hv]. congruence.
Qed.

Lemma bind_perform env {T B : Type} (c : call T) (f : T → M B) st :
  (perform env c ≫= f) st
  = match respond env (history st) T c with
    | Ok v => f v (extend [Called c (Ok v)] st)
    | Throw e => (Throw e, extend [Called c (Throw e)] st)
    end.
Proof. unfold mbind, M_bind. rewrite perform_run. by destruct (respond _ _ _ _). Qed.

Lemma after_goto_quietly env searchTab : sat quietly (after_goto env searchTab).
Proof. unfold after_goto, dismissConsentIfPresent. quietness. Qed.

Lemma one_search_page_goto st p target w timeout r :
  searchPage st = Some p →
  one_search_page st (extend [Called (Goto p target w timeout) r] st)
    [Called (Goto p target w timeout) r].
Proof.
  intros Hp. split; [done|]. split; [intros p' Hp'; exact Hp'|].
  split; [repeat constructor; exact Hp|]. split; [done|].
  intros Hn. congruence.
Qed.

Lemma failure_line_is_failure q e : is_lookup_failure (failure_line q e) = true.
Proof. reflexivity. Qed.

(** One lookup: it returns, navigates the secondary page at most once,
    to the search URL of the trimmed query, and logs nothing but its own
    failure. *)
Lemma lookup_run env q st :
  ∃ link st' evs,
    getFirstGoogleResultLink env q st = (Ok link, st') ∧
    one_search_page st st' evs ∧
    (map snd (gotos evs) = [] ∨ map snd (gotos evs) = [search_url (Js.trim q)]) ∧
    (never_fails env → Js.truthy (Js.trim q) = true →
       map snd (gotos evs) = [search_url (Js.trim q)]) ∧
    (Js.truthy (Js.trim q) = false → evs = []) ∧
    Forall (λ line, is_lookup_failure line = true) (logged evs).
Proof.
  unfold getFirstGoogleResultLink. destruct (Js.truthy (Js.trim q)) eqn:Hq; cbn [negb].
  2:{ exists "", st, []. split; [done|]. split; [apply one_search_page_refl|].
      split; [by left|]. split; [done|]. split; [done|constructor]. }
  cbv iota.
  change (try_catch _ _) with
    (try_catch
       (searchTab ← getSearchPage env;
        perform env (Goto searchTab (search_url (Js.trim q)) domcontentloaded 30000%N) ;;
        after_goto env searchTab)
       (λ message, log (failure_line (Js.trim q) message) ;; mret "")).
  destruct (getSearchPage_run env st)
    as (r1 & s1 & evs1 & Hrun1 & Hosp1 & Hg1 & Hl1 & Hsp1 & Hnf1).
  unfold try_catch. destruct r1 as [p|e].
  - rewrite (bind_ok _ _ _ _ _ Hrun1), bind_perform.
    specialize (Hsp1 p eq_refl).
    destruct (respond env (history s1) _ _) as [u|e] eqn:Hgo.
    + pose proof (one_search_page_goto s1 p (search_url (Js.trim q)) domcontentloaded
                    30000%N (Ok u) Hsp1) as Hosp2.
      pose proof (after_goto_quietly env p
                    (extend [Called (Goto p (search_url (Js.trim q)) domcontentloaded 30000%N)
                               (Ok u)] s1)) as Hq3.
      destruct (one_search_page_quiet _ _ Hq3) as (evs3 & Hosp3 & Hg3 & Ho3 & Hl3).
      pose proof (one_search_page_trans _ _ _ _ _
                    (one_search_page_trans _ _ _ _ _ Hosp1 Hosp2) Hosp3) as Hosp.
      destruct (after_goto env p _) as [[link|e] s3].
      * exists link, s3, ((evs1 ++ [Called (Goto p (search_url (Js.trim q)) domcontentloaded 30000%N) (Ok u)]) ++ evs3).
        split; [done|]. split; [exact Hosp|].
        rewrite !gotos_app, Hg1, Hg3, !logged_app, Hl1, Hl3. simpl.
        split; [by right|]. split; [done|]. split; [done|constructor].
      * simpl in Hosp.
        exists "", (extend [Logged (failure_line (Js.trim q) e)] s3),
          (((evs1 ++ [Called (Goto p (search_url (Js.trim q)) domcontentloaded 30000%N) (Ok u)]) ++ evs3)
             ++ [Logged (failure_line (Js.trim q) e)]).
        split; [done|].
        split; [exact (one_search_page_trans _ _ _ _ _ Hosp (one_search_page_log _ _))|].
        rewrite !gotos_app, Hg1, Hg3, !logged_app, Hl1, Hl3. simpl.
        split; [by right|]. split; [done|]. split; [done|].
        repeat constructor.
    + pose proof (one_search_page_goto s1 p (search_url (Js.trim q)) domcontentloaded
                    30000%N (Throw e) Hsp1) as Hosp2.
      pose proof (one_search_page_trans _ _ _ _ _ Hosp1 Hosp2) as Hosp.
      exists "", (extend [Logged (failure_line (Js.trim q) e)]
                    (extend [Called (Goto p (search_url (Js.trim q)) domcontentloaded 30000%N)
                               (Throw e)] s1)),
        ((evs1 ++ [Called (Goto p (search_url (Js.trim q)) domcontentloaded 30000%N) (Throw e)])
           ++ [Logged (failure_line (Js.trim q) e)]).
      split; [done|].
      split; [exact (one_search_page_trans _ _ _ _ _ Hosp (one_search_page_log _ _))|].
      rewrite !gotos_app, Hg1, !logged_app, Hl1. simpl.
      split; [by right|]. split; [done|]. split; [done|].
      repeat constructor.
  - rewrite (bind_throw _ _ _ _ _ Hrun1).
    exists "", (extend [Logged (failure_line (Js.trim q) e)] s1),
      (evs1 ++ [Logged (failure_line (Js.trim q) e)]).
    split; [done|].
    split; [exact (one_search_page_trans _ _ _ _ _ Hosp1 (one_search_page_log _ _))|].
    rewrite !gotos_app, Hg1, !logged_app, Hl1. simpl.
    split; [by left|]. split; [|split; [done|repeat constructor]].
    intros Hn _. destruct (Hnf1 Hn) as [p Hp]. discriminate.
Qed.

Lemma one_search_page_logs st lines :
  one_search_page st (extend (map Logged lines) st) (map Logged lines).
Proof.
  assert (Hg : gotos (map Logged lines) = []) by (induction lines; simpl; auto).
  assert (Ho : opened (map Logged lines) = []) by (induction lines; simpl; auto).
  split; [done|]. split; [intros p Hp; exact Hp|]. split; [by rewrite Hg|].
  split; [done|]. intros Hn. left. split; [done|exact Hn].
Qed.

Lemma no_parts_no_query (r : JobRecord) :
  (0 <? length (searchQueryParts r))%nat = false → has_query r = false.
Proof.
  unfold searchQueryParts, has_query, lookup_query.
  by destruct (title r), (company r).
Qed.

Lemma summary_lines_app evs1 evs2 :
  summary_lines (evs1 ++ evs2) = summary_lines evs1 ++ summary_lines evs2.
Proof. unfold summary_lines. by rewrite logged_app, filter_app. Qed.

Lemma summary_lines_failures evs :
  Forall (λ line, is_lookup_failure line = true) (logged evs) → summary_lines evs = [].
Proof.
  unfold summary_lines. induction 1 as [|line ls Hl _ IH]; [done|].
  rewrite filter_cons. rewrite Hl. simpl. exact IH.
Qed.

(** The summary of one record: its block of lines, and at most one
    lookup. *)
Lemma summarise_run env r st :
  ∃ link st' evs,
    summarise env r st = (Ok tt, st') ∧
    one_search_page st st' evs ∧
    (map snd (gotos evs) = [] ∨
     (has_query r = true ∧ map snd (gotos evs) = [lookup_url r])) ∧
    (never_fails env →
       map snd (gotos evs) = if has_query r then [lookup_url r] else []) ∧
    summary_lines evs = summary_block r link.
Proof.
  unfold summarise. rewrite !(bind_ok _ _ _ _ _ (log_run _ _)), !extend_extend.
  cbn [app].
  set (head := [Logged _; Logged _; Logged _]).
  pose proof (one_search_page_logs st
                ["Title: " +:+ or_na (title r); "Company: " +:+ or_na (company r);
                 "Location: " +:+ or_na (location r)]) as Hhead.
  cbn [map] in Hhead. fold head in Hhead.
  destruct (0 <? length (searchQueryParts r))%nat eqn:Hparts.
  - destruct (lookup_run env (String.concat " " (searchQueryParts r)) (extend head st))
      as (link & s1 & evs1 & Hrun & Hosp & Hdisj & Hnf & Hempty & Hlog).
    rewrite query_form in Hdisj, Hnf, Hempty. fold (lookup_url r) in Hdisj, Hnf.
    fold (has_query r) in Hnf, Hempty.
    assert (Hfound :
              (getFirstGoogleResultLink env (String.concat " " (searchQueryParts r))
               ≫= λ searchLink, log ("Search Result: " +:+ or_na searchLink)) (extend head st)
              = (Ok tt, extend [Logged ("Search Result: " +:+ or_na link)] s1)).
    { by rewrite (bind_ok _ _ _ _ _ Hrun). }
    rewrite (bind_ok _ _ _ _ _ Hfound).
    rewrite !log_run, !extend_extend. cbn [app].
    exists link, (extend [Logged ("Search Result: " +:+ or_na link); Logged "---------"] s1),
      ((head ++ evs1) ++ [Logged ("Search Result: " +:+ or_na link); Logged "---------"]).
    split; [done|].
    split.
    { apply (one_search_page_trans _ _ _ _ _ (one_search_page_trans _ _ _ _ _ Hhead Hosp)).
      apply (one_search_page_logs s1 ["Search Result: " +:+ or_na link; "---------"]). }
    rewrite !gotos_app, !summary_lines_app, (summary_lines_failures evs1 Hlog).
    cbn [gotos omap app map]. rewrite app_nil_r.
    split.
    { destruct Hdisj as [Hd|Hd]; [by left|].
      destruct (has_query r) eqn:Hq; [by right|]. left. by rewrite (Hempty eq_refl). }
    split; [|reflexivity].
    intros Hn. destruct (has_query r); [by apply Hnf|by rewrite Hempty].
  - rewrite (bind_ok _ _ _ _ _ (log_run _ _)).
    rewrite !log_run, !extend_extend.
    exists "", (extend (head ++ [Logged "Search Result: N/A"; Logged "---------"]) st),
      (head ++ [Logged "Search Result: N/A"; Logged "---------"]).
    split; [done|].
    split.
    { apply (one_search_page_logs st
               ["Title: " +:+ or_na (title r); "Company: " +:+ or_na (company r);
                "Location: " +:+ or_na (location r); "Search Result: N/A"; "---------"]). }
    split; [by left|]. split; [|reflexivity].
    intros _. by rewrite (no_parts_no_query r Hparts).
Qed.
(** ** Trimmed fields of the extracted records *)

(** A record with trimmed fields has a query exactly when its title or
    its company is not empty. *)
Lemma has_query_wants_lookup (r : JobRecord) :
  well_trimmed r → has_query r = wants_lookup r.
Proof.
  intros [Ht Hc]. unfold has_query, lookup_query, wants_lookup.
  change (title r ++ " " ++ company r)%string with (title r ++ String " " (company r))%string.
  rewrite truthy_trim, all_white_space_join.
  rewrite (trimmed_white _ Ht), (trimmed_white _ Hc).
  by destruct (Js.truthy (title r)), (Js.truthy (company r)).
Qed.

Lemma text_of_trimmed (n : option node) : Js.trim (text_of n) = text_of n.
Proof.
  destruct n as [n|]; simpl; [|done].
  destruct (innerText (self n)); [apply trim_idem|done].
Qed.

Lemma innerText_trim_trimmed (n : node) (t : string) :
  innerText_trim n = Ok t → Js.trim t = t.
Proof.
  unfold innerText_trim. destruct (innerText (self n)); intros H; inversion H.
  apply trim_idem.
Qed.

Lemma class_based_step_trimmed acc titleEl :
  Forall well_trimmed (fst acc) → Forall well_trimmed (fst (class_based_step acc titleEl)).
Proof.
  destruct acc as [jobs seen]. intros Hacc. unfold class_based_step.
  destruct (Js.truthy _ && negb (bool_decide _)); [|done].
  simpl. apply Forall_app. split; [done|]. constructor; [|constructor].
  split; apply text_of_trimmed.
Qed.

Lemma pick_company_trimmed element sels c :
  pick_company element sels = Ok c → Js.trim c = c.
Proof.
  induction sels as [|sel sels IH]; simpl; intros H; [by inversion H|].
  destruct (querySelector element sel) as [el|]; [|auto].
  destruct (innerText_trim el) as [t|] eqn:E; simpl in H; [|done].
  destruct (is_company_text t); [|auto].
  inversion H; subst. by eapply innerText_trim_trimmed.
Qed.

Lemma fallback_step_trimmed acc element acc' :
  Forall well_trimmed (fst acc) → fallback_step acc element = Ok acc' →
  Forall well_trimmed (fst acc').
Proof.
  destruct acc as [rs seen]. intros Hacc H. unfold fallback_step in H.
  destruct (querySelector element job_title_sel) as [jt|]; [|by inversion H; subst].
  destruct (fallback_link_element element (Some jt)) as [le|]; [|by inversion H; subst].
  destruct (innerText_trim jt) as [t|] eqn:Et; simpl in H; [|done].
  destruct (Js.truthy t && _ && _ && _); [|by inversion H; subst].
  result_cases H. inversion H; subst; clear H.
  simpl. apply Forall_app. split; [done|]. constructor; [|constructor].
  split; simpl; [by eapply innerText_trim_trimmed|].
  exact (pick_company_trimmed element company_selectors _ E).
Qed.

Lemma lines_of_trimmed (text : string) :
  Forall (λ line, Js.trim line = line) (lines_of text).
Proof.
  unfold lines_of. apply Forall_forall. intros line H.
  apply list_elem_of_filter in H as [_ H].
  apply list_elem_of_fmap in H as (l & -> & _). apply trim_idem.
Qed.

Lemma heading_lines_company title lines acc :
  Forall (λ line, Js.trim line = line) lines →
  Js.trim (fst (fst acc)) = fst (fst acc) →
  Js.trim (fst (fst (fold_left (heading_line_step title) lines acc)))
  = fst (fst (fold_left (heading_line_step title) lines acc)).
Proof.
  intros Hl. revert acc. induction Hl as [|line lines Hline _ IH]; intros acc Hacc; [done|].
  simpl. apply IH. destruct acc as [[c l] d]. unfold heading_line_step.
  repeat match goal with |- context [if ?b then _ else _] => destruct b end; done.
Qed.

Lemma heading_step_trimmed acc heading acc' :
  Forall well_trimmed (fst acc) → heading_step acc heading = Ok acc' →
  Forall well_trimmed (fst acc').
Proof.
  destruct acc as [rs seen]. intros Hacc H. unfold heading_step in H.
  destruct (innerText_trim heading) as [t|] eqn:Et; simpl in H; [|done].
  destruct (Js.truthy t && _); [|by inversion H; subst].
  destruct (heading_link_element heading) as [le|]; [|by inversion H; subst].
  destruct (Js.truthy _ && negb (bool_decide _) && _); [|by inversion H; subst].
  destruct (negb (existsb _ rs)); [|by inversion H; subst].
  destruct (match closest heading heading_parent_sel with Some _ => _ | None => _ end)
    as [[c l] ds] eqn:Ef.
  inversion H; subst; clear H.
  simpl. apply Forall_app. split; [done|]. constructor; [|constructor].
  split; simpl; [by eapply innerText_trim_trimmed|].
  destruct (closest heading heading_parent_sel) as [p|]; [|by inversion Ef].
  pose proof (heading_lines_company t
                (lines_of (Js.or_else (default "" (innerText (self p))) ""))
                ("", "", "") (lines_of_trimmed _) eq_refl) as Hc.
  by rewrite Ef in Hc.
Qed.

(** The records of either listing strategy have trimmed titles and
    companies. *)
Lemma strategies_trimmed (d : document) :
  Forall well_trimmed (classBasedResults d) ∧
  ∀ rs, fallbackResults d = Ok rs → Forall well_trimmed rs.
Proof.
  split.
  - unfold classBasedResults.
    apply (fold_left_invariant (λ acc, Forall well_trimmed (fst acc)) class_based_step).
    + intros. by apply class_based_step_trimmed.
    + constructor.
  - intros rs Hrs.
    destruct (fallbackResults_inv (λ acc, Forall well_trimmed (fst acc)) d rs)
      as [seen H]; [by constructor| | |exact Hrs|exact H].
    + intros. by eapply fallback_step_trimmed.
    + intros. by eapply heading_step_trimmed.
Qed.

(** So have the records of the run's record collection. *)
Lemma extractJobs_trimmed env page st results :
  fst (extractJobs env page st) = Ok results → Forall well_trimmed results.
Proof.
  unfold extractJobs. rewrite (bind_ok _ _ _ _ _ (log_run _ _)).
  set (s1 := extend [Logged "Extracting job list using provided classes..."] st).
  destruct (respond env (history s1) _ (Evaluate page FnClassBasedResults)) as [d|e] eqn:Hd.
  - rewrite (bind_ok _ _ _ _ _
               (evaluate_ok env page FnClassBasedResults s1 d _ [] Hd eq_refl)).
    destruct (length (classBasedResults d) =? 0)%nat eqn:Hz.
    + rewrite (bind_ok _ _ _ _ _ (log_run _ _)).
      set (s2 := extend _ (extend _ s1)).
      destruct (respond env (history s2) _ (Evaluate page FnFallbackResults))
        as [d'|e] eqn:Hd'.
      * destruct (fallbackResults d') as [rs|e] eqn:Hrs.
        -- assert (Hf : run_function FnFallbackResults d' = ([], Ok rs)).
           { unfold run_function. by rewrite Hrs. }
           rewrite (evaluate_ok env page FnFallbackResults s2 d' rs [] Hd' Hf).
           intros H; inversion H; subst.
           by apply (proj2 (strategies_trimmed d')).
        -- assert (Hf : run_function FnFallbackResults d' = ([], Throw e)).
           { unfold run_function. by rewrite Hrs. }
           by rewrite (evaluate_throws env page FnFallbackResults s2 d' e [] Hd' Hf).
      * by rewrite (evaluate_fails env page FnFallbackResults s2 e Hd').
    + intros H; inversion H; subst. apply strategies_trimmed.
  - rewrite (bind_throw _ _ _ _ _ (evaluate_fails env page FnClassBasedResults s1 e Hd)).
    done.
Qed.

(** The summaries of a list of records, in order. *)
Lemma summarise_all env rs st :
  ∃ links st' evs,
    for_each_M (summarise env) rs st = (Ok tt, st') ∧
    one_search_page st st' evs ∧
    map snd (gotos evs) `sublist_of` map lookup_url (filter (λ r, has_query r) rs) ∧
    (never_fails env →
       map snd (gotos evs) = map lookup_url (filter (λ r, has_query r) rs)) ∧
    length links = length rs ∧
    summary_lines evs = concat (zip_with summary_block rs links).
Proof.
  revert st. induction rs as [|r rs IH]; intros st.
  - exists [], st, []. split; [done|]. split; [apply one_search_page_refl|].
    split; [done|]. split; [done|]. split; done.
  - destruct (summarise_run env r st) as (link & s1 & evs1 & Hrun & Hosp & Hdisj & Hnf & Hl).
    destruct (IH s1) as (links & s2 & evs2 & Hrun2 & Hosp2 & Hsub2 & Hnf2 & Hlen & Hl2).
    exists (link :: links), s2, (evs1 ++ evs2).
    split; [simpl; by rewrite (bind_ok _ _ _ _ _ Hrun)|].
    split; [by eapply one_search_page_trans|].
    rewrite gotos_app, map_app, summary_lines_app.
    split.
    { rewrite filter_cons. destruct Hdisj as [-> | [-> ->]]; simpl.
      - destruct (has_query r); simpl; [by apply sublist_cons|done].
      - by apply sublist_skip. }
    split.
    { intros Hn. rewrite (Hnf Hn), (Hnf2 Hn), filter_cons.
      destruct (has_query r); simpl; done. }
    split; [simpl; by rewrite Hlen|].
    simpl. by rewrite Hl, Hl2.
Qed.

Lemma jobsToShow_last_five (results : list JobRecord) :
  results = take (length results - 5) results ++ jobsToShow results ∧
  length (jobsToShow results) = min 5 (length results).
Proof.
  unfold jobsToShow. split; [by rewrite take_drop|].
  rewrite length_drop. lia.
Qed.

Lemma one_search_page_opened st st' evs :
  one_search_page st st' evs → (length (opened evs) ≤ 1)%nat.
Proof.
  intros (_ & _ & _ & Hs & Hn). destruct (searchPage st) as [p|] eqn:Hp.
  - rewrite Hs by eauto. simpl. lia.
  - destruct (Hn eq_refl) as [[-> _]|(p & -> & _)]; simpl; lia.
Qed.

Lemma printSummary_run env page results st :
  ∃ links st' evs,
    printSummary env page results st = (Ok tt, st') ∧
    one_search_page st st' evs ∧
    map snd (gotos evs)
      `sublist_of` map lookup_url (filter (λ r, has_query r) (jobsToShow results)) ∧
    (never_fails env →
       map snd (gotos evs)
       = map lookup_url (filter (λ r, has_query r) (jobsToShow results))) ∧
    length links = length (jobsToShow results) ∧
    (results ≠ [] →
       summary_lines evs = concat (zip_with summary_block (jobsToShow results) links)).
Proof.
  unfold printSummary. destruct results as [|r results].
  - cbn [length Nat.eqb].
    exists [], (extend [Logged ("Current page URL: " +:+ current_url env
                                  (history st ++ [Logged "No jobs found. The page structure might be different."])
                                  page)]
                  (extend [Logged "No jobs found. The page structure might be different."] st)),
      [Logged "No jobs found. The page structure might be different.";
       Logged ("Current page URL: " +:+ current_url env
                 (history st ++ [Logged "No jobs found. The page structure might be different."])
                 page)].
    split; [reflexivity|].
    split; [rewrite extend_extend; apply (one_search_page_logs st [_; _])|].
    split; [done|]. split; [done|]. split; done.
  - cbn [length Nat.eqb].
    destruct (summarise_all env (jobsToShow (r :: results)) st)
      as (links & st' & evs & H1 & H2 & H3 & H4 & H5 & H6).
    exists links, st', evs. repeat (split; [done|]). done.
Qed.

Lemma filter_wants_lookup (rs : list JobRecord) :
  Forall well_trimmed rs →
  filter (λ r, has_query r) rs = filter (λ r, wants_lookup r) rs.
Proof.
  induction 1 as [|r rs Hr _ IH]; [done|].
  rewrite !filter_cons, IH, (has_query_wants_lookup r Hr). done.
Qed.

Lemma summaryStage_run env page st st1 results st2 :
  prepareListing env page st = (Ok tt, st1) →
  extractJobs env page st1 = (Ok results, st2) →
  summaryStage env page st = printSummary env page results st2.
Proof.
  intros H1 H2. unfold summaryStage. rewrite (bind_ok _ _ _ _ _ H1). cbv beta.
  by rewrite (bind_ok _ _ _ _ _ H2).
Qed.

Lemma no_navigation_events evs :
  Forall Stage.no_navigation evs → gotos evs = [] ∧ opened evs = [].
Proof.
  induction 1 as [|ev evs [Hg Ho] _ [IHg IHo]]; [done|].
  change (ev :: evs) with ([ev] ++ evs). by rewrite gotos_app, opened_app, Hg, Ho, IHg, IHo.
Qed.

(** What follows the summary stage neither navigates nor opens a
    page. *)
Lemma after_summary_no_navigation env page (summaryOnly : bool) :
  sat (grows_by Stage.no_navigation)
    (if summaryOnly then closeBrowser env else fullDetail env page).
Proof. destruct summaryOnly; unfold_detail; grows; by split. Qed.

(** The run from the end of the summary stage. *)
Lemma main_after_summary env page (summaryOnly : bool) st st3 :
  summaryStage env page st = (Ok tt, st3) →
  ∃ stf rest,
    main env page summaryOnly st = (Ok tt, stf) ∧
    history stf = history st3 ++ rest ∧ gotos rest = [] ∧ opened rest = [].
Proof.
  intros Hs. unfold main, try_catch, openChromeAndSearch.
  rewrite (bind_ok _ _ _ _ _ Hs). cbv beta.
  destruct (after_summary_no_navigation env page summaryOnly st3) as (evs & Hh & Hn).
  destruct (no_navigation_events _ Hn) as [Hg Ho].
  destruct ((if summaryOnly then closeBrowser env else fullDetail env page) st3)
    as [[[]|e] sf]; simpl in Hh.
  - by exists sf, evs.
  - exists (extend [LoggedError e] sf), (evs ++ [LoggedError e]).
    split; [done|]. split; [simpl; by rewrite Hh, app_assoc|].
    by rewrite gotos_app, opened_app, Hg, Ho.
Qed.

(** C7 (as amended).  The summary of a run shows the last five records
    of the record collection (all of them when there are fewer), in
    discovery order; their titles and companies are trimmed texts.  For
    each of them with a non-empty title or a non-empty company, and for
    no other record, the run looks up the query made of the title, a
    space and the company, trimmed, at
    [https://www.google.com/search?q=<the query, escaped>&hl=en].  All
    the navigations of the run that follow the extraction are those of
    these lookups, in the order of the records; each goes to the one
    secondary page, which is opened at most once, and not at all when it
    is there already.  When no call of the browser fails there is
    exactly one navigation for each of these records.  What follows the
    summary, in either mode, neither navigates nor opens a page. *)
Theorem enrichment_lookups (env : environment) (page : page_id) (summaryOnly : bool)
    (st st1 st2 : state) (results : list JobRecord) :
  prepareListing env page st = (Ok tt, st1) →
  extractJobs env page st1 = (Ok results, st2) →
  (∀ r, lookup_url r
        = ("https://www.google.com/search?q="
           ++ Url.encodeURIComponent (Js.trim (title r ++ " " ++ company r))
           ++ "&hl=en")%string) ∧
  (∀ r, Js.trim (String.concat " " (searchQueryParts r))
        = Js.trim (title r ++ " " ++ company r)) ∧
  Forall well_trimmed results ∧
  results = take (length results - 5) results ++ jobsToShow results ∧
  length (jobsToShow results) = min 5 (length results) ∧
  ∃ st3 evs stf rest links,
    summaryStage env page st = (Ok tt, st3) ∧
    history st3 = history st2 ++ evs ∧
    main env page summaryOnly st = (Ok tt, stf) ∧
    history stf = history st3 ++ rest ∧
    gotos rest = [] ∧ opened rest = [] ∧
    length links = length (jobsToShow results) ∧
    (results ≠ [] →
       summary_lines evs = concat (zip_with summary_block (jobsToShow results) links)) ∧
    Forall (λ g, searchPage st3 = Some (fst g)) (gotos evs) ∧
    (length (opened evs) ≤ 1)%nat ∧
    (is_Some (searchPage st2) → opened evs = []) ∧
    map snd (gotos evs)
      `sublist_of` map lookup_url (filter (λ r, wants_lookup r) (jobsToShow results)) ∧
    (never_fails env →
       map snd (gotos evs)
       = map lookup_url (filter (λ r, wants_lookup r) (jobsToShow results))).
Proof.
  intros H1 H2.
  assert (Ht : Forall well_trimmed results).
  { apply (extractJobs_trimmed env page st1). by rewrite H2. }
  assert (Hf : filter (λ r, has_query r) (jobsToShow results)
             = filter (λ r, wants_lookup r) (jobsToShow results)).
  { apply filter_wants_lookup. unfold jobsToShow. by apply Forall_drop. }
  split; [reflexivity|]. split; [apply query_form|]. split; [exact Ht|].
  split; [apply jobsToShow_last_five|]. split; [apply jobsToShow_last_five|].
  destruct (printSummary_run env page results st2)
    as (links & st3 & evs & Hrun & Hosp & Hsub & Hnf & Hlen & Hlines).
  rewrite <- (summaryStage_run env page st st1 results st2 H1 H2) in Hrun.
  destruct (main_after_summary env page summaryOnly st st3 Hrun)
    as (stf & rest & Hmain & Hh & Hg & Ho).
  exists st3, evs, stf, rest, links.
  pose proof (one_search_page_opened _ _ _ Hosp) as Hopen.
  destruct Hosp as (Hh3 & _ & Hg3 & Hs3 & _). rewrite Hf in Hsub, Hnf.
  repeat (split; [done|]). done.
Qed.

Lemma showing_never_fails d : never_fails (Samples.showing d).
Proof. intros h T c. destruct c; eexists; reflexivity. Qed.

Lemma enrichment_lookups_witness :
  ∃ evs,
    history (snd (summaryStage (Samples.showing Samples.six_cards) 0 initial))
    = history (snd (extractJobs (Samples.showing Samples.six_cards) 0
                      (snd (prepareListing (Samples.showing Samples.six_cards) 0 initial))))
      ++ evs ∧
    map snd (gotos evs)
    = map lookup_url (filter (λ r, wants_lookup r)
                        (jobsToShow (classBasedResults Samples.six_cards))).
Proof.
  assert (H1 : prepareListing (Samples.showing Samples.six_cards) 0 initial
             = (Ok tt, snd (prepareListing (Samples.showing Samples.six_cards) 0 initial)))
    by (vm_compute; reflexivity).
  assert (H2 : extractJobs (Samples.showing Samples.six_cards) 0
                 (snd (prepareListing (Samples.showing Samples.six_cards) 0 initial))
             = (Ok (classBasedResults Samples.six_cards),
                snd (extractJobs (Samples.showing Samples.six_cards) 0
                       (snd (prepareListing (Samples.showing Samples.six_cards) 0 initial)))))
    by (vm_compute; reflexivity).
  destruct (enrichment_lookups (Samples.showing Samples.six_cards) 0 true _ _ _ _ H1 H2)
    as (_ & _ & _ & _ & _ & st3 & evs & stf & rest & links & Hrun & Hh & _ & _ & _ & _ & _
        & _ & _ & _ & _ & _ & Hnf).
  exists evs. rewrite Hrun. split; [exact Hh|].
  apply (Hnf (showing_never_fails Samples.six_cards)).
Defined.

(** C7 (as stated) fails for a record collection of more than five
    records: with six records, the summary shows the last five; the
    first record, which has a title and a company, is not in it and gets
    no lookup, and the five navigations of the run are those of the
    records shown. *)
Lemma record_before_last_five_gets_no_lookup :
  fst (extractJobs (Samples.showing Samples.six_cards) 0 initial)
    = Ok (classBasedResults Samples.six_cards) ∧
  head (classBasedResults Samples.six_cards) = Some Samples.first_of_six ∧
  wants_lookup Samples.first_of_six = true ∧
  filter (λ line, is_title_line line)
    (logged (history (snd (main (Samples.showing Samples.six_cards) 0 true initial))))
    = [ "Title: QA Engineer"; "Title: Data Engineer"; "Title: DevOps Engineer";
        "Title: Backend Engineer"; "Title: Frontend Engineer" ] ∧
  map snd (gotos (history (snd (main (Samples.showing Samples.six_cards) 0 true initial))))
    = [ "https://www.google.com/search?q=QA%20Engineer%20Bolt&hl=en";
        "https://www.google.com/search?q=Data%20Engineer%20Cargo&hl=en";
        "https://www.google.com/search?q=DevOps%20Engineer%20Delta&hl=en";
        "https://www.google.com/search?q=Backend%20Engineer%20Echo&hl=en";
        "https://www.google.com/search?q=Frontend%20Engineer%20Foxtrot&hl=en" ].
Proof. repeat split; vm_compute; reflexivity. Qed.

(** ** Run modes *)

Lemma openJob_grows env page jobCount idx :
  sat (grows_by any_event) (openJob env page jobCount idx).
Proof. unfold_detail. grows; exact I. Qed.

Lemma after_drillDown_grows env page :
  sat (grows_by any_event)
    (printOpenedJobLinks ;; printOpenedJobDetails ;; collectJobTexts env page ;;
     log "Browser will stay open for 60 seconds. You can view the full jobs page." ;;
     current ← url_of env page;
     log ("Current page URL: " ++ current) ;;
     perform env (WaitForTimeout page 60000%N) ;;
     closeBrowser env).
Proof. unfold_detail. grows; exact I. Qed.

Lemma grows_history P st st' :
  grows_by P st st' → ∃ evs, history st' = history st ++ evs.
Proof. intros (evs & H & _). by exists evs. Qed.

(** The detail drill-down opens with its line and the count of the title
    markers. *)
Lemma drillDown_starts env page st :
  ∃ rest, history (snd (drillDown env page st))
          = history st ++ drill_down_start env page st ++ rest.
Proof.
  unfold drillDown. rewrite (bind_ok _ _ _ _ _ (log_run _ _)). unfold try_catch.
  unfold drill_down_start.
  set (line := (nl ++ "Clicking through each job entry to load details...")%string).
  change (history st ++ [Logged line]) with (history (extend [Logged line] st)).
  destruct (respond env (history (extend [Logged line] st)) _ (Evaluate page FnCountMarkers))
    as [d|e] eqn:Hr.
  - rewrite (bind_ok _ _ _ _ _ (evaluate_ok env page FnCountMarkers _ d _ [] Hr eq_refl)).
    cbn [map]. cbv beta.
    set (s2 := extend [Called (Evaluate page FnCountMarkers) (Ok d)] (extend [Logged line] st)).
    set (n := length (Dom.docQuerySelectorAll d title_marker_sel)).
    set (K := if (n =? 0)%nat then log "No job tabs found to click."
              else for_each_M (openJob env page n) (seq 0 n)).
    assert (Hk : sat (grows_by any_event) K).
    { unfold K. destruct (n =? 0)%nat.
      - apply grows_log. exact I.
      - apply sat_for_each; [typeclasses eauto|]. intros idx. apply openJob_grows. }
    destruct (grows_history _ _ _ (Hk s2)) as [evs Hevs].
    destruct (K s2) as [[u|e] s3]; simpl in Hevs |- *.
    + exists evs. rewrite Hevs. unfold s2. simpl. by rewrite <- !app_assoc.
    + exists (evs ++ [Logged ("Error while clicking job tabs: " +:+ e)]).
      rewrite Hevs. unfold s2. simpl. by rewrite <- !app_assoc.
  - rewrite (bind_throw _ _ _ _ _ (evaluate_fails env page FnCountMarkers _ e Hr)).
    exists [Logged ("Error while clicking job tabs: " +:+ e)].
    simpl. by rewrite <- !app_assoc.
Qed.

Lemma fullDetail_starts env page st :
  ∃ rest, history (snd (fullDetail env page st))
          = history st ++ drill_down_start env page st ++ rest.
Proof.
  destruct (drillDown_starts env page st) as [rest Hrest].
  destruct (total_drillDown env page st) as ([] & s1 & Hd).
  rewrite Hd in Hrest. simpl in Hrest.
  unfold fullDetail. rewrite (bind_ok _ _ _ _ _ Hd).
  destruct (grows_history _ _ _ (after_drillDown_grows env page s1)) as [evs Hevs].
  exists (rest ++ evs). rewrite Hevs, Hrest. by rewrite <- !app_assoc.
Qed.

Lemma closeBrowser_run env st :
  history (snd (closeBrowser env st)) = history st ++ closing env st.
Proof.
  unfold closeBrowser, closing. rewrite bind_perform.
  destruct (respond env (history st) _ Close); simpl; by rewrite <- ?app_assoc.
Qed.



(** ** Indices of the detail drill-down *)

Lemma adds_keeps idx st st' : keeps_details st st' → adds_at idx st st'.
Proof. unfold keeps_details, adds_at, detail_indices. intros ->. by left. Qed.

Lemma keeps_then_adds idx s1 s2 s3 :
  keeps_details s1 s2 → adds_at idx s2 s3 → adds_at idx s1 s3.
Proof. unfold keeps_details, adds_at, detail_indices. by intros <-. Qed.

Lemma adds_bind {A B : Type} idx (m : M A) (f : A → M B) :
  sat keeps_details m → (∀ a, sat (adds_at idx) (f a)) → sat (adds_at idx) (m ≫= f).
Proof.
  intros Hm Hf st. specialize (Hm st). unfold mbind, M_bind.
  destruct (m st) as [[a|e] s1]; simpl in *.
  - eapply keeps_then_adds; [exact Hm|apply Hf].
  - by apply adds_keeps.
Qed.

Lemma adds_of_keeps {A : Type} idx (m : M A) : sat keeps_details m → sat (adds_at idx) m.
Proof. intros Hm st. apply adds_keeps, Hm. Qed.

Lemma adds_push idx d :
  index d = idx + 1 → sat (adds_at idx) (push_openedJobDetail d).
Proof.
  intros Hd st. right. unfold detail_indices. simpl. by rewrite map_app, <- Hd.
Qed.

(** One iteration appends at most one detail, indexed by the iteration. *)
Lemma openJob_index env page jobCount idx :
  sat (adds_at idx) (openJob env page jobCount idx).
Proof.
  unfold openJob.
  apply adds_bind; [apply keeps_evaluate|intros clicked]. destruct clicked.
  - repeat (apply adds_bind; [solve [unfold print_anchor, log; keeps]|intros ?]).
    by apply adds_push.
  - apply adds_of_keeps. unfold log. keeps.
Qed.

(** The iterations over [l] append details for a subsequence of [l]. *)
Lemma openJobs_indices env page jobCount (l : list nat) st :
  ∃ ks, ks `sublist_of` l ∧
        detail_indices (snd (for_each_M (openJob env page jobCount) l st))
        = detail_indices st ++ map (λ idx, idx + 1) ks.
Proof.
  revert st. induction l as [|idx l IH]; intros st.
  - exists []. split; [done|]. simpl. by rewrite app_nil_r.
  - simpl. pose proof (openJob_index env page jobCount idx st) as Hstep.
    unfold mbind, M_bind.
    destruct (openJob env page jobCount idx st) as [[u|e] s1]; simpl in Hstep.
    + destruct (IH s1) as (ks & Hsub & Hks). rewrite Hks.
      destruct Hstep as [-> | ->].
      * exists ks. split; [by apply sublist_cons|done].
      * exists (idx :: ks). split; [by apply sublist_skip|].
        simpl. by rewrite <- app_assoc.
    + simpl. destruct Hstep as [-> | ->].
      * exists []. split; [apply sublist_nil_l|]. simpl. by rewrite app_nil_r.
      * exists [idx]. split; [|done]. apply sublist_skip, sublist_nil_l.
Qed.

Lemma sublist_full_length {A : Type} (l k : list A) :
  l `sublist_of` k → length l = length k → l = k.
Proof.
  induction 1 as [|x l k _ IH|x l k Hs _]; simpl; intros Hlen.
  - done.
  - f_equal. apply IH. lia.
  - apply sublist_length in Hs. lia.
Qed.

Lemma seq_shift_one n : map (λ idx, idx + 1) (seq 0 n) = seq 1 n.
Proof.
  rewrite <- seq_shift. apply map_ext. intros idx. lia.
Qed.

Lemma drillDown_indices env page st :
  ∃ st' ks,
    drillDown env page st = (Ok tt, st') ∧
    detail_indices st' = detail_indices st ++ ks ∧
    ks `sublist_of` seq 1 (marker_count env page st).
Proof.
  unfold drillDown, marker_count. rewrite (bind_ok _ _ _ _ _ (log_run _ _)).
  unfold try_catch.
  set (line := (nl ++ "Clicking through each job entry to load details...")%string).
  change (history st ++ [Logged line]) with (history (extend [Logged line] st)).
  destruct (respond env (history (extend [Logged line] st)) _ (Evaluate page FnCountMarkers))
    as [d|e] eqn:Hr.
  - rewrite (bind_ok _ _ _ _ _ (evaluate_ok env page FnCountMarkers _ d _ [] Hr eq_refl)).
    cbn [map]. cbv beta.
    set (s2 := extend [Called (Evaluate page FnCountMarkers) (Ok d)] (extend [Logged line] st)).
    set (n := length (Dom.docQuerySelectorAll d title_marker_sel)).
    destruct (n =? 0)%nat.
    + eexists _, []. split; [reflexivity|]. split; [|apply sublist_nil_l].
      unfold detail_indices. simpl. by rewrite app_nil_r.
    + destruct (openJobs_indices env page n (seq 0 n) s2) as (ks & Hsub & Hks).
      assert (Hs : map (λ idx, idx + 1) ks `sublist_of` seq 1 n).
      { rewrite <- seq_shift_one. by apply (fmap_sublist (λ idx, idx + 1)). }
      destruct (for_each_M (openJob env page n) (seq 0 n) s2) as [[u|e] s3];
        simpl in Hks; eexists _, _; (split; [by destruct u || reflexivity|]);
        (split; [|exact Hs]); exact Hks.
  - rewrite (bind_throw _ _ _ _ _ (evaluate_fails env page FnCountMarkers _ e Hr)).
    eexists _, []. split; [reflexivity|]. split; [|apply sublist_nil_l].
    unfold detail_indices. simpl. by rewrite app_nil_r.
Qed.

(** C3 (as amended).  Every detail the drill-down appends carries the
    1-based number of the iteration that produced it: an iteration
    appends nothing or one detail of index [idx + 1], whatever happened
    in the iterations before it.  The indices appended by a drill-down
    over [n] title markers are therefore a strictly increasing
    subsequence of 1..n, with a gap for every iteration that did not
    activate, and they are 1..n exactly when all [n] iterations appended
    a detail.  With five markers and a third iteration that finds no
    target they are 1, 2, 4, 5. *)
Theorem detail_indices_follow_iterations (env : environment) (page : page_id)
    (st : state) :
  (∀ jobCount idx, sat (adds_at idx) (openJob env page jobCount idx)) ∧
  (∃ st' ks,
      drillDown env page st = (Ok tt, st') ∧
      detail_indices st' = detail_indices st ++ ks ∧
      ks `sublist_of` seq 1 (marker_count env page st) ∧
      (length ks = marker_count env page st → ks = seq 1 (marker_count env page st))) ∧
  detail_indices (snd (drillDown Samples.third_click_misses 0 initial)) = [1; 2; 4; 5].
Proof.
  split; [intros; apply openJob_index|]. split.
  - destruct (drillDown_indices env page st) as (st' & ks & Hrun & Hks & Hsub).
    exists st', ks. repeat (split; [done|]).
    intros Hlen. apply sublist_full_length; [done|]. by rewrite length_seq.
  - vm_compute. reflexivity.
Qed.

Lemma detail_indices_follow_iterations_witness :
  ∃ ks, ks `sublist_of` seq 1 5 ∧
        detail_indices (snd (drillDown (Samples.showing Samples.five_cards) 0 initial)) = ks ∧
        ks = seq 1 5.
Proof.
  destruct (detail_indices_follow_iterations (Samples.showing Samples.five_cards) 0 initial)
    as (_ & (st' & ks & Hrun & Hks & Hsub & Hfull) & _).
  assert (Hst : st' = snd (drillDown (Samples.showing Samples.five_cards) 0 initial))
    by (by rewrite Hrun).
  change (detail_indices st' = ks) in Hks.
  exists ks. rewrite Hrun. split; [exact Hsub|]. split; [exact Hks|].
  apply Hfull. rewrite <- Hks, Hst. vm_compute. reflexivity.
Defined.

(** C3 (as stated) fails: when the third of five iterations does not
    activate, the indices of the appended details are 1, 2, 4, 5, which
    is no contiguous sequence. *)
Lemma skipped_iteration_leaves_gap :
  marker_count Samples.third_click_misses 0 initial = 5 ∧
  detail_indices (snd (main Samples.third_click_misses 0 false initial)) = [1; 2; 4; 5] ∧
  ¬ contiguous_from_one
      (detail_indices (snd (main Samples.third_click_misses 0 false initial))).
Proof.
  split; [vm_compute; reflexivity|].
  assert (H : detail_indices (snd (main Samples.third_click_misses 0 false initial))
              = [1; 2; 4; 5]) by (vm_compute; reflexivity).
  split; [exact H|]. unfold contiguous_from_one. rewrite H. simpl. discriminate.
Qed.
(** * Further properties of the page functions *)

Import Invariant.

(** ** The tab listing *)


Lemma truthy_nonempty (s : string) : Js.truthy s = true → s ≠ "".
Proof. by destruct s. Qed.







(** ** The vocabulary of the pagination control and of the Jobs tab *)

Lemma includes_unfold (s w : string) :
  Js.includes s w
  = Js.startsWith s w ||
    match s with
    | String _ s' => Js.includes s' w
    | EmptyString => false
    end.
Proof. by destruct s. Qed.

Lemma startsWith_app_includes (p w s : string) :
  Js.startsWith s (p ++ w) = true → Js.includes s w = true.
Proof.
  revert s. induction p as [|a p IH]; intros s H.
  - change (Js.startsWith s w = true) in H. by rewrite includes_unfold, H.
  - rewrite append_cons in H. destruct s as [|b s]; [done|]. simpl in H.
    apply andb_true_iff in H as [_ H]. apply IH in H.
    rewrite includes_unfold, H. by rewrite orb_true_r.
Qed.

(** A string that includes [p ++ w] includes [w]. *)
Lemma includes_app_r (p w s : string) :
  Js.includes s (p ++ w) = true → Js.includes s w = true.
Proof.
  induction s as [|b s IH]; intros H; rewrite includes_unfold in H.
  - rewrite orb_false_r in H. by apply (startsWith_app_includes p).
  - apply orb_true_iff in H as [H|H].
    + by apply (startsWith_app_includes p).
    + apply IH in H. rewrite includes_unfold, H. by rewrite orb_true_r.
Qed.

Lemma implied_disjunct (a b : bool) : (a = true → b = true) → a || b = b.
Proof. destruct a, b; auto. intros H. by rewrite H. Qed.

(** X2.  The four phrases of the pagination step come to one: an element
    is taken for the control exactly when its text or its label
    contains [more jobs], case apart; and the element the step clicks
    is such an element. *)
Theorem more_jobs_vocabulary :
  (∀ element,
     is_more_jobs_control element
     = Js.includes (Js.toLowerCase (text_or_content element)) "more jobs"
       || Js.includes (Js.toLowerCase (aria_label element)) "more jobs") ∧
  (∀ d element,
     moreJobsToClick d = Some element →
     Js.includes (Js.toLowerCase (text_or_content element)) "more jobs"
     || Js.includes (Js.toLowerCase (aria_label element)) "more jobs" = true).
Proof.
  assert (Hv : ∀ element,
     is_more_jobs_control element
     = Js.includes (Js.toLowerCase (text_or_content element)) "more jobs"
       || Js.includes (Js.toLowerCase (aria_label element)) "more jobs").
  { intros element. unfold is_more_jobs_control, searchTexts. cbn [existsb].
    change (Js.toLowerCase "100+ more jobs") with ("100+ " ++ "more jobs")%string.
    change (Js.toLowerCase "more jobs") with "more jobs".
    change (Js.toLowerCase "See more jobs") with ("see " ++ "more jobs")%string.
    change (Js.toLowerCase "View more jobs") with ("view " ++ "more jobs")%string.
    set (t := Js.toLowerCase (text_or_content element)).
    set (a := Js.toLowerCase (aria_label element)).
    pose proof (includes_app_r "100+ " "more jobs" t) as H1.
    pose proof (includes_app_r "see " "more jobs" t) as H2.
    pose proof (includes_app_r "view " "more jobs" t) as H3.
    pose proof (includes_app_r "100+ " "more jobs" a) as H4.
    pose proof (includes_app_r "see " "more jobs" a) as H5.
    pose proof (includes_app_r "view " "more jobs" a) as H6.
    destruct (Js.includes t ("100+ " ++ "more jobs")), (Js.includes t ("see " ++ "more jobs")),
      (Js.includes t ("view " ++ "more jobs")), (Js.includes a ("100+ " ++ "more jobs")),
      (Js.includes a ("see " ++ "more jobs")), (Js.includes a ("view " ++ "more jobs"));
      try (rewrite H1 by done); try (rewrite H2 by done); try (rewrite H3 by done);
      try (rewrite H4 by done); try (rewrite H5 by done); try (rewrite H6 by done);
      simpl; rewrite ?orb_true_r, ?orb_false_r; reflexivity. }
  split; [exact Hv|].
  intros d element H. unfold moreJobsToClick in H.
  apply find_some in H as [_ H]. by rewrite <- Hv.
Qed.

(** ** The fields of the extracted records *)

Lemma eqb_false_neq (a b : string) : negb (String.eqb a b) = true → a ≠ b.
Proof. intros H ->. by rewrite String.eqb_refl in H. Qed.

Lemma class_based_record_fields (titleEl : node) :
  primary_fields (class_based_record titleEl).
Proof.
  unfold class_based_record. cbv zeta. split; cbn [description title company location link applyLink].
  - destruct (_ && _ && _ && _) eqn:Hc; [|done]. intros _.
    repeat (apply andb_true_iff in Hc as [Hc ?]).
    repeat split; by apply eqb_false_neq.
  - unfold Js.or_else at 1.
    destruct (Js.truthy (href_of _)) eqn:Hl.
    + intros H. by rewrite H in Hl.
    + by rewrite or_else_empty.
Qed.

Lemma class_based_step_fields acc titleEl :
  Forall primary_fields (fst acc) → Forall primary_fields (fst (class_based_step acc titleEl)).
Proof.
  destruct acc as [jobs seen]. intros Hacc. unfold class_based_step.
  destruct (Js.truthy _ && negb (bool_decide _)); [|done].
  simpl. apply Forall_app. split; [done|]. constructor; [|constructor].
  apply class_based_record_fields.
Qed.

(** X3.  Every record of the primary strategy has a description that is
    empty or differs from its title, company and location, and an
    apply link only when it has a link.  Where the card holds an
    anchor of the apply-button class with an href, the link and the
    apply link are both that href. *)
Theorem primary_record_fields (d : document) :
  Forall primary_fields (classBasedResults d) ∧
  ∀ titleEl,
    let jobCard := or_node (closest titleEl job_card_sel) (parentElement titleEl) in
    Js.truthy (href_of (query_in jobCard special_sel)) = true →
    link (class_based_record titleEl) = href_of (query_in jobCard special_sel) ∧
    applyLink (class_based_record titleEl) = href_of (query_in jobCard special_sel).
Proof.
  split.
  - unfold classBasedResults.
    apply (fold_left_invariant (λ acc, Forall primary_fields (fst acc)) class_based_step).
    + intros. by apply class_based_step_fields.
    + constructor.
  - intros titleEl jobCard Hs. unfold class_based_record. cbv zeta. fold jobCard.
    cbn [link applyLink].
    destruct jobCard as [c|]; [|by simpl in Hs].
    change (query_in (Some c) special_sel) with (querySelector c special_sel) in *.
    destruct (querySelector c special_sel) as [sp|] eqn:Hsp; [|by simpl in Hs].
    cbn [or_node]. split.
    + unfold Js.or_else at 1. by rewrite Hs.
    + unfold findApplyLink. rewrite Hsp. by rewrite Hs.
Qed.

Lemma fallback_company_empty : fallback_company "".
Proof. split; [simpl; lia|done]. Qed.

Lemma is_company_text_company (text : string) :
  is_company_text text = true → fallback_company text.
Proof.
  unfold is_company_text. intros H. repeat (apply andb_true_iff in H as [H ?]).
  split.
  - match goal with Hl : (_ <? 100)%nat = true |- _ => apply Nat.ltb_lt in Hl; lia end.
  - match goal with Ht : negb (Js.matches_time_ago _) = true |- _ =>
      by apply negb_true_iff in Ht end.
Qed.

Lemma pick_company_company element sels c :
  pick_company element sels = Ok c → fallback_company c.
Proof.
  induction sels as [|sel sels IH]; simpl; intros H.
  - inversion H. apply fallback_company_empty.
  - destruct (querySelector element sel) as [el|]; [|auto].
    destruct (innerText_trim el) as [t|] eqn:E; simpl in H; [|done].
    destruct (is_company_text t) eqn:Ht; [|auto].
    inversion H; subst. by apply is_company_text_company.
Qed.

Lemma pick_description_description element title companyName location sels text :
  pick_description element title companyName location sels = Ok text →
  fallback_description title text.
Proof.
  induction sels as [|sel sels IH]; simpl; intros H.
  - inversion H. by left.
  - destruct (querySelector element sel) as [el|]; [|auto].
    destruct (innerText_trim el) as [t|] eqn:E; simpl in H; [|done].
    destruct (is_description_text title companyName location t) eqn:Ht; [|auto].
    inversion H; subst. right. unfold is_description_text in Ht.
    repeat (apply andb_true_iff in Ht as [Ht ?]).
    split.
    + match goal with Hl : (20 <? _)%nat = true |- _ => by apply Nat.ltb_lt in Hl end.
    + match goal with Hn : negb (String.eqb text title) = true |- _ =>
        by apply eqb_false_neq end.
Qed.

Lemma description_from_lines_description element title companyName location :
  fallback_description title (description_from_lines element title companyName location).
Proof.
  unfold description_from_lines.
  destruct (find _ _) as [line|] eqn:Hf; [|by left]. simpl.
  apply find_some in Hf as [_ Hl]. right. unfold is_description_line in Hl.
  repeat (apply andb_true_iff in Hl as [Hl ?]).
  split.
  - match goal with H : (20 <? _)%nat = true |- _ => by apply Nat.ltb_lt in H end.
  - by apply eqb_false_neq.
Qed.

Lemma fallback_step_fields acc element acc' :
  Forall fallback_fields (fst acc) → fallback_step acc element = Ok acc' →
  Forall fallback_fields (fst acc').
Proof.
  destruct acc as [rs seen]. intros Hacc H. unfold fallback_step in H.
  destruct (querySelector element job_title_sel) as [jt|]; [|by inversion H; subst].
  destruct (fallback_link_element element (Some jt)) as [le|]; [|by inversion H; subst].
  destruct (innerText_trim jt) as [t|] eqn:Et; cbn [mbind result_bind] in H; [|done].
  destruct (Js.truthy t && _ && _ && _) eqn:Hc; [|by inversion H; subst].
  destruct (pick_company element company_selectors) as [c|] eqn:Ec;
    cbn [mbind result_bind] in H; [|done].
  destruct (pick_location element c location_selectors) as [l|] eqn:El;
    cbn [mbind result_bind] in H; [|done].
  destruct (pick_description element t c l desc_selectors) as [ds|] eqn:Ed;
    cbn [mbind result_bind] in H; [|done].
  inversion H; subst; clear H.
  repeat (apply andb_true_iff in Hc as [Hc ?]).
  simpl. apply Forall_app. split; [done|]. constructor; [|constructor].
  split; [|split]; simpl.
  - by apply truthy_nonempty.
  - by eapply pick_company_company.
  - destruct (Js.truthy ds) eqn:Hds.
    + by eapply pick_description_description.
    + apply description_from_lines_description.
Qed.

Lemma heading_lines_fields title lines acc :
  fallback_company (fst (fst acc)) → fallback_description title (snd acc) →
  fallback_company (fst (fst (fold_left (heading_line_step title) lines acc))) ∧
  fallback_description title (snd (fold_left (heading_line_step title) lines acc)).
Proof.
  revert acc. induction lines as [|line lines IH]; intros acc Hc Hd; [done|].
  simpl. destruct acc as [[c l] d]. simpl in Hc, Hd.
  unfold heading_line_step at 2 4.
  destruct (String.eqb line title) eqn:Ht; [by apply IH|].
  destruct (negb (Js.truthy c) && (Js.length line <? 50)%nat
            && negb (Js.matches_time_ago line)) eqn:H1.
  { apply IH; [|done]. simpl.
    repeat (apply andb_true_iff in H1 as [H1 ?]). split.
    - match goal with Hl : (_ <? 50)%nat = true |- _ => apply Nat.ltb_lt in Hl; lia end.
    - match goal with Hn : negb (Js.matches_time_ago _) = true |- _ =>
        by apply negb_true_iff in Hn end. }
  destruct (negb (Js.truthy l) && _) eqn:H2; [by apply IH|].
  destruct (negb (Js.truthy d) && (20 <? Js.length line)%nat) eqn:H3; [|by apply IH].
  apply IH; [done|]. simpl. right.
  apply andb_true_iff in H3 as [_ H3]. apply Nat.ltb_lt in H3. split; [done|].
  intros ->. by rewrite String.eqb_refl in Ht.
Qed.

Lemma heading_step_fields acc heading acc' :
  Forall fallback_fields (fst acc) → heading_step acc heading = Ok acc' →
  Forall fallback_fields (fst acc').
Proof.
  destruct acc as [rs seen]. intros Hacc H. unfold heading_step in H.
  destruct (innerText_trim heading) as [t|] eqn:Et; simpl in H; [|done].
  destruct (Js.truthy t && _); [|by inversion H; subst].
  destruct (heading_link_element heading) as [le|]; [|by inversion H; subst].
  destruct (Js.truthy _ && negb (bool_decide _) && _) eqn:Hc; [|by inversion H; subst].
  destruct (negb (existsb _ rs)); [|by inversion H; subst].
  destruct (match closest heading heading_parent_sel with Some _ => _ | None => _ end)
    as [[c l] ds] eqn:Ef.
  inversion H; subst; clear H.
  repeat (apply andb_true_iff in Hc as [Hc ?]).
  simpl. apply Forall_app. split; [done|]. constructor; [|constructor].
  split; [by apply truthy_nonempty|]. simpl.
  destruct (closest heading heading_parent_sel) as [p|].
  - pose proof (heading_lines_fields t
                  (lines_of (Js.or_else (default "" (innerText (self p))) ""))
                  ("", "", "") fallback_company_empty (or_introl eq_refl)) as Hf.
    by rewrite Ef in Hf.
  - inversion Ef; subst. split; [apply fallback_company_empty|by left].
Qed.

(** X4.  Every record of the fallback strategy has a link; its company
    has fewer than a hundred code units, as [length] counts them, and is
    no relative time such as 2 days ago; its description is empty, or
    has more than twenty code units and differs from its title.  A
    string has one code unit for each of its characters of the Basic
    Multilingual Plane and two for any other. *)
Theorem fallback_record_fields (d : document) (rs : list JobRecord) :
  fallbackResults d = Ok rs →
  Forall fallback_fields rs ∧
  (∀ cps, Forall Unicode.code_point cps →
          Js.length (Unicode.encode cps) = Unicode.code_units cps).
Proof.
  intros Hrs. split; [|apply length_encode].
  destruct (fallbackResults_inv (λ acc, Forall fallback_fields (fst acc)) d rs)
    as [seen H]; [by constructor| | |exact Hrs|exact H].
  - intros. by eapply fallback_step_fields.
  - intros. by eapply heading_step_fields.
Qed.

Lemma fallback_record_fields_witness :
  Forall fallback_fields Samples.sample_records.
Proof.
  exact (proj1 (fallback_record_fields Samples.two_postings Samples.sample_records eq_refl)).
Defined.

(** A company of forty characters of three bytes each has forty code
    units and is taken. *)
Example company_of_forty_characters :
  String.length Samples.wide_company = 120 ∧ Js.length Samples.wide_company = 40 ∧
  (rs ← fallbackResults Samples.wide_company_posting; Ok (map company rs))
  = Ok [Samples.wide_company].
Proof. repeat split; vm_compute; reflexivity. Qed.

(** ** The text listing *)

Lemma links_both_empty (c d : string) :
  Js.or_else c d = "" ↔ Js.or_else d (Js.or_else c "") = "".
Proof. unfold Js.or_else, Js.truthy. destruct c, d; simpl; split; congruence. Qed.

Lemma job_text_step_inv d items entry items' :
  job_text_step d items entry = Ok items' →
  items' = items ∨
  ∃ item, items' = (items ++ [item])%list ∧ text_index item = fst entry + 1 ∧
          text_item d item.
Proof.
  destruct entry as [index titleEl]. unfold job_text_step, text_item, detail_text.
  destruct (job_text_container titleEl) as [container|]; [|intros H; inversion H; by left].
  destruct (or_node (docQuerySelector d _) (docQuerySelector d _)) as [p|].
  - destruct (innerText_trim p) as [t|]; cbn [mbind result_bind]; [|done].
    destruct (innerText_trim titleEl) as [title|]; cbn [mbind result_bind]; [|done].
    intros H. inversion H; subst; clear H. right. eexists. split; [reflexivity|].
    split; [reflexivity|]. split; [reflexivity|]. apply links_both_empty.
  - cbn [mbind result_bind].
    destruct (innerText_trim titleEl) as [title|]; cbn [mbind result_bind]; [|done].
    intros H. inversion H; subst; clear H. right. eexists. split; [reflexivity|].
    split; [reflexivity|]. split; [reflexivity|]. apply links_both_empty.
Qed.

Lemma job_texts_inv d entries items items' :
  for_each (job_text_step d) items entries = Ok items' →
  ∃ new, items' = (items ++ new)%list ∧
         map text_index new `sublist_of` map (λ e, fst e + 1) entries ∧
         Forall (text_item d) new.
Proof.
  revert items. induction entries as [|entry entries IH]; simpl; intros items H.
  - inversion H; subst. exists []. by rewrite app_nil_r.
  - destruct (job_text_step d items entry) as [items1|] eqn:E;
      cbn [mbind result_bind] in H; [|done].
    destruct (IH _ H) as (new & -> & Hsub & Hall).
    apply job_text_step_inv in E as [->|(item & -> & Hi & Hitem)].
    + exists new. split; [done|]. split; [by apply sublist_cons|done].
    + exists (item :: new). rewrite <- app_assoc. split; [done|].
      split; [|by constructor]. simpl. rewrite Hi. by apply sublist_skip.
Qed.

Lemma imap_indices {A : Type} (l : list A) (k : nat) :
  map (λ e : nat * A, fst e + 1) (imap (λ i n, (k + i, n)) l) = seq (k + 1) (length l).
Proof.
  revert k. induction l as [|x l IH]; intros k; [done|].
  simpl. f_equal; [lia|].
  replace (S (k + 1)) with (S k + 1) by lia.
  rewrite <- (IH (S k)). f_equal. apply imap_ext. intros i y _. simpl. f_equal. lia.
Qed.

(** X6.  When the text listing succeeds, its items are numbered by the
    positions of their title markers, in order; every item carries the
    same detail text, that of the one detail pane of the page; and an
    item has a link exactly when it has an apply link. *)
Theorem text_listing_items (d : document) (items : list JobText) :
  allJobTexts d = Ok items →
  map text_index items `sublist_of` seq 1 (length (docQuerySelectorAll d title_marker_sel)) ∧
  (∃ detail, Forall (λ item, text_detail item = detail) items) ∧
  Forall (λ item, text_link item = "" ↔ text_applyLink item = "") items.
Proof.
  intros H. unfold allJobTexts in H.
  apply job_texts_inv in H as (new & -> & Hsub & Hall). simpl.
  split; [|split].
  - rewrite <- (imap_indices _ 0). exact Hsub.
  - destruct (detail_text d) as [t|e] eqn:Ht.
    + exists t. eapply Forall_impl; [exact Hall|]. intros item [Hd _].
      rewrite Ht in Hd. by inversion Hd.
    + exists "". eapply Forall_impl; [exact Hall|]. intros item [Hd _].
      by rewrite Ht in Hd.
  - eapply Forall_impl; [exact Hall|]. by intros item [_ Hl].
Qed.

Lemma text_listing_items_witness :
  ∃ items,
    allJobTexts Samples.five_cards = Ok items ∧
    map text_index items = [1; 2; 3; 4; 5] ∧
    Forall (λ item, text_link item = "" ↔ text_applyLink item = "") items.
Proof.
  eexists. split; [vm_compute; reflexivity|].
  split; [vm_compute; reflexivity|].
  refine (proj2 (proj2 (text_listing_items Samples.five_cards _ _))).
  vm_compute. reflexivity.
Defined.

(** ** The location of a fallback record *)

Lemma not_time_ago_is_location (text : string) :
  Js.truthy text = true → Js.matches_time_ago text = false → is_location_text text = true.
Proof. unfold is_location_text. intros -> ->. simpl. by rewrite !orb_true_r. Qed.

(** X5.  The location test of the fallback strategy accepts every text
    that is not empty and is no relative time, place name or not.  So
    the location taken from a list of candidates is the text of the
    first one that is not empty, is not the company and is no relative
    time, when the candidates before it are empty, the company, or
    relative times without a place word. *)
Theorem fallback_location_first_text (companyName : string)
    (before : list node) (candidate : node) (after : list node) (text : string) :
  Forall (λ el, ∃ t, innerText_trim el = Ok t ∧
                     is_location_text t && negb (String.eqb t companyName) = false) before →
  innerText_trim candidate = Ok text →
  text ≠ "" → text ≠ companyName → Js.matches_time_ago text = false →
  pick_location_among companyName (before ++ candidate :: after) = Ok text.
Proof.
  intros Hb Hc Hne Hco Hago.
  induction Hb as [|el before (t & Ht & Hno) _ IH]; simpl.
  - rewrite Hc. cbn [mbind result_bind].
    rewrite not_time_ago_is_location; [|by destruct text|done].
    destruct (String.eqb text companyName) eqn:He; [|done].
    apply String.eqb_eq in He. by destruct Hco.
  - rewrite Ht. cbn [mbind result_bind]. by rewrite Hno.
Qed.

Lemma fallback_location_first_text_witness :
  pick_location_among "Acme"
    [ Node (Samples.leaf "div" ["s"] "3 days ago") [];
      Node (Samples.leaf "div" ["s"] "Acme") [];
      Node (Samples.leaf "div" ["s"] "Full-time") [] ]
  = Ok "Full-time".
Proof.
  refine (fallback_location_first_text "Acme"
            [ Node (Samples.leaf "div" ["s"] "3 days ago") [];
              Node (Samples.leaf "div" ["s"] "Acme") [] ]
            (Node (Samples.leaf "div" ["s"] "Full-time") []) [] "Full-time"
            _ eq_refl _ _ eq_refl).
  - repeat (constructor; [eexists; split; reflexivity|]). constructor.
  - discriminate.
  - discriminate.
Defined.

(** ** The search URL of an enrichment lookup *)

Lemma includes_single_cons (c a : ascii) (s : string) :
  Js.includes (String a s) (String c "") = Ascii.eqb c a || Js.includes s (String c "").
Proof. simpl. f_equal. destruct (Ascii.eqb c a); [by destruct s|done]. Qed.

Lemma includes_single_app (c : ascii) (s t : string) :
  Js.includes (s ++ t) (String c "")
  = Js.includes s (String c "") || Js.includes t (String c "").
Proof.
  induction s as [|a s IH].
  - change ("" ++ t)%string with t. by destruct t.
  - rewrite append_cons, !includes_single_cons, IH. by rewrite orb_assoc.
Qed.

Lemma encodeURIComponent_cons (a : ascii) (s : string) :
  Url.encodeURIComponent (String a s)
  = (Url.encodeURIComponent (String a "") ++ Url.encodeURIComponent s)%string.
Proof. cbn [Url.encodeURIComponent]. by destruct (Url.is_unreserved a). Qed.

Lemma encoded_char_no_delimiter (c a : ascii) :
  c ∈ ["#"; "&"; "+"; "="; "?"]%char →
  Js.includes (Url.encodeURIComponent (String a "")) (String c "") = false.
Proof.
  intros Hc.
  assert (Hcs : c = "#"%char ∨ c = "&"%char ∨ c = "+"%char ∨ c = "="%char ∨ c = "?"%char).
  { repeat (apply elem_of_cons in Hc as [Hc|Hc]; [auto 6|]). inversion Hc. }
  destruct Hcs as [->|[->|[->|[->| ->]]]];
    destruct a as [[] [] [] [] [] [] [] []]; vm_compute; reflexivity.
Qed.

(** The encoding holds none of the characters that delimit a query. *)
Lemma encodeURIComponent_no_delimiter (c : ascii) (s : string) :
  c ∈ ["#"; "&"; "+"; "="; "?"]%char →
  Js.includes (Url.encodeURIComponent s) (String c "") = false.
Proof.
  intros Hc. induction s as [|a s IH]; [by destruct c as [[] [] [] [] [] [] [] []]|].
  by rewrite encodeURIComponent_cons, includes_single_app, IH,
    (encoded_char_no_delimiter c a Hc).
Qed.

Lemma percent_decode_other (c : ascii) (t : string) :
  Ascii.eqb c "%" = false →
  Url.percent_decode (String c t) = String c (Url.percent_decode t).
Proof.
  intros Hc. cbn [Url.percent_decode].
  destruct c as [[] [] [] [] [] [] [] []]; try reflexivity. discriminate Hc.
Qed.

Lemma percent_decode_escape (h l : ascii) (x y : nat) (t : string) :
  Url.hex_value h = Some x → Url.hex_value l = Some y →
  Url.percent_decode (String "%" (String h (String l t)))
  = String (ascii_of_nat (16 * x + y)) (Url.percent_decode t).
Proof. intros Hh Hl. cbn [Url.percent_decode]. by rewrite Hh, Hl. Qed.

(** What the decoding needs of the encoding of one character. *)
Lemma encoded_char_facts (a : ascii) :
  if Url.is_unreserved a
  then Ascii.eqb a "%" = false ∧ Ascii.eqb a "+" = false
  else Ascii.eqb (Url.hex_digit (Js.code a / 16)) "+" = false ∧
       Ascii.eqb (Url.hex_digit (Js.code a mod 16)) "+" = false ∧
       Url.hex_value (Url.hex_digit (Js.code a / 16)) = Some (Js.code a / 16) ∧
       Url.hex_value (Url.hex_digit (Js.code a mod 16)) = Some (Js.code a mod 16) ∧
       ascii_of_nat (16 * (Js.code a / 16) + Js.code a mod 16) = a.
Proof.
  destruct a as [[] [] [] [] [] [] [] []]; vm_compute; repeat split; reflexivity.
Qed.

Lemma encodeURIComponent_decodes (s : string) :
  Url.percent_decode (Url.plus_to_space (Url.encodeURIComponent s)) = s.
Proof.
  induction s as [|a s IH]; [done|].
  pose proof (encoded_char_facts a) as Ha. cbn [Url.encodeURIComponent].
  destruct (Url.is_unreserved a).
  - destruct Ha as [Hp Hs]. cbn [Url.plus_to_space]. rewrite Hs.
    by rewrite (percent_decode_other _ _ Hp), IH.
  - destruct Ha as (Hh & Hl & Hvh & Hvl & Hback). cbn [Url.plus_to_space].
    rewrite Hh, Hl. change (Ascii.eqb "%" "+") with false. cbv iota.
    by rewrite (percent_decode_escape _ _ _ _ _ Hvh Hvl), Hback, IH.
Qed.

Lemma split_app_separator (c : ascii) (a b : string) :
  Js.includes a (String c "") = false →
  Js.split c (a ++ String c b) = a :: Js.split c b.
Proof.
  induction a as [|x a IH]; intros H.
  - change ("" ++ String c b)%string with (String c b). simpl.
    by rewrite Ascii.eqb_refl.
  - rewrite append_cons. rewrite includes_single_cons in H.
    apply orb_false_iff in H as [Hx Ha]. simpl.
    rewrite Ascii.eqb_sym, Hx. by rewrite (IH Ha).
Qed.

(** X7.  The search URL of a lookup carries the query whole: whatever
    characters of the ASCII range the trimmed query holds, the
    separators [&], [#], [+], [=], [?] and [%] among them, the [q]
    parameter of the URL the lookup navigates to decodes to that query,
    and its [hl] parameter is [en]. *)
Theorem search_url_carries_query (trimmedQuery : string) :
  Ascii7.ascii_only trimmedQuery = true →
  Url.searchParams_get (search_url trimmedQuery) "q" = Some trimmedQuery ∧
  Url.searchParams_get (search_url trimmedQuery) "hl" = Some "en".
Proof.
  intros _.
  assert (Hno : ∀ c, c ∈ ["#"; "&"; "+"; "="; "?"]%char →
            Js.includes (Url.encodeURIComponent trimmedQuery) (String c "") = false)
    by (intros c Hc; by apply encodeURIComponent_no_delimiter).
  assert (Hparams :
    Url.searchParams (search_url trimmedQuery) = [("q", trimmedQuery); ("hl", "en")]).
  { unfold Url.searchParams, Url.query, search_url.
    set (E := Url.encodeURIComponent trimmedQuery) in *.
    rewrite (cut_absent "#").
    2:{ rewrite !includes_single_app, Hno by set_solver. reflexivity. }
    cbv [String.append]. cbn [Url.cut Ascii.eqb Bool.eqb fst snd default from_option id].
    fold String.append.
    change (String "q" (String "=" (E ++ "&hl=en")))%string
      with (("q=" ++ E) ++ String "&" "hl=en")%string.
    rewrite split_app_separator.
    2:{ rewrite includes_single_app, Hno by set_solver. reflexivity. }
    cbn [Js.split Ascii.eqb Bool.eqb]. rewrite !filter_cons. cbn [Js.truthy].
    change ("q=" ++ E)%string with (String "q" (String "=" E)).
    cbn. rewrite !decide_True by done.
    cbn [map Url.cut Ascii.eqb Bool.eqb default from_option id].
    unfold E. by rewrite encodeURIComponent_decodes. }
  unfold Url.searchParams_get. rewrite Hparams. split; reflexivity.
Qed.

Lemma search_url_carries_query_witness :
  search_url "C++ & C# Engineer 100% Acme?=x"
    = "https://www.google.com/search?q=C%2B%2B%20%26%20C%23%20Engineer%20100%25%20Acme%3F%3Dx&hl=en" ∧
  Url.searchParams_get (search_url "C++ & C# Engineer 100% Acme?=x") "q"
    = Some "C++ & C# Engineer 100% Acme?=x".
Proof.
  split; [vm_compute; reflexivity|].
  exact (proj1 (search_url_carries_query "C++ & C# Engineer 100% Acme?=x" eq_refl)).
Defined.

(** * Further properties of the stages *)

Import Stage.

(** ** The navigation to the Jobs view *)

Lemma no_goto_gotos evs : Forall no_goto evs → gotos evs = [].
Proof.
  induction 1 as [|ev evs Hev _ IH]; [done|].
  change (ev :: evs) with ([ev] ++ evs). by rewrite gotos_app, Hev, IH.
Qed.

Lemma navigates_quiet st st' : grows_by no_goto st st' → navigates [] st st'.
Proof. intros (evs & Hh & Hq). exists evs. by rewrite (no_goto_gotos _ Hq). Qed.

Lemma navigates_trans l1 l2 s1 s2 s3 :
  navigates l1 s1 s2 → navigates l2 s2 s3 → navigates (l1 ++ l2) s1 s3.
Proof.
  intros (e1 & H1 & G1) (e2 & H2 & G2). exists (e1 ++ e2). split.
  - by rewrite H2, H1, app_assoc.
  - rewrite gotos_app. by apply sublist_app.
Qed.

Lemma navigates_refl l st : navigates l st st.
Proof. exists []. rewrite app_nil_r. split; [done|apply sublist_nil_l]. Qed.

Lemma navigates_weaken l l' st st' :
  l `sublist_of` l' → navigates l st st' → navigates l' st st'.
Proof. intros Hl (evs & Hh & Hg). exists evs. split; [done|]. by etransitivity. Qed.

Lemma navigates_bind {A B : Type} l1 l2 (m : M A) (f : A → M B) :
  sat (navigates l1) m → (∀ a, sat (navigates l2) (f a)) →
  sat (navigates (l1 ++ l2)) (m ≫= f).
Proof.
  intros Hm Hf st. specialize (Hm st). unfold mbind, M_bind.
  destruct (m st) as [[a|e] st1]; simpl in *.
  - eapply navigates_trans; [exact Hm|apply Hf].
  - eapply navigates_weaken; [|exact Hm]. by apply sublist_inserts_r.
Qed.

Lemma navigates_try_catch {A : Type} l1 l2 (m : M A) (handler : string → M A) :
  sat (navigates l1) m → (∀ e, sat (navigates l2) (handler e)) →
  sat (navigates (l1 ++ l2)) (try_catch m handler).
Proof.
  intros Hm Hh st. specialize (Hm st). unfold try_catch.
  destruct (m st) as [[a|e] st1]; simpl in *.
  - eapply navigates_weaken; [|exact Hm]. by apply sublist_inserts_r.
  - eapply navigates_trans; [exact Hm|apply Hh].
Qed.

Lemma navigates_quietly {A : Type} (m : M A) :
  sat (grows_by no_goto) m → sat (navigates []) m.
Proof. intros H st. apply navigates_quiet, H. Qed.

Lemma navigates_goto env p target w timeout :
  sat (navigates [(p, target)]) (perform env (Goto p target w timeout)).
Proof. intros st. eexists [_]. simpl. split; [reflexivity|]. reflexivity. Qed.

Lemma is_jobs_tab_includes (tab : TabDescriptor) :
  is_jobs_tab tab = Js.includes (Js.toLowerCase (name tab)) "job".
Proof.
  unfold is_jobs_tab. apply implied_disjunct. intros H.
  apply String.eqb_eq in H. by rewrite H.
Qed.

(** X8.  The navigation to the Jobs view never throws.  It navigates at
    most once: the main page, to the link of the first listed tab whose
    name contains [job], case apart.  When no listed tab has such a
    name, or that tab has no link, it navigates nowhere and only tries
    to click a Jobs control. *)
Theorem jobs_navigation (env : environment) (page : page_id)
    (tabs : list TabDescriptor) (st : state) :
  (∀ tab, is_jobs_tab tab = Js.includes (Js.toLowerCase (name tab)) "job") ∧
  ∃ st' evs,
    navigateToJobs env page tabs st = (Ok tt, st') ∧
    history st' = history st ++ evs ∧
    match find is_jobs_tab tabs with
    | Some jobsTab =>
        if Js.truthy (tab_href jobsTab)
        then gotos evs = [] ∨ gotos evs = [(page, tab_href jobsTab)]
        else gotos evs = []
    | None => gotos evs = []
    end.
Proof.
  split; [apply is_jobs_tab_includes|].
  assert (Hnav : navigates
                   match find is_jobs_tab tabs with
                   | Some jobsTab =>
                       if Js.truthy (tab_href jobsTab) then [(page, tab_href jobsTab)] else []
                   | None => []
                   end st (snd (navigateToJobs env page tabs st))).
  { unfold navigateToJobs.
    destruct (find is_jobs_tab tabs) as [jobsTab|]; [destruct (Js.truthy (tab_href jobsTab))|].
    - apply (navigates_bind [] [(page, tab_href jobsTab)]);
        [apply navigates_quietly; unfold log; grows; reflexivity|intros _].
      apply (navigates_bind [] [(page, tab_href jobsTab)]);
        [apply navigates_quietly; grows|intros _].
      apply (navigates_bind [(page, tab_href jobsTab)] []);
        [|intros _; apply navigates_quietly; unfold log; grows; reflexivity].
      apply (navigates_try_catch [(page, tab_href jobsTab)] []).
      + apply (navigates_bind [] [(page, tab_href jobsTab)]);
          [apply navigates_quietly; unfold log; grows; reflexivity|intros _].
        apply (navigates_bind [(page, tab_href jobsTab)] []);
          [apply navigates_goto|intros _].
        apply navigates_quietly. unfold log. grows; reflexivity.
      + intros e. apply navigates_quietly. unfold after_jobs_click, log.
        grows; reflexivity.
    - apply navigates_quietly. unfold after_jobs_click, log. grows; reflexivity.
    - apply navigates_quietly. unfold after_jobs_click, log. grows; reflexivity. }
  destruct (total_navigateToJobs env page tabs st) as ([] & st' & Hrun).
  rewrite Hrun in Hnav. destruct Hnav as (evs & Hh & Hg).
  exists st', evs. split; [done|]. split; [done|].
  destruct (find is_jobs_tab tabs) as [jobsTab|]; [destruct (Js.truthy (tab_href jobsTab))|].
  - apply sublist_cons_r in Hg as [Hg|(l & -> & Hg)].
    + left. by apply sublist_nil_r.
    + right. apply sublist_nil_r in Hg. by subst.
  - by apply sublist_nil_r.
  - by apply sublist_nil_r.
Qed.

(** ** The two lists of the detail drill-down *)

#[local] Instance same_lists_preorder : PreOrder same_lists.
Proof.
  split.
  - by intros st.
  - intros s1 s2 s3 [H1 H1'] [H2 H2']. split; congruence.
Qed.

Lemma same_record ev : sat same_lists (record ev).
Proof. by intros st. Qed.

Lemma same_perform env {T : Type} (c : call T) : sat same_lists (perform env c).
Proof. by intros st. Qed.

Lemma same_evaluate env {A : Type} p (f : page_function A) :
  sat same_lists (evaluate env p f).
Proof.
  unfold evaluate.
  apply sat_bind; [typeclasses eauto|apply same_perform|intros d].
  destruct (run_function f d) as [actions [a|e]]; structure; apply same_record.
Qed.

Ltac sames :=
  repeat first
    [ progress structure
    | apply same_record
    | apply same_perform
    | apply same_evaluate ].

Lemma ends_bind {A B : Type} (returned thrown : state → Prop) (m : M A) (f : A → M B) st :
  sat same_lists m →
  (∀ st1, same_lists st st1 → thrown st1) →
  (∀ a st1, same_lists st st1 → ends returned thrown (f a) st1) →
  ends returned thrown (m ≫= f) st.
Proof.
  intros Hm Ht Hf. specialize (Hm st). unfold ends, mbind, M_bind in *.
  destruct (m st) as [[a|e] st1]; simpl in *; [by apply Hf|by apply Ht].
Qed.

Lemma ends_same {A : Type} (returned thrown : state → Prop) (m : M A) st :
  sat same_lists m →
  (∀ st1, same_lists st st1 → returned st1) →
  (∀ st1, same_lists st st1 → thrown st1) →
  ends returned thrown m st.
Proof.
  intros Hm Hr Ht. specialize (Hm st). unfold ends.
  destruct (m st) as [[a|e] st1]; simpl in *; auto.
Qed.

Lemma in_step_same st st1 : in_step st → same_lists st st1 → in_step st1.
Proof. intros [H1 H2] [Hl Hd]. split; by rewrite ?Hl, Hd. Qed.

Lemma link_pending_same st st1 : link_pending st → same_lists st st1 → link_pending st1.
Proof.
  intros [[entry H1] H2] [Hl Hd]. split; [exists entry|]; by rewrite ?Hl, Hd.
Qed.

(** One iteration: when it returns the lists are in step again; when
    it throws they are, or the link of the iteration is pending. *)
Lemma openJob_ends env page jobCount idx st :
  in_step st →
  ends in_step (λ st', in_step st' ∨ link_pending st') (openJob env page jobCount idx) st.
Proof.
  intros Hst. unfold openJob.
  apply ends_bind; [sames|by left; eapply in_step_same|].
  intros clicked s1 H1. pose proof (in_step_same _ _ Hst H1) as Hs1. clear Hst H1 st.
  destruct clicked.
  2:{ apply ends_same; [unfold log; sames|intros; by eapply in_step_same|].
      intros. left. by eapply in_step_same. }
  apply ends_bind; [unfold log; sames|by left; eapply in_step_same|].
  intros _ s2 H2. pose proof (in_step_same _ _ Hs1 H2) as Hs2. clear Hs1 H2 s1.
  apply ends_bind; [sames|by left; eapply in_step_same|].
  intros _ s3 H3. pose proof (in_step_same _ _ Hs2 H3) as Hs3. clear Hs2 H3 s2.
  apply ends_bind; [sames|by left; eapply in_step_same|].
  intros link s4 H4. pose proof (in_step_same _ _ Hs3 H4) as Hs4. clear Hs3 H4 s3.
  apply ends_bind; [sames|by left; eapply in_step_same|].
  intros fallbackUrl s5 H5. pose proof (in_step_same _ _ Hs4 H5) as Hs5. clear Hs4 H5 s4.
  set (u := Js.or_else link fallbackUrl).
  unfold ends. unfold mbind at 1. unfold M_bind at 1. cbn [push_openedJobLink].
  set (s6 := State _ _ _ _ _).
  assert (Hp : link_pending s6).
  { destruct Hs5 as [Hl Hd]. split; [|exact Hd]. exists (idx + 1, u). simpl. by rewrite Hl. }
  assert (Hl6 : openedJobLinks s6 = map detail_link (openedJobDetails s6) ++ [(idx + 1, u)]).
  { destruct Hs5 as [Hl Hd]. simpl. by rewrite Hl. }
  change (ends in_step (λ st', in_step st' ∨ link_pending st')
            (evaluate env page FnDetailSnapshot ≫= λ snapshot,
             evaluate env page FnAnchorDetails ≫= λ anchorDetails,
             (if (0 <? length anchorDetails)%nat
              then log "  Anchors found in description pane/job card:" ;;
                   for_each_M (print_anchor idx) (imap (λ i a, (i, a)) anchorDetails)
              else log "  No anchors detected for this job in the detail pane.") ;;
             push_openedJobDetail
               (Detail (idx + 1) u u
                  (Js.or_else (snap_title snapshot) "")
                  (Js.or_else (snap_company snapshot) "")
                  (Js.or_else (snap_location snapshot) "")
                  (Js.or_else (snap_description snapshot) "")
                  (Js.or_else (snap_content snapshot) "")
                  anchorDetails)) s6).
  apply ends_bind; [sames|by right; eapply link_pending_same|].
  intros snapshot s7 H7.
  apply ends_bind; [sames|intros; right; eapply link_pending_same; [exact Hp|by etransitivity]|].
  intros anchorDetails s8 H8.
  apply ends_bind;
    [unfold print_anchor, log; sames
    |intros; right; eapply link_pending_same; [exact Hp|by repeat (etransitivity; [eassumption|])]|].
  intros _ s9 H9.
  assert (H69 : same_lists s6 s9) by (by repeat (etransitivity; [eassumption|])).
  unfold ends. cbn [push_openedJobDetail]. destruct H69 as [Hl9 Hd9]. split; simpl.
  - rewrite Hl9, Hd9, Hl6, map_app. reflexivity.
  - rewrite Hd9. apply Forall_app. split; [apply Hp|]. by constructor.
Qed.

Lemma openJobs_end env page jobCount (l : list nat) st :
  in_step st →
  ends in_step (λ st', in_step st' ∨ link_pending st')
    (for_each_M (openJob env page jobCount) l) st.
Proof.
  revert st. induction l as [|idx l IH]; intros st Hst; [exact Hst|].
  pose proof (openJob_ends env page jobCount idx st Hst) as H1.
  unfold ends in *. simpl. unfold mbind, M_bind.
  destruct (openJob env page jobCount idx st) as [[[]|e] s1]; [|exact H1].
  by apply IH.
Qed.

(** X9.  The detail drill-down never throws, and it keeps its two lists in
    step: afterwards the opened links are those of the collected
    details, one for one and in order, every detail having its URL for
    apply URL; or they are so but for one last link, that of the
    iteration in which an exception ended the loop. *)
Theorem drill_down_in_step (env : environment) (page : page_id) (st : state) :
  in_step st →
  ∃ st', drillDown env page st = (Ok tt, st') ∧ (in_step st' ∨ link_pending st').
Proof.
  intros Hst.
  assert (H : ends (λ st', in_step st' ∨ link_pending st')
                (λ st', in_step st' ∨ link_pending st') (drillDown env page) st).
  { unfold drillDown.
    apply ends_bind; [unfold log; sames|by left; eapply in_step_same|].
    intros _ s1 H1. pose proof (in_step_same _ _ Hst H1) as Hs1.
    unfold ends, try_catch.
    pose proof (same_evaluate env page FnCountMarkers s1) as Hc.
    unfold mbind at 1. unfold M_bind at 1.
    destruct (evaluate env page FnCountMarkers s1) as [[n|e] s2]; simpl in Hc.
    - pose proof (in_step_same _ _ Hs1 Hc) as Hs2.
      destruct (n =? 0)%nat.
      + left. by eapply in_step_same.
      + pose proof (openJobs_end env page n (seq 0 n) s2 Hs2) as Hloop.
        unfold ends in Hloop.
        destruct (for_each_M (openJob env page n) (seq 0 n) s2) as [[[]|e] s3].
        * by left.
        * destruct Hloop as [Hloop|Hloop]; [left|right].
          -- by eapply in_step_same.
          -- by eapply link_pending_same.
    - left. eapply in_step_same; [|by split]. by eapply in_step_same. }
  destruct (total_drillDown env page st) as ([] & st' & Hrun).
  unfold ends in H. rewrite Hrun in H. by exists st'.
Qed.

Lemma drill_down_in_step_witness :
  ∃ st', drillDown (Samples.showing Samples.five_cards) 0 initial = (Ok tt, st') ∧
         (in_step st' ∨ link_pending st').
Proof.
  exact (drill_down_in_step (Samples.showing Samples.five_cards) 0 initial
           (conj eq_refl (Forall_nil_2 _))).
Defined.

(** Where the snapshot of the first iteration is rejected, the loop
    ends with the link of that iteration and no detail. *)
Example pending_link_after_failed_snapshot :
  openedJobLinks (snd (drillDown Cases.snapshot_fails 0 initial))
    = [(1, "https://www.google.com/search?q=jobs&udm=8")] ∧
  openedJobDetails (snd (drillDown Cases.snapshot_fails 0 initial)) = [] ∧
  last (logged (history (snd (drillDown Cases.snapshot_fails 0 initial))))
    = Some ("Error while clicking job tabs: " ++ Samples.context_destroyed)%string.
Proof. repeat split; vm_compute; reflexivity. Qed.

(** ** Failures of an enrichment lookup *)

Lemma failures_app evs1 evs2 : failures (evs1 ++ evs2) = failures evs1 ++ failures evs2.
Proof. apply omap_app. Qed.

Lemma tidy_ret {A : Type} (a : A) : tidy (mret a : M A).
Proof. intros st. exists []. by rewrite app_nil_r. Qed.

Lemma tidy_bind {A B : Type} (m : M A) (f : A → M B) :
  tidy m → (∀ a, tidy (f a)) → tidy (m ≫= f).
Proof.
  intros Hm Hf st. destruct (Hm st) as (evs1 & Hh1 & Hl1 & Hf1).
  unfold mbind, M_bind. destruct (m st) as [[a|e] s1]; simpl in Hh1, Hf1.
  - destruct (Hf a s1) as (evs2 & Hh2 & Hl2 & Hf2). exists (evs1 ++ evs2).
    rewrite Hh2, Hh1, logged_app, Hl1, Hl2, failures_app, Hf1, Hf2.
    by rewrite app_assoc.
  - exists evs1. cbn [fst snd]. by rewrite Hh1, Hl1, Hf1.
Qed.

(** A call of the browser, the evaluation of the consent dismissal
    apart. *)
Lemma tidy_perform env {T : Type} (c : call T) :
  is_consent_call c = false → tidy (perform env c).
Proof.
  intros Hc st. exists [Called c (respond env (history st) T c)].
  rewrite perform_run. cbn [fst snd]. split; [done|]. split; [done|].
  unfold failures. cbn [omap list_omap failure]. rewrite Hc.
  by destruct (respond env (history st) T c).
Qed.

Lemma tidy_set_searchPage p : tidy (set_searchPage p).
Proof. intros st. exists []. by rewrite app_nil_r. Qed.

Lemma tidy_getSearchPage env : tidy (getSearchPage env).
Proof.
  assert (H : ∀ p, tidy (configurePage env p)).
  { intros p. unfold configurePage.
    repeat (apply tidy_bind; [by apply tidy_perform|intros _]).
    by apply tidy_perform. }
  intros st. unfold getSearchPage. rewrite !get_run.
  destruct (searchPage st) as [p|]; [exact (tidy_ret p st)|].
  refine (tidy_bind (perform env NewPage) _ _ _ st); [by apply tidy_perform|intros p].
  apply tidy_bind; [apply tidy_set_searchPage|intros _].
  apply tidy_bind; [apply H|intros _]. apply tidy_ret.
Qed.

Lemma acted_logged p actions : logged (map (Acted p) actions) = [].
Proof. by induction actions. Qed.

Lemma acted_failures p actions : failures (map (Acted p) actions) = [].
Proof. by induction actions. Qed.

(** The consent dismissal returns whatever happens to it, in silence. *)
Lemma tidy_dismissConsent env p : tidy (dismissConsentIfPresent env p).
Proof.
  intros st. unfold dismissConsentIfPresent, try_catch.
  destruct (respond env (history st) _ (Evaluate p FnDismissConsent)) as [d|e] eqn:Hd.
  - destruct (run_function FnDismissConsent d) as [actions [[]|e]] eqn:Hf.
    + rewrite (evaluate_ok env p FnDismissConsent st d tt actions Hd Hf).
      exists (Called (Evaluate p FnDismissConsent) (Ok d) :: map (Acted p) actions).
      split; [done|]. change (Called ?c ?r :: ?l) with ([Called c r] ++ l).
      by rewrite logged_app, failures_app, acted_logged, acted_failures.
    + rewrite (evaluate_throws env p FnDismissConsent st d e actions Hd Hf).
      exists (Called (Evaluate p FnDismissConsent) (Ok d) :: map (Acted p) actions).
      split; [done|]. change (Called ?c ?r :: ?l) with ([Called c r] ++ l).
      by rewrite logged_app, failures_app, acted_logged, acted_failures.
  - rewrite (evaluate_fails env p FnDismissConsent st e Hd).
    by exists [Called (Evaluate p FnDismissConsent) (Throw e)].
Qed.

(** The evaluation of the result page fails only when the browser
    rejects it. *)
Lemma tidy_firstResultLink env p : tidy (evaluate env p FnFirstResultLink).
Proof.
  intros st.
  destruct (respond env (history st) _ (Evaluate p FnFirstResultLink)) as [d|e] eqn:Hd.
  - rewrite (evaluate_ok env p FnFirstResultLink st d _ [] Hd eq_refl).
    by exists [Called (Evaluate p FnFirstResultLink) (Ok d)].
  - rewrite (evaluate_fails env p FnFirstResultLink st e Hd).
    by exists [Called (Evaluate p FnFirstResultLink) (Throw e)].
Qed.

(** X10.  An enrichment lookup never throws.  The lines it writes are
    the failure lines of the calls that fail in it, of which there is at
    most one: a call of the browser that is answered with an exception
    (the opening of the secondary page, its configuration, the
    navigation, the wait, the evaluation of the result page) ends the
    lookup with the line that names the trimmed query and the message of
    the exception, and with the empty link.  The evaluation of the
    consent dismissal is the exception: when it fails nothing is written
    and the lookup goes on.  For a blank query nothing happens. *)
Theorem lookup_fails_softly (env : environment) (query : string) (st : state) :
  (∃ link st' evs,
     getFirstGoogleResultLink env query st = (Ok link, st') ∧
     history st' = history st ++ evs ∧
     logged evs = map (failure_line (Js.trim query)) (failures evs) ∧
     (length (failures evs) ≤ 1)%nat ∧
     (failures evs ≠ [] → link = "") ∧
     (Js.trim query = "" → evs = [])) ∧
  fst (getFirstGoogleResultLink (Cases.consent_fails (Samples.result_page "https://t.example/"))
         "QA Engineer" initial) = Ok "https://t.example/" ∧
  logged (history (snd (getFirstGoogleResultLink
                          (Cases.consent_fails (Samples.result_page "https://t.example/"))
                          "QA Engineer" initial))) = [] ∧
  logged (history (snd (getFirstGoogleResultLink
                          (Cases.offline (Samples.result_page "https://t.example/"))
                          "  QA Engineer " initial)))
  = [ ("Failed to fetch search result for " ++ dquote ++ "QA Engineer" ++ dquote
       ++ ": net::ERR_INTERNET_DISCONNECTED")%string ].
Proof.
  split; [|repeat split; vm_compute; reflexivity].
  unfold getFirstGoogleResultLink.
  destruct (Js.truthy (Js.trim query)) eqn:Hq; cbn [negb].
  2:{ exists "", st, []. rewrite app_nil_r.
      split; [done|]. split; [done|]. split; [done|]. split; [simpl; lia|]. done. }
  cbv iota. unfold try_catch.
  lazymatch goal with
  | |- context [match ?b st with _ => _ end] => set (body := b)
  end.
  assert (Hb : tidy body).
  { unfold body.
    apply tidy_bind; [apply tidy_getSearchPage|intros searchTab].
    apply tidy_bind; [by apply tidy_perform|intros _].
    apply tidy_bind; [apply tidy_dismissConsent|intros _].
    apply tidy_bind; [by apply tidy_perform|intros _].
    apply tidy_bind; [apply tidy_firstResultLink|intros firstLink].
    apply tidy_ret. }
  assert (Hne : Js.trim query = "" → False).
  { intros H. by rewrite H in Hq. }
  destruct (Hb st) as (evs & Hh & Hl & Hf). destruct (body st) as [[link|e] s1];
    simpl in Hh, Hf.
  - exists link, s1, evs. rewrite Hl, Hf.
    split; [done|]. split; [done|]. split; [done|]. split; [simpl; lia|].
    split; [done|]. intros H. by destruct (Hne H).
  - exists "", (extend [Logged (failure_line (Js.trim query) e)] s1),
      (evs ++ [Logged (failure_line (Js.trim query) e)]).
    split; [done|]. split; [simpl; by rewrite Hh, app_assoc|].
    rewrite logged_app, failures_app, Hl, Hf. simpl.
    split; [done|]. split; [lia|]. split; [done|].
    intros H. by destruct (Hne H).
Qed.

(** ** The end of a full-detail run *)

Lemma stage_returns (m : M unit) (s : state) :
  total m → sat (grows_by any_event) m →
  ∃ s' evs, m s = (Ok tt, s') ∧ history s' = history s ++ evs.
Proof.
  intros Ht Hs. destruct (Ht s) as ([] & s' & Hrun). specialize (Hs s).
  rewrite Hrun in Hs. destruct Hs as (evs & Hh & _). by exists s', evs.
Qed.

Lemma drillDown_grows env page : sat (grows_by any_event) (drillDown env page).
Proof. unfold_detail. grows; exact I. Qed.

Lemma printOpenedJobLinks_grows : sat (grows_by any_event) printOpenedJobLinks.
Proof. unfold_detail. grows; exact I. Qed.

Lemma printOpenedJobDetails_grows : sat (grows_by any_event) printOpenedJobDetails.
Proof. unfold_detail. grows; exact I. Qed.

Lemma collectJobTexts_grows env page : sat (grows_by any_event) (collectJobTexts env page).
Proof. unfold_detail. grows; exact I. Qed.

Lemma url_of_run env page {B : Type} (f : string → M B) s :
  (url_of env page ≫= f) s = f (current_url env (history s) page) s.
Proof. reflexivity. Qed.

(** X11.  Once the summary stage has returned, a full-detail run reaches its
    end whatever fails in the detail drill-down or in the text listing:
    when the final wait and the closing of the browser succeed, the run
    returns, and the last things it does are that wait, the closing and
    the line that reports it. *)
Theorem full_detail_run_closes (env : environment) (page : page_id) (st st1 : state) :
  summaryStage env page st = (Ok tt, st1) →
  (∀ h, respond env h _ (WaitForTimeout page 60000%N) = Ok tt) →
  (∀ h, respond env h _ Close = Ok tt) →
  ∃ st' evs,
    openChromeAndSearch env page false st = (Ok tt, st') ∧
    history st' = history st1 ++ evs ++
      [ Called (WaitForTimeout page 60000%N) (Ok tt); Called Close (Ok tt);
        Logged "Browser closed." ].
Proof.
  intros Hsum Hwait Hclose. unfold openChromeAndSearch.
  rewrite (bind_ok _ _ _ _ _ Hsum). cbv beta iota. unfold fullDetail.
  destruct (stage_returns _ st1 (total_drillDown env page) (drillDown_grows env page))
    as (s2 & e2 & H2 & Hh2).
  rewrite (bind_ok _ _ _ _ _ H2). cbv beta.
  destruct (stage_returns _ s2 total_printOpenedJobLinks printOpenedJobLinks_grows)
    as (s3 & e3 & H3 & Hh3).
  rewrite (bind_ok _ _ _ _ _ H3). cbv beta.
  destruct (stage_returns _ s3 total_printOpenedJobDetails printOpenedJobDetails_grows)
    as (s4 & e4 & H4 & Hh4).
  rewrite (bind_ok _ _ _ _ _ H4). cbv beta.
  destruct (stage_returns _ s4 (total_collectJobTexts env page)
              (collectJobTexts_grows env page)) as (s5 & e5 & H5 & Hh5).
  rewrite (bind_ok _ _ _ _ _ H5). cbv beta.
  rewrite (bind_ok _ _ _ _ _ (log_run _ _)). cbv beta.
  rewrite url_of_run.
  rewrite (bind_ok _ _ _ _ _ (log_run _ _)). cbv beta.
  rewrite bind_perform, Hwait. unfold closeBrowser.
  rewrite bind_perform, Hclose, log_run.
  eexists _, (e2 ++ e3 ++ e4 ++ e5 ++
               [ Logged "Browser will stay open for 60 seconds. You can view the full jobs page.";
                 Logged ("Current page URL: " ++
                         current_url env
                           (history s5 ++
                            [Logged "Browser will stay open for 60 seconds. You can view the full jobs page."])
                           page) ]).
  split; [reflexivity|].
  cbn [history extend]. rewrite Hh5, Hh4, Hh3, Hh2.
  rewrite <- !app_assoc. reflexivity.
Qed.

Lemma full_detail_run_closes_witness :
  ∃ st', openChromeAndSearch (Samples.showing Samples.five_cards) 0 false initial
           = (Ok tt, st') ∧
         last (history st') = Some (Logged "Browser closed.").
Proof.
  assert (Hsum : summaryStage (Samples.showing Samples.five_cards) 0 initial
                 = (Ok tt, snd (summaryStage (Samples.showing Samples.five_cards) 0 initial)))
    by (vm_compute; reflexivity).
  destruct (full_detail_run_closes (Samples.showing Samples.five_cards) 0 initial _ Hsum
              (λ _, eq_refl) (λ _, eq_refl)) as (st' & evs & Hrun & Hh).
  exists st'. split; [exact Hrun|]. rewrite Hh.
  change [Called (WaitForTimeout 0 60000%N) (Ok tt); Called Close (Ok tt);
          Logged "Browser closed."]
    with ([Called (WaitForTimeout 0 60000%N) (Ok tt); Called Close (Ok tt)]
          ++ [Logged "Browser closed."]).
  by rewrite !app_assoc, last_snoc.
Defined.

(** ** The configuration of the secondary page *)

#[local] Instance same_search_page_preorder : PreOrder same_search_page.
Proof.
  split; unfold same_search_page; [done|]. intros s1 s2 s3 H1 H2. by rewrite H2.
Qed.

Lemma same_page_record ev : sat same_search_page (record ev).
Proof. by intros st. Qed.

Lemma same_page_perform env {T : Type} (c : call T) : sat same_search_page (perform env c).
Proof. by intros st. Qed.

Lemma same_page_evaluate env {A : Type} p (f : page_function A) :
  sat same_search_page (evaluate env p f).
Proof.
  unfold evaluate.
  apply sat_bind; [typeclasses eauto|apply same_page_perform|intros d].
  destruct (run_function f d) as [actions [a|e]]; structure; apply same_page_record.
Qed.

Ltac same_page :=
  repeat first
    [ progress structure
    | apply same_page_record
    | apply same_page_perform
    | apply same_page_evaluate ].

Lemma no_configuration_filter evs :
  Forall no_configuration evs → filter (λ ev, is_configuration ev) evs = [].
Proof.
  induction 1 as [|ev evs Hev _ IH]; [done|].
  rewrite filter_cons. unfold no_configuration in Hev. by rewrite Hev.
Qed.

Lemma getSearchPage_there env st p :
  searchPage st = Some p → getSearchPage env st = (Ok p, st).
Proof. intros Hsp. unfold getSearchPage. by rewrite get_run, Hsp. Qed.

Lemma try_catch_bind_ok {A B : Type} (m : M A) (f : A → M B) (h : string → M B) st a :
  m st = (Ok a, st) → try_catch (m ≫= f) h st = try_catch (f a) h st.
Proof. intros H. unfold try_catch, mbind, M_bind. by rewrite H. Qed.

(** X16.  The secondary page is configured in the lookup that opens it
    and never again.  [getSearchPage] keeps the page it has opened even
    when its configuration throws; and a lookup that finds a secondary
    page opens none and configures none, so that a page whose
    configuration has failed is used as it is by every later lookup. *)
Theorem secondary_page_configured_once (env : environment) :
  (∀ st p,
     searchPage st = None →
     respond env (history st) _ NewPage = Ok p →
     searchPage (snd (getSearchPage env st)) = Some p) ∧
  (∀ query st p,
     searchPage st = Some p →
     ∃ link st' evs,
       getFirstGoogleResultLink env query st = (Ok link, st') ∧
       history st' = history st ++ evs ∧
       filter (λ ev, is_configuration ev) evs = [] ∧
       searchPage st' = Some p).
Proof.
  split.
  - intros st p Hnone Hnew. unfold getSearchPage. rewrite get_run, Hnone.
    rewrite bind_perform, Hnew.
    set (s2 := State (history st ++ [Called NewPage (Ok p)]) (Some p)
                     (jobsTabNavigated st) (openedJobLinks st) (openedJobDetails st)).
    assert (Hset : set_searchPage p (extend [Called NewPage (Ok p)] st) = (Ok tt, s2))
      by reflexivity.
    rewrite (bind_ok _ _ _ _ _ Hset).
    destruct (configurePage_quietly env p s2) as [Hp _].
    unfold mbind, M_bind. destruct (configurePage env p s2) as [[[]|e] s3]; exact Hp.
  - intros query st p Hsp.
    destruct (total_lookup env query st) as (link & st' & Hrun).
    assert (H : grows_by no_configuration st (snd (getFirstGoogleResultLink env query st)) ∧
                same_search_page st (snd (getFirstGoogleResultLink env query st))).
    { unfold getFirstGoogleResultLink.
      destruct (Js.truthy (Js.trim query)); cbn [negb]; [|by split].
      cbv iota.
      rewrite (try_catch_bind_ok _ _ _ _ _ (getSearchPage_there env st p Hsp)). split.
      - apply (sat_try_catch (grows_by no_configuration));
          [unfold dismissConsentIfPresent, log; grows; reflexivity
          |intros e; unfold log; grows; reflexivity].
      - apply (sat_try_catch same_search_page);
          [unfold dismissConsentIfPresent, log; same_page
          |intros e; unfold log; same_page]. }
    rewrite Hrun in H. destruct H as [(evs & Hh & Hc) Hs].
    exists link, st', evs. split; [done|]. split; [done|].
    split; [by apply no_configuration_filter|]. unfold same_search_page in Hs.
    simpl in Hs. by rewrite Hs.
Qed.

Lemma secondary_page_configured_once_witness :
  searchPage (snd (getSearchPage (Cases.viewport_fails Samples.six_cards) initial))
    = Some 1 ∧
  ∃ link st' evs,
    getFirstGoogleResultLink (Cases.viewport_fails Samples.six_cards) "QA Engineer Bolt"
      (snd (getSearchPage (Cases.viewport_fails Samples.six_cards) initial))
    = (Ok link, st') ∧
    history st'
    = history (snd (getSearchPage (Cases.viewport_fails Samples.six_cards) initial)) ++ evs ∧
    filter (λ ev, is_configuration ev) evs = [] ∧
    searchPage st' = Some 1.
Proof.
  split.
  - exact (proj1 (secondary_page_configured_once (Cases.viewport_fails Samples.six_cards))
             initial 1 eq_refl eq_refl).
  - assert (Hsp : searchPage (snd (getSearchPage (Cases.viewport_fails Samples.six_cards)
                                     initial)) = Some 1) by (vm_compute; reflexivity).
    exact (proj2 (secondary_page_configured_once (Cases.viewport_fails Samples.six_cards))
             "QA Engineer Bolt" _ 1 Hsp).
Defined.

(** Where [page.setViewport] is rejected, the first lookup fails and
    writes its line; the second navigates the page of the first and
    calls neither [newPage] nor [setViewport]. *)
Example unconfigured_page_is_reused :
  let run :=
    (getFirstGoogleResultLink (Cases.viewport_fails Samples.six_cards) "QA Engineer Bolt" ;;
     getFirstGoogleResultLink (Cases.viewport_fails Samples.six_cards) "Data Engineer Cargo")
      initial in
  length (filter (λ ev, is_configuration ev) (history (snd run))) = 2 ∧
  gotos (history (snd run))
    = [(1, "https://www.google.com/search?q=Data%20Engineer%20Cargo&hl=en")] ∧
  length (logged (history (snd run))) = 1.
Proof. repeat split; vm_compute; reflexivity. Qed.

(** ** Run modes, on a browser that stands still *)

Lemma same_page_set_jobsTabNavigated b : sat same_search_page (set_jobsTabNavigated b).
Proof. by intros st. Qed.

Lemma prepareListing_same_page env page : sat same_search_page (prepareListing env page).
Proof.
  unfold prepareListing, listTabs, print_tab, navigateToJobs, after_jobs_click,
    clickMoreJobs, printMarkerTexts, log.
  repeat first [ apply same_page_set_jobsTabNavigated | progress same_page ].
Qed.

Lemma prepareListing_keeps_details env page : sat keeps_details (prepareListing env page).
Proof. unfold_summary. keeps. Qed.

Lemma prepareListing_grows env page : sat (grows_by any_event) (prepareListing env page).
Proof. unfold_summary. grows; exact I. Qed.

Lemma push_openedJobLink_run {B : Type} entry (f : unit → M B) st :
  (push_openedJobLink entry ≫= f) st
  = f tt (State (history st) (searchPage st) (jobsTabNavigated st)
                (openedJobLinks st ++ [entry]) (openedJobDetails st)).
Proof. reflexivity. Qed.

(** The consent dismissal returns, in silence, and changes the history
    only. *)
Lemma dismissConsent_returns env p st :
  ∃ evs, dismissConsentIfPresent env p st = (Ok tt, extend evs st) ∧ logged evs = [].
Proof.
  unfold dismissConsentIfPresent, try_catch.
  destruct (respond env (history st) _ (Evaluate p FnDismissConsent)) as [d|e] eqn:Hd.
  - destruct (run_function FnDismissConsent d) as [actions [[]|e]] eqn:Hf.
    + rewrite (evaluate_ok env p FnDismissConsent st d tt actions Hd Hf).
      eexists. split; [reflexivity|].
      change (Called ?c ?r :: ?l) with ([Called c r] ++ l).
      by rewrite logged_app, acted_logged.
    + rewrite (evaluate_throws env p FnDismissConsent st d e actions Hd Hf).
      eexists. split; [reflexivity|].
      change (Called ?c ?r :: ?l) with ([Called c r] ++ l).
      by rewrite logged_app, acted_logged.
  - rewrite (evaluate_fails env p FnDismissConsent st e Hd). by eexists.
Qed.

Lemma lookup_blank env q st :
  Js.truthy (Js.trim q) = false → getFirstGoogleResultLink env q st = (Ok "", st).
Proof. intros H. unfold getFirstGoogleResultLink. by rewrite H. Qed.

Lemma or_node_some (a : option node) (target : node) :
  or_node a (Some target) = Some (default target a).
Proof. by destruct a. Qed.

Section SteadyBrowser.
Variable page : page_id.
Variables d found : document.
Variable address : string.

Local Notation steady := (Steady.browser page d found address).

Lemma steady_never_fails : never_fails steady.
Proof. intros h T c. destruct c; eexists; reflexivity. Qed.

Lemma steady_main h {A : Type} (f : page_function A) :
  respond steady h _ (Evaluate page f) = Ok d.
Proof. cbn [respond Steady.browser]. by rewrite Nat.eqb_refl. Qed.

Lemma steady_secondary h {A : Type} (f : page_function A) :
  respond steady h _ (Evaluate (S page) f) = Ok found.
Proof.
  cbn [respond Steady.browser]. rewrite (proj2 (Nat.eqb_neq (S page) page)); [done|lia].
Qed.

Lemma evaluate_main {A : Type} (f : page_function A) st a actions :
  run_function f d = (actions, Ok a) →
  evaluate steady page f st
  = (Ok a, extend (Called (Evaluate page f) (Ok d) :: map (Acted page) actions) st).
Proof. apply evaluate_ok, steady_main. Qed.

Lemma total_perform_steady {T : Type} (c : call T) : total (perform steady c).
Proof.
  intros st. destruct (perform_returns steady c st steady_never_fails) as (v & st' & H).
  by exists v, st'.
Qed.

Lemma total_evaluate_main {A : Type} (f : page_function A) a actions :
  run_function f d = (actions, Ok a) → total (evaluate steady page f).
Proof. intros Hf st. rewrite (evaluate_main f st a actions Hf). by eexists _, _. Qed.

(** The stages before the extraction return and leave the secondary
    page and the details as they are. *)
Lemma prepareListing_steady st :
  ∃ st1, prepareListing steady page st = (Ok tt, st1) ∧
         searchPage st1 = searchPage st ∧ openedJobDetails st1 = openedJobDetails st.
Proof.
  assert (Ht : total (prepareListing steady page)).
  { pose proof (total_evaluate_main FnAvailableTabs _ _ eq_refl) as Htabs.
    pose proof (total_evaluate_main FnMarkerTexts _ _ eq_refl) as Htexts.
    pose proof (total_navigateToJobs steady page) as Hnav.
    pose proof (total_clickMoreJobs steady page) as Hmore.
    unfold prepareListing, listTabs, print_tab, printMarkerTexts. totality. }
  destruct (Ht st) as ([] & st1 & Hrun). exists st1. split; [exact Hrun|].
  pose proof (prepareListing_same_page steady page st) as Hp.
  pose proof (prepareListing_keeps_details steady page st) as Hk.
  rewrite Hrun in Hp, Hk. by split.
Qed.

(** The extraction returns the record collection of [d]. *)
Lemma extractJobs_steady results st :
  Steady.collection d = Ok results →
  ∃ evs, extractJobs steady page st = (Ok results, extend evs st).
Proof.
  unfold Steady.collection. intros Hc. unfold extractJobs.
  rewrite (bind_ok _ _ _ _ _ (log_run _ _)).
  rewrite (bind_ok _ _ _ _ _ (evaluate_main FnClassBasedResults _ _ [] eq_refl)).
  cbv beta. destruct (length (classBasedResults d) =? 0)%nat.
  - rewrite (bind_ok _ _ _ _ _ (log_run _ _)).
    assert (Hf : run_function FnFallbackResults d = ([], Ok results)).
    { unfold run_function. by rewrite Hc. }
    rewrite (evaluate_main FnFallbackResults _ _ [] Hf). rewrite !extend_extend.
    by eexists.
  - injection Hc as <-. rewrite !extend_extend. by eexists.
Qed.

(** The secondary page is the page after the main page. *)
Lemma getSearchPage_steady st :
  Steady.on_secondary page st →
  ∃ st1 evs,
    getSearchPage steady st = (Ok (S page), st1) ∧
    history st1 = history st ++ evs ∧ logged evs = [] ∧
    searchPage st1 = Some (S page) ∧ openedJobDetails st1 = openedJobDetails st.
Proof.
  intros [Hn|Hs].
  - destruct st as [h sp nav links details]. simpl in Hn. subst sp.
    eexists _, [ Called NewPage (Ok (S page));
                 Called (SetViewport (S page) 1920 1080) (Ok tt);
                 Called (SetUserAgent (S page) userAgent) (Ok tt);
                 Called (EvaluateOnNewDocument (S page) hide_webdriver) (Ok tt);
                 Called (EvaluateOnNewDocument (S page) add_chrome_runtime) (Ok tt);
                 Called (EvaluateOnNewDocument (S page) add_plugins) (Ok tt) ].
    split; [reflexivity|]. cbn [history searchPage openedJobDetails snd extend].
    split; [by rewrite <- !app_assoc|]. done.
  - exists st, []. rewrite (getSearchPage_there steady st (S page) Hs).
    by rewrite app_nil_r.
Qed.

(** A lookup returns the first link of the result page. *)
Lemma lookup_steady q st :
  Js.truthy (Js.trim q) = true → Steady.on_secondary page st →
  ∃ st' evs,
    getFirstGoogleResultLink steady q st = (Ok (firstResultLink found), st') ∧
    history st' = history st ++ evs ∧ logged evs = [] ∧
    searchPage st' = Some (S page) ∧ openedJobDetails st' = openedJobDetails st.
Proof.
  intros Hq Hinv. unfold getFirstGoogleResultLink. rewrite Hq. cbn [negb]. cbv iota.
  unfold try_catch.
  destruct (getSearchPage_steady st Hinv) as (s1 & evs1 & Hg & Hh1 & Hl1 & Hsp1 & Hd1).
  rewrite (bind_ok _ _ _ _ _ Hg). cbv beta. rewrite bind_perform.
  cbn [respond Steady.browser].
  set (s2 := extend [Called (Goto (S page) (search_url (Js.trim q)) domcontentloaded 30000%N)
                       (Ok tt)] s1).
  destruct (dismissConsent_returns steady (S page) s2) as (evs3 & Hc & Hl3).
  rewrite (bind_ok _ _ _ _ _ Hc). cbv beta. rewrite bind_perform.
  cbn [respond Steady.browser].
  rewrite (bind_ok _ _ _ _ _
             (evaluate_ok steady (S page) FnFirstResultLink _ found _ []
                (steady_secondary _ _) eq_refl)).
  cbv beta. rewrite or_else_empty.
  eexists _, (evs1 ++ [Called (Goto (S page) (search_url (Js.trim q)) domcontentloaded 30000%N)
                         (Ok tt)]
              ++ evs3
              ++ [Called (WaitForTimeout (S page) 1500%N) (Ok tt);
                  Called (Evaluate (S page) FnFirstResultLink) (Ok found)]).
  split; [reflexivity|]. unfold s2. cbn [history searchPage openedJobDetails extend map].
  split; [rewrite Hh1; by rewrite <- !app_assoc|].
  split; [by rewrite !logged_app, Hl1, Hl3|]. done.
Qed.

(** The summary of one record: its block, with its enrichment link. *)
Lemma summarise_steady r st :
  Steady.on_secondary page st →
  ∃ st' evs,
    summarise steady r st = (Ok tt, st') ∧
    history st' = history st ++ evs ∧
    logged evs = summary_block r (Steady.enrichment found r) ∧
    Steady.on_secondary page st' ∧ openedJobDetails st' = openedJobDetails st.
Proof.
  intros Hinv. unfold summarise, Steady.enrichment.
  rewrite !(bind_ok _ _ _ _ _ (log_run _ _)), !extend_extend. cbn [app].
  set (head := [Logged _; Logged _; Logged _]).
  assert (Hinv' : Steady.on_secondary page (extend head st)) by exact Hinv.
  destruct (0 <? length (searchQueryParts r))%nat eqn:Hparts.
  - destruct (has_query r) eqn:Hq.
    + assert (Hq' : Js.truthy (Js.trim (String.concat " " (searchQueryParts r))) = true)
        by (by rewrite query_form).
      destruct (lookup_steady _ _ Hq' Hinv') as (s1 & evs1 & Hrun & Hh & Hl & Hsp & Hd).
      assert (Hfound :
                (getFirstGoogleResultLink steady (String.concat " " (searchQueryParts r))
                 ≫= λ searchLink, log ("Search Result: " +:+ or_na searchLink))
                  (extend head st)
                = (Ok tt, extend [Logged ("Search Result: " +:+ or_na (firstResultLink found))]
                            s1)).
      { by rewrite (bind_ok _ _ _ _ _ Hrun). }
      rewrite (bind_ok _ _ _ _ _ Hfound). rewrite !log_run, !extend_extend. cbn [app].
      eexists _, (head ++ evs1 ++ [Logged ("Search Result: " +:+ or_na (firstResultLink found));
                                   Logged "---------"]).
      split; [reflexivity|]. cbn [history searchPage openedJobDetails extend].
      split; [rewrite Hh; cbn [history extend]; by rewrite <- !app_assoc|].
      split; [by rewrite !logged_app, Hl|]. split; [by right|exact Hd].
    + assert (Hq' : Js.truthy (Js.trim (String.concat " " (searchQueryParts r))) = false)
        by (by rewrite query_form).
      assert (Hfound :
                (getFirstGoogleResultLink steady (String.concat " " (searchQueryParts r))
                 ≫= λ searchLink, log ("Search Result: " +:+ or_na searchLink))
                  (extend head st)
                = (Ok tt, extend [Logged "Search Result: N/A"] (extend head st))).
      { by rewrite (bind_ok _ _ _ _ _ (lookup_blank steady _ _ Hq')). }
      rewrite (bind_ok _ _ _ _ _ Hfound). rewrite !log_run, !extend_extend. cbn [app].
      eexists _, (head ++ [Logged "Search Result: N/A"; Logged "---------"]).
      split; [reflexivity|]. by repeat split.
  - rewrite (no_parts_no_query r Hparts).
    rewrite (bind_ok _ _ _ _ _ (log_run _ _)). rewrite !log_run, !extend_extend.
    eexists _, (head ++ [Logged "Search Result: N/A"; Logged "---------"]).
    split; [reflexivity|]. by repeat split.
Qed.

Lemma summarise_all_steady rs st :
  Steady.on_secondary page st →
  ∃ st' evs,
    for_each_M (summarise steady) rs st = (Ok tt, st') ∧
    history st' = history st ++ evs ∧
    logged evs = concat (map (λ r, summary_block r (Steady.enrichment found r)) rs) ∧
    openedJobDetails st' = openedJobDetails st.
Proof.
  revert st. induction rs as [|r rs IH]; intros st Hinv.
  - exists st, []. by rewrite app_nil_r.
  - destruct (summarise_steady r st Hinv) as (s1 & evs1 & Hrun & Hh & Hl & Hinv1 & Hd).
    destruct (IH s1 Hinv1) as (s2 & evs2 & Hrun2 & Hh2 & Hl2 & Hd2).
    exists s2, (evs1 ++ evs2). split; [simpl; by rewrite (bind_ok _ _ _ _ _ Hrun)|].
    split; [by rewrite Hh2, Hh, app_assoc|].
    split; [rewrite logged_app, Hl, Hl2; reflexivity|]. by rewrite Hd2.
Qed.

(** One iteration of the drill-down stores the detail of its marker. *)
Lemma openJob_steady jobCount idx st :
  Steady.clickable d →
  (idx < length (docQuerySelectorAll d title_marker_sel))%nat →
  ∃ st', openJob steady page jobCount idx st = (Ok tt, st') ∧
         openedJobDetails st'
         = (openedJobDetails st ++ [Steady.detail_of d address idx])%list.
Proof.
  intros Hclick Hidx.
  destruct (lookup_lt_is_Some_2 _ _ Hidx) as [target Ht].
  assert (Hhtml : is_html (Steady.clicked target) = true).
  { unfold Steady.clickable in Hclick. rewrite Forall_forall in Hclick.
    apply Hclick. by eapply list_elem_of_lookup_2. }
  assert (Hf : run_function (FnClickJob idx) d
             = ([ScrollIntoView (Steady.clicked target); Click (Steady.clicked target)],
                Ok true)).
  { unfold run_function, jobTabToClick. rewrite Ht, or_node_some.
    fold (Steady.clicked target). unfold click. by rewrite Hhtml. }
  assert (Hprint : ∀ (l : list Anchor) s,
             ∃ s', (if (0 <? length l)%nat
                    then log "  Anchors found in description pane/job card:" ;;
                         for_each_M (print_anchor idx) (imap (λ i a, (i, a)) l)
                    else log "  No anchors detected for this job in the detail pane.") s
                   = (Ok tt, s') ∧ openedJobDetails s' = openedJobDetails s).
  { intros l s.
    set (P := if (0 <? length l)%nat then _ else _).
    assert (Htot : total P) by (unfold P, print_anchor; totality).
    assert (Hkeep : sat keeps_details P) by (unfold P, print_anchor, log; keeps).
    destruct (Htot s) as ([] & s' & Hrun). exists s'. split; [exact Hrun|].
    specialize (Hkeep s). by rewrite Hrun in Hkeep. }
  unfold openJob.
  rewrite (bind_ok _ _ _ _ _ (evaluate_main (FnClickJob idx) st true _ Hf)). cbv beta iota.
  rewrite (bind_ok _ _ _ _ _ (log_run _ _)). rewrite bind_perform.
  cbn [respond Steady.browser].
  rewrite (bind_ok _ _ _ _ _ (evaluate_main FnJobLink _ _ [] eq_refl)). cbv beta.
  rewrite url_of_run. cbn [current_url Steady.browser].
  rewrite push_openedJobLink_run.
  rewrite (bind_ok _ _ _ _ _ (evaluate_main FnDetailSnapshot _ _ [] eq_refl)). cbv beta.
  rewrite (bind_ok _ _ _ _ _ (evaluate_main FnAnchorDetails _ _ [] eq_refl)). cbv beta.
  lazymatch goal with
  | |- context [(_ ≫= _) ?s] =>
      destruct (Hprint (anchorDetails d) s) as (s' & Hrun & Hkeep)
  end.
  rewrite (bind_ok _ _ _ _ _ Hrun). eexists. split; [reflexivity|].
  cbn [openedJobDetails]. rewrite Hkeep. reflexivity.
Qed.

Lemma openJobs_steady jobCount (l : list nat) st :
  Steady.clickable d →
  Forall (λ idx, (idx < length (docQuerySelectorAll d title_marker_sel))%nat) l →
  ∃ st', for_each_M (openJob steady page jobCount) l st = (Ok tt, st') ∧
         openedJobDetails st'
         = (openedJobDetails st ++ map (Steady.detail_of d address) l)%list.
Proof.
  intros Hclick Hl. revert st. induction Hl as [|idx l Hidx _ IH]; intros st.
  - exists st. by rewrite app_nil_r.
  - destruct (openJob_steady jobCount idx st Hclick Hidx) as (s1 & Hrun & Hd).
    destruct (IH s1) as (s2 & Hrun2 & Hd2). exists s2.
    split; [simpl; by rewrite (bind_ok _ _ _ _ _ Hrun)|].
    rewrite Hd2, Hd. by rewrite <- app_assoc.
Qed.

(** The drill-down stores the detail of every title marker. *)
Lemma drillDown_steady st :
  Steady.clickable d →
  ∃ st', drillDown steady page st = (Ok tt, st') ∧
         openedJobDetails st'
         = (openedJobDetails st
            ++ map (Steady.detail_of d address)
                 (seq 0 (length (docQuerySelectorAll d title_marker_sel))))%list.
Proof.
  intros Hclick. unfold drillDown. rewrite (bind_ok _ _ _ _ _ (log_run _ _)).
  unfold try_catch.
  rewrite (bind_ok _ _ _ _ _ (evaluate_main FnCountMarkers _ _ [] eq_refl)). cbv beta.
  set (n := length (docQuerySelectorAll d title_marker_sel)).
  destruct (n =? 0)%nat eqn:Hn.
  - apply Nat.eqb_eq in Hn. rewrite Hn, log_run. eexists. split; [reflexivity|].
    simpl. by rewrite app_nil_r.
  - lazymatch goal with
    | |- context [for_each_M _ _ ?s] =>
        destruct (openJobs_steady n (seq 0 n) s Hclick) as (s' & Hrun & Hd)
    end.
    { apply Forall_forall. intros idx Hin. apply elem_of_seq in Hin. fold n. lia. }
    rewrite Hrun. exists s'. split; [reflexivity|]. by rewrite Hd.
Qed.

Lemma after_drillDown_total_steady :
  total
    (printOpenedJobLinks ;; printOpenedJobDetails ;; collectJobTexts steady page ;;
     log "Browser will stay open for 60 seconds. You can view the full jobs page." ;;
     current ← url_of steady page;
     log ("Current page URL: " ++ current) ;;
     perform steady (WaitForTimeout page 60000%N) ;;
     closeBrowser steady).
Proof.
  pose proof total_printOpenedJobLinks. pose proof total_printOpenedJobDetails.
  pose proof (total_collectJobTexts steady page).
  pose proof (total_perform_steady (WaitForTimeout page 60000%N)).
  pose proof (total_perform_steady Close).
  unfold closeBrowser. totality.
Qed.

Lemma after_drillDown_keeps_details env p :
  sat keeps_details
    (printOpenedJobLinks ;; printOpenedJobDetails ;; collectJobTexts env p ;;
     log "Browser will stay open for 60 seconds. You can view the full jobs page." ;;
     current ← url_of env p;
     log ("Current page URL: " ++ current) ;;
     perform env (WaitForTimeout p 60000%N) ;;
     closeBrowser env).
Proof. unfold_detail. keeps. Qed.

Lemma fullDetail_total_steady : total (fullDetail steady page).
Proof.
  unfold fullDetail. apply total_bind; [apply total_drillDown|intros _].
  apply after_drillDown_total_steady.
Qed.

(** A full-detail run from the end of the summary stage. *)
Lemma fullDetail_steady st :
  Steady.clickable d →
  ∃ st', fullDetail steady page st = (Ok tt, st') ∧
         openedJobDetails st'
         = (openedJobDetails st
            ++ map (Steady.detail_of d address)
                 (seq 0 (length (docQuerySelectorAll d title_marker_sel))))%list.
Proof.
  intros Hclick. destruct (drillDown_steady st Hclick) as (s1 & Hrun & Hd).
  unfold fullDetail. rewrite (bind_ok _ _ _ _ _ Hrun). cbv beta.
  destruct (after_drillDown_total_steady s1) as ([] & s2 & Hrun2).
  exists s2. split; [exact Hrun2|].
  pose proof (after_drillDown_keeps_details steady page s1) as Hkeep.
  rewrite Hrun2 in Hkeep. unfold keeps_details in Hkeep. simpl in Hkeep.
  by rewrite Hkeep.
Qed.

(** The run on a steady browser, in either mode. *)
Lemma steady_run (results : list JobRecord) (summaryOnly : bool) st :
  searchPage st = None →
  Steady.collection d = Ok results → results ≠ [] →
  ∃ st0 st1 evs st2,
    (prepareListing steady page ;; extractJobs steady page) st = (Ok results, st0) ∧
    summaryStage steady page st = (Ok tt, st1) ∧
    history st1 = history st0 ++ evs ∧
    logged evs
    = concat (map (λ r, summary_block r (Steady.enrichment found r)) (jobsToShow results)) ∧
    openChromeAndSearch steady page summaryOnly st = (Ok tt, st2) ∧
    (summaryOnly = true →
       history st2 = history st1 ++ [Called Close (Ok tt); Logged "Browser closed."] ∧
       openedJobDetails st2 = openedJobDetails st) ∧
    (summaryOnly = false → Steady.clickable d →
       openedJobDetails st2
       = (openedJobDetails st
          ++ map (Steady.detail_of d address)
               (seq 0 (length (docQuerySelectorAll d title_marker_sel))))%list).
Proof.
  intros Hsp Hc Hne.
  destruct (prepareListing_steady st) as (s1 & Hprep & Hsp1 & Hd1).
  destruct (extractJobs_steady results s1 Hc) as (evs0 & Hext).
  assert (Hinv : Steady.on_secondary page (extend evs0 s1)).
  { left. simpl. by rewrite Hsp1. }
  assert (Hsum : printSummary steady page results (extend evs0 s1)
               = for_each_M (summarise steady) (jobsToShow results) (extend evs0 s1)).
  { unfold printSummary. by destruct results. }
  destruct (summarise_all_steady (jobsToShow results) _ Hinv)
    as (s3 & evs & Hrun & Hh & Hl & Hd3).
  assert (Hstage : summaryStage steady page st = (Ok tt, s3)).
  { by rewrite (summaryStage_run steady page st s1 results _ Hprep Hext), Hsum. }
  assert (Hd : openedJobDetails s3 = openedJobDetails st).
  { rewrite Hd3. simpl. exact Hd1. }
  assert (Hst2 : ∃ st2,
            openChromeAndSearch steady page summaryOnly st = (Ok tt, st2) ∧
            (summaryOnly = true →
               history st2 = history s3 ++ [Called Close (Ok tt); Logged "Browser closed."] ∧
               openedJobDetails st2 = openedJobDetails st) ∧
            (summaryOnly = false → Steady.clickable d →
               openedJobDetails st2
               = (openedJobDetails st
                  ++ map (Steady.detail_of d address)
                       (seq 0 (length (docQuerySelectorAll d title_marker_sel))))%list)).
  { unfold openChromeAndSearch. rewrite (bind_ok _ _ _ _ _ Hstage). cbv beta.
    destruct summaryOnly.
    - eexists. split; [reflexivity|]. split; [|done]. intros _.
      cbn [history openedJobDetails snd extend]. split; [by rewrite <- app_assoc|exact Hd].
    - destruct (fullDetail_total_steady s3) as ([] & st2 & Hrun2).
      exists st2. split; [exact Hrun2|]. split; [done|]. intros _ Hclick.
      destruct (fullDetail_steady s3 Hclick) as (st' & Hrun' & Hd').
      rewrite Hrun2 in Hrun'. injection Hrun' as <-. by rewrite Hd', Hd. }
  destruct Hst2 as (st2 & Hopen & Hsummary & Hfull).
  exists (extend evs0 s1), s3, evs, st2.
  split; [by rewrite (bind_ok _ _ _ _ _ Hprep)|]. done.
Qed.

End SteadyBrowser.

(** C8.  The run-mode flag is true unless the variable is the string
    false.  In summary-only mode no page function of the detail
    drill-down or of the text listing is evaluated and no detail is
    collected; once the summary stage has returned, the run closes the
    browser and ends.  In full-detail mode the run goes on, from the same
    point, with the detail drill-down.  The summary stage writes, for
    the last five records of the collection in discovery order, the
    block of title, company, location and enrichment link: these blocks
    are what the summary stage of a run writes after the extraction of a
    record collection that is not empty.

    On a browser that stands still (no call fails, the main page shows
    [d], the result pages show [found]) and with a record collection
    that is not empty, the run is this, from a state without a secondary
    page: the summary stage returns, and what it writes after the
    extraction is exactly the blocks of the last five records, each with
    the first link of [found] when the record has a query and with N/A
    when it has none.  In summary-only mode the run then closes the
    browser, and the details are as they were.  In full-detail mode the
    run returns as well and, where the elements it clicks are HTML
    elements, the drill-down has stored one detail for every title
    marker of [d], in order. *)
Theorem run_modes (env : environment) (page : page_id) (st : state) :
  (SUMMARY_ONLY_OUTPUT None = true ∧
   SUMMARY_ONLY_OUTPUT (Some "false") = false ∧
   ∀ v, v ≠ "false" → SUMMARY_ONLY_OUTPUT (Some v) = true) ∧
  grows_by not_detail st (snd (openChromeAndSearch env page true st)) ∧
  openedJobDetails (snd (openChromeAndSearch env page true st)) = openedJobDetails st ∧
  (∀ st1, summaryStage env page st = (Ok tt, st1) →
     history (snd (openChromeAndSearch env page true st))
     = history st1 ++ closing env st1) ∧
  (∀ st1, summaryStage env page st = (Ok tt, st1) →
     ∃ rest, history (snd (openChromeAndSearch env page false st))
             = history st1 ++ drill_down_start env page st1 ++ rest) ∧
  (∀ results s, results ≠ [] →
     ∃ links evs,
       history (snd (printSummary env page results s)) = history s ++ evs ∧
       length links = length (jobsToShow results) ∧
       summary_lines evs = concat (zip_with summary_block (jobsToShow results) links)) ∧
  (∀ results : list JobRecord,
     results = take (length results - 5) results ++ jobsToShow results ∧
     length (jobsToShow results) = min 5 (length results)) ∧
  (∀ st1 results st2,
     prepareListing env page st = (Ok tt, st1) →
     extractJobs env page st1 = (Ok results, st2) → results ≠ [] →
     ∃ st3 links evs,
       summaryStage env page st = (Ok tt, st3) ∧
       history st3 = history st2 ++ evs ∧
       length links = length (jobsToShow results) ∧
       summary_lines evs = concat (zip_with summary_block (jobsToShow results) links) ∧
       history (snd (openChromeAndSearch env page true st))
       = history st3 ++ closing env st3) ∧
  (∀ (d found : document) (address : string) (results : list JobRecord)
     (summaryOnly : bool),
     searchPage st = None →
     Steady.collection d = Ok results → results ≠ [] →
     ∃ st0 st1 evs st2,
       (prepareListing (Steady.browser page d found address) page ;;
        extractJobs (Steady.browser page d found address) page) st = (Ok results, st0) ∧
       summaryStage (Steady.browser page d found address) page st = (Ok tt, st1) ∧
       history st1 = history st0 ++ evs ∧
       logged evs
       = concat (map (λ r, summary_block r (Steady.enrichment found r))
                   (jobsToShow results)) ∧
       openChromeAndSearch (Steady.browser page d found address) page summaryOnly st
       = (Ok tt, st2) ∧
       (summaryOnly = true →
          history st2 = history st1 ++ [Called Close (Ok tt); Logged "Browser closed."] ∧
          openedJobDetails st2 = openedJobDetails st) ∧
       (summaryOnly = false → Steady.clickable d →
          openedJobDetails st2
          = (openedJobDetails st
             ++ map (Steady.detail_of d address)
                  (seq 0 (length (docQuerySelectorAll d title_marker_sel))))%list)).
Proof.
  split; [|split; [|split; [|split; [|split; [|split; [|split; [|split]]]]]]].
  - split; [done|]. split; [done|]. intros v Hv. unfold SUMMARY_ONLY_OUTPUT.
    rewrite bool_decide_eq_false_2; [done|]. by intros [= ->].
  - apply (sat_bind (grows_by not_detail)).
    + apply summaryStage_no_detail.
    + intros _. apply closeBrowser_no_detail.
  - apply (sat_bind keeps_details).
    + apply summaryStage_keeps_details.
    + intros _. apply closeBrowser_keeps_details.
  - intros st1 H1. unfold openChromeAndSearch. rewrite (bind_ok _ _ _ _ _ H1).
    apply closeBrowser_run.
  - intros st1 H1. unfold openChromeAndSearch. rewrite (bind_ok _ _ _ _ _ H1).
    apply fullDetail_starts.
  - intros results s Hne.
    destruct (printSummary_run env page results s)
      as (links & st' & evs & Hrun & Hosp & _ & _ & Hlen & Hlines).
    exists links, evs. rewrite Hrun. destruct Hosp as [Hh _]. auto.
  - apply jobsToShow_last_five.
  - intros st1 results st2 H1 H2 Hne.
    destruct (printSummary_run env page results st2)
      as (links & st3 & evs & Hrun & Hosp & _ & _ & Hlen & Hlines).
    rewrite <- (summaryStage_run env page st st1 results st2 H1 H2) in Hrun.
    exists st3, links, evs. destruct Hosp as [Hh _].
    split; [exact Hrun|]. split; [exact Hh|]. split; [exact Hlen|].
    split; [by apply Hlines|].
    unfold openChromeAndSearch. rewrite (bind_ok _ _ _ _ _ Hrun). apply closeBrowser_run.
  - intros d found address results summaryOnly. apply steady_run.
Qed.

Lemma run_modes_witness :
  SUMMARY_ONLY_OUTPUT (Some "true") = true ∧
  history (snd (openChromeAndSearch (Samples.showing Samples.six_cards) 0 true initial))
  = history (snd (summaryStage (Samples.showing Samples.six_cards) 0 initial))
    ++ closing (Samples.showing Samples.six_cards)
         (snd (summaryStage (Samples.showing Samples.six_cards) 0 initial)) ∧
  (∃ rest,
      history (snd (openChromeAndSearch (Samples.showing Samples.six_cards) 0 false initial))
      = history (snd (summaryStage (Samples.showing Samples.six_cards) 0 initial))
        ++ drill_down_start (Samples.showing Samples.six_cards) 0
             (snd (summaryStage (Samples.showing Samples.six_cards) 0 initial))
        ++ rest) ∧
  (∃ links evs,
      history (snd (printSummary (Samples.showing Samples.six_cards) 0
                      (classBasedResults Samples.six_cards) initial))
      = history initial ++ evs ∧
      length links = length (jobsToShow (classBasedResults Samples.six_cards)) ∧
      summary_lines evs
      = concat (zip_with summary_block (jobsToShow (classBasedResults Samples.six_cards))
                  links)) ∧
  (∃ st2,
      openChromeAndSearch
        (Steady.browser 0 Samples.six_cards (Samples.result_page "https://t.example/")
           "https://www.google.com/search?q=jobs&udm=8")
        0 false initial = (Ok tt, st2) ∧
      map Page.index (openedJobDetails st2) = [1; 2; 3; 4; 5; 6]).
Proof.
  pose proof (run_modes (Samples.showing Samples.six_cards) 0 initial)
    as ((_ & _ & Hflag) & _ & _ & Hstop & Hfull & Hsum & _ & _ & Hsteady).
  assert (Hs : summaryStage (Samples.showing Samples.six_cards) 0 initial
             = (Ok tt, snd (summaryStage (Samples.showing Samples.six_cards) 0 initial)))
    by (vm_compute; reflexivity).
  split; [apply Hflag; discriminate|].
  assert (Hne : classBasedResults Samples.six_cards ≠ [])
    by (vm_compute; discriminate).
  split; [exact (Hstop _ Hs)|]. split; [exact (Hfull _ Hs)|].
  split; [exact (Hsum _ _ Hne)|].
  assert (Hc : Steady.collection Samples.six_cards = Ok (classBasedResults Samples.six_cards))
    by (vm_compute; reflexivity).
  assert (Hclick : Steady.clickable Samples.six_cards)
    by (unfold Steady.clickable; vm_compute; repeat constructor).
  destruct (Hsteady Samples.six_cards (Samples.result_page "https://t.example/")
              "https://www.google.com/search?q=jobs&udm=8"
              (classBasedResults Samples.six_cards) false eq_refl Hc Hne)
    as (st0 & st1 & evs & st2 & _ & _ & _ & _ & Hopen & _ & Hdetails).
  exists st2. split; [exact Hopen|]. rewrite (Hdetails eq_refl Hclick). reflexivity.
Defined.

(** * The launch of the browser *)

Import Launch.

(** ** The profiles of the user data directory *)

Lemma insert_sorted_perm compare x l : insert_sorted compare x l ≡ₚ x :: l.
Proof.
  induction l as [|y l IH]; simpl; [done|].
  destruct (compare x y <? 0)%Z; [done|]. rewrite IH. apply Permutation_swap.
Qed.

Lemma sort_fold_perm compare l acc :
  fold_left (λ sorted x, insert_sorted compare x sorted) l acc ≡ₚ acc ++ l.
Proof.
  revert acc. induction l as [|x l IH]; intros acc; simpl.
  - by rewrite app_nil_r.
  - rewrite IH, insert_sorted_perm. simpl. apply Permutation_middle.
Qed.

Lemma sort_perm compare l : sort compare l ≡ₚ l.
Proof. unfold sort. by rewrite sort_fold_perm. Qed.

Lemma insert_sorted_default h x l :
  default_first l → default_first (insert_sorted (compare_profiles h) x l).
Proof.
  intros Hl Hin. rewrite insert_sorted_perm in Hin.
  destruct l as [|y l]; simpl.
  - apply list_elem_of_singleton in Hin. by subst.
  - unfold compare_profiles at 1. destruct (String.eqb x "Default") eqn:Hx.
    + apply String.eqb_eq in Hx. by subst.
    + assert (Hy : y = "Default").
      { apply elem_of_cons in Hin as [Hd|Hin].
        - subst x. by rewrite String.eqb_refl in Hx.
        - specialize (Hl Hin). by inversion Hl. }
      subst y. simpl. reflexivity.
Qed.

Lemma sort_default_first h l : default_first (sort (compare_profiles h) l).
Proof.
  unfold sort.
  assert (H : ∀ acc, default_first acc →
            default_first (fold_left (λ sorted x,
                             insert_sorted (compare_profiles h) x sorted) l acc)).
  { induction l as [|x l IH]; intros acc Hacc; [done|].
    simpl. apply IH. by apply insert_sorted_default. }
  apply H. intros Hin. inversion Hin.
Qed.

Lemma is_profile_directory h dir item :
  is_profile h dir item = true → item = Dirent (dirent_name item) true.
Proof.
  unfold is_profile. intros H. apply andb_true_iff in H as [H _].
  destruct item as [n d]. simpl in *. by subst.
Qed.

Lemma profile_names_elem h dir items name :
  name ∈ profile_names h dir items → Dirent name true ∈ items.
Proof.
  unfold profile_names. intros H.
  apply list_elem_of_fmap in H as (item & -> & H).
  apply list_elem_of_filter in H as [Hp H].
  apply Is_true_true in Hp. by rewrite <- (is_profile_directory h dir item Hp).
Qed.

Lemma named_directory_is_profile h dir items name :
  (name = "Default" ∨ Js.startsWith name "Profile " = true) →
  Dirent name true ∈ items → name ∈ profile_names h dir items.
Proof.
  intros Hn H. unfold profile_names.
  apply list_elem_of_fmap. exists (Dirent name true). split; [done|].
  apply list_elem_of_filter. split; [|done]. apply Is_true_true.
  unfold is_profile. simpl. destruct Hn as [->|Hn]; [done|].
  by rewrite Hn, orb_true_r.
Qed.

Lemma existsb_elem (name : string) (l : list string) :
  existsb (String.eqb name) l = true ↔ name ∈ l.
Proof.
  rewrite existsb_exists. split.
  - intros (x & Hx & He). apply String.eqb_eq in He. subst. by apply list_elem_of_In.
  - intros H. exists name. split; [by apply list_elem_of_In|apply String.eqb_refl].
Qed.

Lemma getChromeProfiles_listed h userDataDir items :
  readdirSync h userDataDir = Ok items →
  fst (getChromeProfiles h userDataDir) ≡ₚ profile_names h userDataDir items ∧
  default_first (fst (getChromeProfiles h userDataDir)) ∧
  snd (getChromeProfiles h userDataDir) = [].
Proof.
  intros H. unfold getChromeProfiles. rewrite H. simpl.
  fold (profile_names h userDataDir items).
  split; [apply sort_perm|]. split; [apply sort_default_first|done].
Qed.

(** X12.  The profiles found in the user data directory.  When the directory
    cannot be read there are none, and the error is written, not
    thrown.  Otherwise they are the names of the directories that are
    called [Default], start with [Profile ] or hold a [Preferences]
    file, each once for each such entry and no name of a file among
    them; and [Default], when it is one of them, comes first. *)
Theorem profiles_found (h : host) (userDataDir : string) :
  (∀ message,
     readdirSync h userDataDir = Throw message →
     getChromeProfiles h userDataDir
     = ([], [Err ("Error reading profiles: " +:+ message)])) ∧
  (∀ items,
     readdirSync h userDataDir = Ok items →
     fst (getChromeProfiles h userDataDir) ≡ₚ profile_names h userDataDir items ∧
     Forall (λ name, Dirent name true ∈ items) (fst (getChromeProfiles h userDataDir)) ∧
     default_first (fst (getChromeProfiles h userDataDir)) ∧
     snd (getChromeProfiles h userDataDir) = []).
Proof.
  split.
  - intros message H. unfold getChromeProfiles. by rewrite H.
  - intros items H.
    destruct (getChromeProfiles_listed h userDataDir items H) as (Hperm & Hfirst & Hout).
    split; [exact Hperm|]. split; [|by split].
    apply Forall_forall. intros name Hn. rewrite Hperm in Hn.
    by eapply profile_names_elem.
Qed.

Lemma profiles_found_witness :
  fst (getChromeProfiles Cases.office_pc Cases.user_data)
    = ["Default"; "Profile 1"; "Profile 2"] ∧
  fst (getChromeProfiles Cases.office_pc Cases.user_data)
    ≡ₚ ["Profile 2"; "Default"; "Profile 1"].
Proof.
  split; [vm_compute; reflexivity|].
  exact (proj1 (proj2 (profiles_found Cases.office_pc Cases.user_data) _ eq_refl)).
Defined.

Lemma selectProfile_head (profiles : list string) :
  existsb (String.eqb "Profile 1") profiles = false →
  fst (selectProfile profiles) = head profiles.
Proof. unfold selectProfile. intros ->. by destruct profiles. Qed.

(** X13.  The profile the browser is launched with.  A directory [Profile 1]
    in the user data directory is chosen whenever there is one, though
    [Default] is listed first; without it, the directory [Default] is
    chosen when there is one; and no profile is chosen exactly when
    the directory holds no profile. *)
Theorem profile_choice (h : host) (userDataDir : string) (items : list dirent) :
  readdirSync h userDataDir = Ok items →
  let chosen := fst (selectProfile (fst (getChromeProfiles h userDataDir))) in
  (Dirent "Profile 1" true ∈ items → chosen = Some "Profile 1") ∧
  (Dirent "Profile 1" true ∉ items → Dirent "Default" true ∈ items →
   chosen = Some "Default") ∧
  (chosen = None ↔ profile_names h userDataDir items = []).
Proof.
  intros Hitems chosen.
  destruct (getChromeProfiles_listed h userDataDir items Hitems) as (Hperm & Hfirst & _).
  set (profiles := fst (getChromeProfiles h userDataDir)) in *.
  split; [|split].
  - intros H1. unfold chosen, selectProfile.
    assert (Hin : "Profile 1" ∈ profiles).
    { rewrite Hperm. by apply named_directory_is_profile; [right|]. }
    apply existsb_elem in Hin. by rewrite Hin.
  - intros H1 Hd. unfold chosen. rewrite selectProfile_head.
    + apply Hfirst. rewrite Hperm. by apply named_directory_is_profile; [left|].
    + destruct (existsb (String.eqb "Profile 1") profiles) eqn:He; [|done].
      apply existsb_elem in He. rewrite Hperm in He.
      by apply profile_names_elem in He.
  - unfold chosen, selectProfile.
    destruct (existsb (String.eqb "Profile 1") profiles) eqn:He.
    + apply existsb_elem in He. rewrite Hperm in He. split; [done|].
      intros Hn. rewrite Hn in He. inversion He.
    + split.
      * intros Hc. destruct profiles as [|first rest] eqn:Hp; [|done].
        by apply Permutation_nil_l in Hperm.
      * intros Hn. rewrite Hn in Hperm. apply Permutation_nil_r in Hperm.
        by rewrite Hperm.
Qed.

Lemma profile_choice_witness :
  fst (selectProfile (fst (getChromeProfiles Cases.office_pc Cases.user_data)))
    = Some "Profile 1".
Proof.
  refine (proj1 (profile_choice Cases.office_pc Cases.user_data _ eq_refl) _).
  apply list_elem_of_In. simpl. auto.
Defined.

(** ** The launch and its fallback *)

Lemma attempts_app l1 l2 : attempts (l1 ++ l2) = attempts l1 ++ attempts l2.
Proof. unfold attempts. apply omap_app. Qed.

Lemma getChromeProfiles_launches_nothing h dir :
  attempts (snd (getChromeProfiles h dir)) = [].
Proof. unfold getChromeProfiles. by destruct (readdirSync h dir). Qed.

Lemma selectProfile_launches_nothing profiles : attempts (snd (selectProfile profiles)) = [].
Proof.
  unfold selectProfile.
  destruct (existsb (String.eqb "Profile 1") profiles); [done|]. by destruct profiles.
Qed.

(** The outcome of the function for the outcome [r] of its last launch,
    made with [options]. *)
Lemma launchTemporary_run h chromePath logged :
  fst (launchTemporary h chromePath logged)
  = match launch h (Options chromePath commonArgs) with
    | Ok _ => Ok (Options chromePath commonArgs)
    | Throw message => Throw message
    end ∧
  attempts (snd (launchTemporary h chromePath logged))
  = [(Options chromePath commonArgs, launch h (Options chromePath commonArgs))].
Proof.
  unfold launchTemporary.
  destruct (launch h (Options chromePath commonArgs)) as [[]|message]; [done|].
  by destruct logged.
Qed.

(** X14.  The launch of the browser.  Without Chrome on the host nothing is
    launched: the function writes one error line and returns.  With
    Chrome, the browser is launched with the path found, the five
    fixed switches always among its arguments, in one of three ways:
    with the chosen profile, at once; with the temporary profile after
    the launch with the chosen profile has thrown; with the temporary
    profile only, when there is no profile to use.  The function
    throws exactly when the launch with the temporary profile
    throws. *)
Theorem launch_attempts (h : host) :
  (getChromePath h = None →
   startBrowser h = (Ok None, [Err "Chrome not found! Please install Google Chrome."])) ∧
  (∀ chromePath,
     getChromePath h = Some chromePath →
     let temporary := Options chromePath commonArgs in
     let outcome :=
       match launch h temporary with
       | Ok _ => Ok (Some temporary)
       | Throw message => Throw message
       end in
     (∃ dir profile,
        attempts (snd (startBrowser h))
        = [(Options chromePath (profileArgs dir profile ++ commonArgs), Ok tt)] ∧
        fst (startBrowser h)
        = Ok (Some (Options chromePath (profileArgs dir profile ++ commonArgs)))) ∨
     (∃ dir profile message,
        attempts (snd (startBrowser h))
        = [ (Options chromePath (profileArgs dir profile ++ commonArgs), Throw message);
            (temporary, launch h temporary) ] ∧
        fst (startBrowser h) = outcome) ∨
     (attempts (snd (startBrowser h)) = [(temporary, launch h temporary)] ∧
      fst (startBrowser h) = outcome)).
Proof.
  split.
  - intros H. unfold startBrowser. by rewrite H.
  - intros chromePath H temporary outcome. unfold startBrowser. rewrite H.
    set (warning := if isChromeRunning h then _ else _).
    assert (Hw : attempts warning = []) by (unfold warning; by destruct (isChromeRunning h)).
    set (selected :=
           match getChromeUserDataDir h with
           | Some dir =>
               if Js.truthy dir then
                 let '(profiles, errors) := getChromeProfiles h dir in
                 let '(selectedProfile, chosen) := selectProfile profiles in
                 (selectedProfile, errors ++ [OutList "Available profiles:" profiles] ++ chosen)
               else (None, [])
           | None => (None, [])
           end).
    assert (Hs : attempts (snd selected) = []).
    { unfold selected. destruct (getChromeUserDataDir h) as [dir|]; [|done].
      destruct (Js.truthy dir); [|done].
      pose proof (getChromeProfiles_launches_nothing h dir) as Hp.
      destruct (getChromeProfiles h dir) as [profiles errors].
      pose proof (selectProfile_launches_nothing profiles) as Hc.
      destruct (selectProfile profiles) as [selectedProfile chosen].
      cbn [snd] in *. by rewrite !attempts_app, Hp, Hc. }
    destruct selected as [selectedProfile selection]. simpl in Hs.
    set (paths := Out _ :: _).
    assert (Hp : attempts paths = []).
    { unfold paths. destruct (getChromeUserDataDir h) as [dir|]; [|done].
      by destruct (Js.truthy dir). }
    assert (Hb : attempts (warning ++ selection ++ paths) = [])
      by (by rewrite !attempts_app, Hw, Hs, Hp).
    destruct (launchTemporary_run h chromePath true) as [Hr1 Ha1].
    destruct (launchTemporary_run h chromePath false) as [Hr0 Ha0].
    fold temporary in Hr1, Ha1, Hr0, Ha0.
    cbv beta iota zeta.
    destruct (profile_to_use (getChromeUserDataDir h) selectedProfile) as [[dir profile]|].
    + destruct (launch h (Options chromePath (profileArgs dir profile ++ commonArgs)))
        as [[]|message].
      * left. exists dir, profile. cbn [fst snd]. by rewrite attempts_app, Hb.
      * right. left. exists dir, profile, message.
        destruct (launchTemporary h chromePath true) as [r after]. cbn [fst snd] in *.
        rewrite attempts_app, Hb.
        change (attempts ([Launched (Options chromePath (profileArgs dir profile ++ commonArgs))
                             (Throw message);
                           Out ("Failed to launch with existing profile: " +:+ message);
                           Out "Trying with temporary profile..."] ++ after))
          with ((Options chromePath (profileArgs dir profile ++ commonArgs), Throw message)
                :: attempts after).
        rewrite Ha1. split; [done|].
        rewrite Hr1. unfold outcome. by destruct (launch h temporary).
    + right. right.
      destruct (launchTemporary h chromePath false) as [r after]. cbn [fst snd] in *.
      rewrite attempts_app, Hb, Ha0. split; [done|].
      rewrite Hr0. unfold outcome. by destruct (launch h temporary).
Qed.

Lemma launch_attempts_witness :
  getChromePath Cases.office_pc
    = Some "C:\Program Files\Google\Chrome\Application\chrome.exe" ∧
  fst (startBrowser Cases.office_pc)
    = Ok (Some (Options "C:\Program Files\Google\Chrome\Application\chrome.exe" commonArgs)) ∧
  map snd (attempts (snd (startBrowser Cases.office_pc)))
    = [Throw "Failed to launch the browser process!"; Ok tt].
Proof.
  split; [reflexivity|].
  destruct (proj2 (launch_attempts Cases.office_pc) _ eq_refl)
    as [(dir & profile & Ha & Hr)|[(dir & profile & message & Ha & Hr)|[Ha Hr]]].
  - split; vm_compute; reflexivity.
  - split; [by rewrite Hr|]. vm_compute. reflexivity.
  - split; [by rewrite Hr|]. vm_compute. reflexivity.
Defined.
